(** * The i18n library of the Mezzofy website, embedded in Rocq

    The development follows [i18n.js] (class [I18n]): the JavaScript values
    the class handles, the browser surfaces it reads and writes, one
    definition per method; the class is followed by its page script
    [main.js], in the module [Main], and then come the properties of the
    methods and of the listeners of the script. *)

From Stdlib Require Import String Ascii List Bool Arith ZArith QArith Lia
  DecimalString.
From stdpp Require Import base strings gmap.
Import ListNotations.
Open Scope string_scope.
Open Scope list_scope.
Set Warnings "-register-all".

(** ** Strings

    A [string] stands for a JavaScript string, one [ascii] per code unit.
    No method of the class inspects a code unit other than by comparing it
    with an ASCII character ('.', '-', '<', '{', '}' and the class \w). *)

Module Str.

Definition empty (s : string) : bool :=
  match s with EmptyString => true | String _ _ => false end.

(** [s.split(sep)] for a one-character separator. *)
Fixpoint split (sep : ascii) (s : string) : list string :=
  match s with
  | EmptyString => [EmptyString]
  | String c s' =>
      if Ascii.eqb c sep then EmptyString :: split sep s'
      else match split sep s' with
           | [] => [String c EmptyString]
           | piece :: pieces => String c piece :: pieces
           end
  end.

(** [s.includes(c)] for a one-character needle. *)
Fixpoint includes (c : ascii) (s : string) : bool :=
  match s with
  | EmptyString => false
  | String d s' => Ascii.eqb d c || includes c s'
  end.

(** [s.startsWith(p)]. *)
Definition startsWith (s p : string) : bool := String.prefix p s.

(** The decimal rendering of a length or of an array index. *)
Definition of_nat (n : nat) : string := NilZero.string_of_uint (Nat.to_uint n).

(** The double quote, for messages that quote a key. *)
Definition dquote : string := String (ascii_of_nat 34) EmptyString.

End Str.

(** ** JavaScript values

    [json] is what [JSON.parse] and [response.json()] produce.  A number is
    kept as the text [Number.prototype.toString] gives for it (the class
    never computes with one); an object as its list of own properties, the
    first entry for a key being the property. *)

Module JS.

Inductive json : Type :=
| JNull
| JBool (b : bool)
| JNum (repr : string)
| JStr (s : string)
| JArr (items : list json)
| JObj (props : list (string * json)).

(** The built-in prototype objects that a [json] value inherits from. *)
Inductive proto : Type :=
| ObjectPrototype | ArrayPrototype | StringPrototype
| NumberPrototype | BooleanPrototype.

(** What a property read can yield: data, or something reached through the
    prototype chain (a built-in function, or a prototype object itself). *)
Inductive value : Type :=
| Data (j : json)
| Builtin (holder : proto) (name : string)
| Prototype (p : proto).

Definition proto_eqb (p q : proto) : bool :=
  match p, q with
  | ObjectPrototype, ObjectPrototype | ArrayPrototype, ArrayPrototype
  | StringPrototype, StringPrototype | NumberPrototype, NumberPrototype
  | BooleanPrototype, BooleanPrototype => true
  | _, _ => false
  end.

(** [typeof v]. *)
Definition typeof (v : value) : string :=
  match v with
  | Data (JBool _) => "boolean"
  | Data (JNum _) => "number"
  | Data (JStr _) => "string"
  | Data _ => "object"
  | Builtin _ _ => "function"
  | Prototype _ => "object"
  end.

(** ToBoolean: what [if (v)], [v && ...] and [v || ...] test.  The only
    falsy number JSON can denote is zero. *)
Definition truthy (v : value) : bool :=
  match v with
  | Data JNull => false
  | Data (JBool b) => b
  | Data (JNum repr) => negb (String.eqb repr "0")
  | Data (JStr s) => negb (Str.empty s)
  | _ => true
  end.

(** Own properties. *)
Fixpoint assoc {A} (k : string) (props : list (string * A)) : option A :=
  match props with
  | [] => None
  | (k', x) :: rest => if String.eqb k k' then Some x else assoc k rest
  end.

(** The element whose index prints as [k], counting from [i]. *)
Fixpoint array_index {A} (k : string) (i : nat) (items : list A) : option A :=
  match items with
  | [] => None
  | x :: rest =>
      if String.eqb k (Str.of_nat i) then Some x else array_index k (S i) rest
  end.

Definition own_property (j : json) (k : string) : option value :=
  match j with
  | JObj props => Data <$> assoc k props
  | JArr items =>
      if String.eqb k "length" then Some (Data (JNum (Str.of_nat (length items))))
      else Data <$> array_index k 0 items
  | JStr s =>
      if String.eqb k "length" then Some (Data (JNum (Str.of_nat (String.length s))))
      else (fun c => Data (JStr (String c EmptyString)))
             <$> array_index k 0 (list_ascii_of_string s)
  | _ => None
  end.

(** [[Prototype]] of a value that has one. *)
Definition proto_of (j : json) : option proto :=
  match j with
  | JNull => None
  | JBool _ => Some BooleanPrototype
  | JNum _ => Some NumberPrototype
  | JStr _ => Some StringPrototype
  | JArr _ => Some ArrayPrototype
  | JObj _ => Some ObjectPrototype
  end.

Definition proto_parent (p : proto) : option proto :=
  match p with
  | ObjectPrototype => None
  | _ => Some ObjectPrototype
  end.

Section Engine.

(** The string-keyed own properties of each built-in prototype are the
    engine's; the class is modelled for any engine. *)
Variable builtin : proto -> list string.

Definition own_builtin (p : proto) (k : string) : bool :=
  existsb (String.eqb k) (builtin p).

(** The prototype on the chain from [p] that holds [k]. *)
Definition holder_from (p : proto) (k : string) : option proto :=
  if own_builtin p k then Some p
  else match proto_parent p with
       | Some q => if own_builtin q k then Some q else None
       | None => None
       end.

(** The value of the built-in property [k] held by [h], read on a receiver
    whose [[Prototype]] is [above]: [__proto__] is the accessor of
    [Object.prototype], [length] of [Array.prototype] and [String.prototype]
    is 0, every other built-in property is a function. *)
Definition builtin_value (h : proto) (k : string) (above : option proto) : value :=
  if String.eqb k "__proto__" && proto_eqb h ObjectPrototype then
    match above with
    | Some p => Prototype p
    | None => Data JNull
    end
  else if String.eqb k "length"
          && (proto_eqb h ArrayPrototype || proto_eqb h StringPrototype) then
    Data (JNum "0")
  else Builtin h k.

Definition inherited (above : option proto) (k : string) : option value :=
  match above with
  | Some p =>
      match holder_from p k with
      | Some h => Some (builtin_value h k above)
      | None => None
      end
  | None => None
  end.

(** [j[k]] for [j] other than [null]; [None] is [undefined].  Since no
    value here is [undefined], [k in j] holds exactly when this is [Some]. *)
Definition get_data (j : json) (k : string) : option value :=
  match own_property j k with
  | Some v => Some v
  | None => inherited (proto_of j) k
  end.

(** The same on a prototype object. *)
Definition get_proto (p : proto) (k : string) : option value :=
  match holder_from p k with
  | Some h => Some (builtin_value h k (proto_parent p))
  | None => None
  end.

(** [k in v] followed by [v[k]], for [v] an object ([typeof v] is
    ["object"] and [v] is not [null]). *)
Definition get_object (v : value) (k : string) : option value :=
  match v with
  | Data (JObj props) => get_data (JObj props) k
  | Data (JArr items) => get_data (JArr items) k
  | Prototype p => get_proto p k
  | _ => None
  end.

End Engine.

(** ToString, as [String.prototype.replace] applies it to what its callback
    returns.  [None] is the TypeError of an object that has no callable
    [toString]: a parsed object whose own [toString] property shadows the
    built-in one. *)
Definition constructor_name (p : proto) : string :=
  match p with
  | ObjectPrototype => "Object"
  | ArrayPrototype => "Array"
  | StringPrototype => "String"
  | NumberPrototype => "Number"
  | BooleanPrototype => "Boolean"
  end.

Definition native_source (h : proto) (k : string) : string :=
  "function "
  +:+ (if String.eqb k "constructor" then constructor_name h else k)
  +:+ "() { [native code] }".

Fixpoint ToString_json (j : json) : option string :=
  match j with
  | JNull => Some "null"
  | JBool b => Some (if b then "true" else "false")
  | JNum repr => Some repr
  | JStr s => Some s
  | JArr items =>
      (fix join (l : list json) : option string :=
         match l with
         | [] => Some EmptyString
         | x :: rest =>
             match (match x with JNull => Some EmptyString | _ => ToString_json x end) with
             | None => None
             | Some s =>
                 match rest with
                 | [] => Some s
                 | _ :: _ =>
                     match join rest with
                     | Some t => Some (s +:+ "," +:+ t)
                     | None => None
                     end
                 end
             end
         end) items
  | JObj props =>
      match assoc "toString" props with
      | Some _ => None
      | None => Some "[object Object]"
      end
  end.

Definition ToString (v : value) : option string :=
  match v with
  | Data j => ToString_json j
  | Builtin h k => Some (native_source h k)
  | Prototype ObjectPrototype => Some "[object Object]"
  | Prototype NumberPrototype => Some "0"
  | Prototype BooleanPrototype => Some "false"
  | Prototype _ => Some EmptyString
  end.

(** The built-in property names of ECMAScript 2015 (with its Annex B); later
    editions add names and remove none. *)
Definition es2015 (p : proto) : list string :=
  match p with
  | ObjectPrototype =>
      ["constructor"; "hasOwnProperty"; "isPrototypeOf"; "propertyIsEnumerable";
       "toLocaleString"; "toString"; "valueOf"; "__proto__"]
  | ArrayPrototype =>
      ["length"; "constructor"; "concat"; "copyWithin"; "entries"; "every"; "fill";
       "filter"; "find"; "findIndex"; "forEach"; "indexOf"; "join"; "keys";
       "lastIndexOf"; "map"; "pop"; "push"; "reduce"; "reduceRight"; "reverse";
       "shift"; "slice"; "some"; "sort"; "splice"; "toLocaleString"; "toString";
       "unshift"; "values"]
  | StringPrototype =>
      ["length"; "constructor"; "charAt"; "charCodeAt"; "codePointAt"; "concat";
       "endsWith"; "includes"; "indexOf"; "lastIndexOf"; "localeCompare"; "match";
       "normalize"; "repeat"; "replace"; "search"; "slice"; "split"; "startsWith";
       "substring"; "toLocaleLowerCase"; "toLocaleUpperCase"; "toLowerCase";
       "toString"; "toUpperCase"; "trim"; "valueOf"; "substr"; "anchor"; "big";
       "blink"; "bold"; "fixed"; "fontcolor"; "fontsize"; "italics"; "link";
       "small"; "strike"; "sub"; "sup"]
  | NumberPrototype =>
      ["constructor"; "toExponential"; "toFixed"; "toLocaleString"; "toPrecision";
       "toString"; "valueOf"]
  | BooleanPrototype => ["constructor"; "toString"; "valueOf"]
  end.

End JS.

(** ** The page and the browser *)

(** What a [fetch] of a URL gives: a rejected promise, or a response with
    its [ok] flag and the value [response.json()] resolves to ([None] when
    the body is not JSON and the promise rejects). *)
Inductive response : Type :=
| NetworkError
| Response (ok : bool) (body : option JS.json).

(** [localStorage]: usable, refusing writes (quota), or refusing access. *)
Inductive storage_access : Type := StorageOk | StorageReadOnly | StorageDenied.

(** What the page shows in an element: its children given as markup (the
    page's own, or an [innerHTML] assignment) or as text ([textContent]). *)
Inductive content : Type :=
| Markup (html : string)
| Text (text : string).

(** An element, with the attributes the class reads (absent is [None]) and
    the ones it writes.  [setAttribute] turns its argument into a string;
    that conversion is the browser's and is not modelled: the argument is
    kept as passed, so that a non-string stays visible. *)
Record element : Type := {
  data_i18n : option string;
  data_i18n_vars : option string;
  data_i18n_placeholder : option string;
  data_i18n_alt : option string;
  data_i18n_title : option string;
  children : content;
  placeholder : option JS.value;
  alt : option JS.value;
  title : option JS.value
}.

Inductive console_call : Type :=
| console_error_call (message : string)
| console_warn_call (message : string).

Inductive exn : Type :=
| TypeError
| SyntaxError
| FetchError
| Error (message : string)
| DOMException.

(** The fields of an [I18n] instance. *)
Record I18n : Type := {
  currentLang : string;
  defaultLang : string;
  translations : JS.json;
  supportedLanguages : list string;
  storageKey : string
}.

(** What the class only reads. *)
Record Env : Type := {
  network : string -> response;
  JSON_parse : string -> option JS.json;
  builtin : JS.proto -> list string;
  navigator_language : string;
  navigator_userLanguage : option string;
  storage : storage_access;
  history_accepts : bool
}.

(** The instance, the page state the class writes, and a record of what it
    did: console calls, requests, dispatched events, and the translation
    tree other event handlers could see each time a method was suspended at
    an [await]. *)
Record World : Type := {
  this : I18n;
  env : Env;
  localStorage : gmap string string;
  location_search : list (string * string);
  elements : list element;
  html_lang : option string;
  body_opacity : option string;
  body_classList : list string;
  console : list console_call;
  requests : list string;
  events : list (string * string);
  observed : list JS.json
}.

Definition set_this (f : I18n -> I18n) (w : World) : World :=
  {| this := f (this w); env := env w; localStorage := localStorage w;
     location_search := location_search w; elements := elements w;
     html_lang := html_lang w; body_opacity := body_opacity w;
     body_classList := body_classList w; console := console w;
     requests := requests w; events := events w; observed := observed w |}.

Definition set_localStorage (f : gmap string string -> gmap string string) (w : World) : World :=
  {| this := this w; env := env w; localStorage := f (localStorage w);
     location_search := location_search w; elements := elements w;
     html_lang := html_lang w; body_opacity := body_opacity w;
     body_classList := body_classList w; console := console w;
     requests := requests w; events := events w; observed := observed w |}.

Definition set_location_search (f : list (string * string) -> list (string * string)) (w : World) : World :=
  {| this := this w; env := env w; localStorage := localStorage w;
     location_search := f (location_search w); elements := elements w;
     html_lang := html_lang w; body_opacity := body_opacity w;
     body_classList := body_classList w; console := console w;
     requests := requests w; events := events w; observed := observed w |}.

Definition set_elements (f : list element -> list element) (w : World) : World :=
  {| this := this w; env := env w; localStorage := localStorage w;
     location_search := location_search w; elements := f (elements w);
     html_lang := html_lang w; body_opacity := body_opacity w;
     body_classList := body_classList w; console := console w;
     requests := requests w; events := events w; observed := observed w |}.

Definition set_html_lang (f : option string -> option string) (w : World) : World :=
  {| this := this w; env := env w; localStorage := localStorage w;
     location_search := location_search w; elements := elements w;
     html_lang := f (html_lang w); body_opacity := body_opacity w;
     body_classList := body_classList w; console := console w;
     requests := requests w; events := events w; observed := observed w |}.

Definition set_body_opacity (f : option string -> option string) (w : World) : World :=
  {| this := this w; env := env w; localStorage := localStorage w;
     location_search := location_search w; elements := elements w;
     html_lang := html_lang w; body_opacity := f (body_opacity w);
     body_classList := body_classList w; console := console w;
     requests := requests w; events := events w; observed := observed w |}.

Definition set_body_classList (f : list string -> list string) (w : World) : World :=
  {| this := this w; env := env w; localStorage := localStorage w;
     location_search := location_search w; elements := elements w;
     html_lang := html_lang w; body_opacity := body_opacity w;
     body_classList := f (body_classList w); console := console w;
     requests := requests w; events := events w; observed := observed w |}.

Definition set_console (f : list console_call -> list console_call) (w : World) : World :=
  {| this := this w; env := env w; localStorage := localStorage w;
     location_search := location_search w; elements := elements w;
     html_lang := html_lang w; body_opacity := body_opacity w;
     body_classList := body_classList w; console := f (console w);
     requests := requests w; events := events w; observed := observed w |}.

Definition set_requests (f : list string -> list string) (w : World) : World :=
  {| this := this w; env := env w; localStorage := localStorage w;
     location_search := location_search w; elements := elements w;
     html_lang := html_lang w; body_opacity := body_opacity w;
     body_classList := body_classList w; console := console w;
     requests := f (requests w); events := events w; observed := observed w |}.

Definition set_events (f : list (string * string) -> list (string * string)) (w : World) : World :=
  {| this := this w; env := env w; localStorage := localStorage w;
     location_search := location_search w; elements := elements w;
     html_lang := html_lang w; body_opacity := body_opacity w;
     body_classList := body_classList w; console := console w;
     requests := requests w; events := f (events w); observed := observed w |}.

Definition set_observed (f : list JS.json -> list JS.json) (w : World) : World :=
  {| this := this w; env := env w; localStorage := localStorage w;
     location_search := location_search w; elements := elements w;
     html_lang := html_lang w; body_opacity := body_opacity w;
     body_classList := body_classList w; console := console w;
     requests := requests w; events := events w; observed := f (observed w) |}.

Definition set_currentLang (lang : string) (i : I18n) : I18n :=
  {| currentLang := lang; defaultLang := defaultLang i;
     translations := translations i;
     supportedLanguages := supportedLanguages i; storageKey := storageKey i |}.

Definition set_translations (tree : JS.json) (i : I18n) : I18n :=
  {| currentLang := currentLang i; defaultLang := defaultLang i;
     translations := tree;
     supportedLanguages := supportedLanguages i; storageKey := storageKey i |}.

Definition set_children (c : content) (e : element) : element :=
  {| data_i18n := data_i18n e; data_i18n_vars := data_i18n_vars e;
     data_i18n_placeholder := data_i18n_placeholder e;
     data_i18n_alt := data_i18n_alt e; data_i18n_title := data_i18n_title e;
     children := c;
     placeholder := placeholder e; alt := alt e; title := title e |}.

Definition set_placeholder (v : JS.value) (e : element) : element :=
  {| data_i18n := data_i18n e; data_i18n_vars := data_i18n_vars e;
     data_i18n_placeholder := data_i18n_placeholder e;
     data_i18n_alt := data_i18n_alt e; data_i18n_title := data_i18n_title e;
     children := children e;
     placeholder := Some v; alt := alt e; title := title e |}.

Definition set_alt (v : JS.value) (e : element) : element :=
  {| data_i18n := data_i18n e; data_i18n_vars := data_i18n_vars e;
     data_i18n_placeholder := data_i18n_placeholder e;
     data_i18n_alt := data_i18n_alt e; data_i18n_title := data_i18n_title e;
     children := children e;
     placeholder := placeholder e; alt := Some v; title := title e |}.

Definition set_title (v : JS.value) (e : element) : element :=
  {| data_i18n := data_i18n e; data_i18n_vars := data_i18n_vars e;
     data_i18n_placeholder := data_i18n_placeholder e;
     data_i18n_alt := data_i18n_alt e; data_i18n_title := data_i18n_title e;
     children := children e;
     placeholder := placeholder e; alt := alt e; title := Some v |}.

(** ** Methods as state transformers

    A method runs on a [World] and returns or throws; [OutOfFuel] belongs to
    the model only (the recursion of [loadTranslations] is bounded by a
    counter) and no [catch] sees it. *)

Inductive outcome (A : Type) : Type :=
| Return (a : A)
| Throw (e : exn)
| OutOfFuel.
Arguments Return {A} a.
Arguments Throw {A} e.
Arguments OutOfFuel {A}.

Definition M (A : Type) : Type := World -> outcome A * World.

Definition ret {A} (a : A) : M A := fun w => (Return a, w).

Definition bind {A B} (m : M A) (k : A -> M B) : M B :=
  fun w =>
    match m w with
    | (Return a, w') => k a w'
    | (Throw e, w') => (Throw e, w')
    | (OutOfFuel, w') => (OutOfFuel, w')
    end.

Definition throw {A} (e : exn) : M A := fun w => (Throw e, w).

Definition out_of_fuel {A} : M A := fun w => (OutOfFuel, w).

(** [try { body } catch (e) { handler e }]. *)
Definition try_catch {A} (body : M A) (handler : exn -> M A) : M A :=
  fun w =>
    match body w with
    | (Throw e, w') => handler e w'
    | r => r
    end.

Definition gets {A} (f : World -> A) : M A := fun w => (Return (f w), w).

Definition modify (f : World -> World) : M unit := fun w => (Return tt, f w).

Declare Scope js_scope.
Delimit Scope js_scope with js.
Notation "'let*' x ':=' m 'in' k" := (bind m (fun x => k))
  (at level 10, x name, m at level 100, k at level 200) : js_scope.
Notation "m ';;' k" := (bind m (fun _ => k))
  (at level 100, k at level 200, right associativity) : js_scope.
Open Scope js_scope.

(** [await m]: the method is suspended until [m] settles; the tree that the
    instance holds meanwhile is what other handlers see. *)
Definition await {A} (m : M A) : M A :=
  fun w => m (set_observed (fun seen => seen ++ [translations (this w)]) w).

Definition console_error (message : string) : M unit :=
  modify (set_console (fun log => log ++ [console_error_call message])).

Definition console_warn (message : string) : M unit :=
  modify (set_console (fun log => log ++ [console_warn_call message])).

(** ** The class [I18n] *)

(** [list.includes(x)] on a list of strings. *)
Definition includes (l : list string) (x : string) : bool :=
  existsb (String.eqb x) l.

(** [a || b] for [a] a string or [null], and for [a] a string. *)
Definition or_else (a : option string) (b : string) : string :=
  match a with
  | Some s => if Str.empty s then b else s
  | None => b
  end.

Definition or_string (a b : string) : string :=
  if Str.empty a then b else a.

(** [[constructor]] *)
Definition constructor : I18n :=
  {| currentLang := "en";
     defaultLang := "en";
     translations := JS.JObj [];
     supportedLanguages := ["en"; "zh-TW"; "zh-CN"];
     storageKey := "mezzofy_language" |}.

(** *** Browser calls *)

(** [fetch(url)] *)
Definition fetch (url : string) : M response :=
  modify (set_requests (fun sent => sent ++ [url]));;
  let* r := gets (fun w => network (env w) url) in
  match r with
  | NetworkError => throw FetchError
  | Response _ _ => ret r
  end.

(** [response.json()] *)
Definition response_json (r : response) : M JS.json :=
  match r with
  | Response _ (Some data) => ret data
  | _ => throw SyntaxError
  end.

Definition response_ok (r : response) : bool :=
  match r with
  | Response ok _ => ok
  | NetworkError => false
  end.

(** [localStorage.getItem(key)] and [localStorage.setItem(key, value)] *)
Definition localStorage_getItem (key : string) : M (option string) :=
  let* access := gets (fun w => storage (env w)) in
  match access with
  | StorageDenied => throw DOMException
  | _ => gets (fun w => localStorage w !! key)
  end.

Definition localStorage_setItem (key value : string) : M unit :=
  let* access := gets (fun w => storage (env w)) in
  match access with
  | StorageOk => modify (set_localStorage (fun store => <[key := value]> store))
  | _ => throw DOMException
  end.

(** [URLSearchParams]: [get] reads the first pair of that name, [set]
    overwrites it and drops the others (or appends), [delete] drops all. *)
Definition searchParams_get (name : string) (params : list (string * string)) : option string :=
  JS.assoc name params.

Definition searchParams_delete (name : string) (params : list (string * string))
  : list (string * string) :=
  List.filter (fun p => negb (String.eqb name (fst p))) params.

Fixpoint searchParams_set (name value : string) (params : list (string * string))
  : list (string * string) :=
  match params with
  | [] => [(name, value)]
  | (n, v) :: rest =>
      if String.eqb name n then (name, value) :: searchParams_delete name rest
      else (n, v) :: searchParams_set name value rest
  end.

(** [window.history.replaceState({}, '', url)] *)
Definition history_replaceState (params : list (string * string)) : M unit :=
  let* accepts := gets (fun w => history_accepts (env w)) in
  if accepts then modify (set_location_search (fun _ => params))
  else throw DOMException.

(** *** Lookup and interpolation *)

(** The loop of [getTranslation]: [None] when its [else] branch is taken. *)
Fixpoint walk (names : JS.proto -> list string) (keys : list string) (value : JS.value)
  : option JS.value :=
  match keys with
  | [] => Some value
  | k :: keys' =>
      if JS.truthy value && String.eqb (JS.typeof value) "object" then
        match JS.get_object names value k with
        | Some value' => walk names keys' value'
        | None => None
        end
      else None
  end.

(** [[getTranslation]] *)
Definition getTranslation (key : string) : M JS.value :=
  let keys := Str.split "." key in
  let* names := gets (fun w => builtin (env w)) in
  let* value := gets (fun w => JS.Data (translations (this w))) in
  match walk names keys value with
  | Some value' => ret value'
  | None =>
      console_warn ("Translation key not found: " +:+ key);;
      ret (JS.Data (JS.JStr key))
  end.

(** The class \w of the pattern. *)
Definition is_word (c : ascii) : bool :=
  let n := nat_of_ascii c in
  ((48 <=? n) && (n <=? 57) || (65 <=? n) && (n <=? 90)
   || (97 <=? n) && (n <=? 122) || (n =? 95))%nat.

(** The longest run of word characters at the head of [s], and what
    follows it. *)
Fixpoint word_prefix (s : string) : string * string :=
  match s with
  | EmptyString => (EmptyString, EmptyString)
  | String c s' =>
      if is_word c then
        let (run, rest) := word_prefix s' in (String c run, rest)
      else (EmptyString, s)
  end.

(** A match of [/\{\{(\w+)\}\}/] at the head of [s]: the captured name. *)
Definition placeholder_at (s : string) : option string :=
  match s with
  | String "{" (String "{" s1) =>
      match word_prefix s1 with
      | (String c name, String "}" (String "}" _)) => Some (String c name)
      | _ => None
      end
  | _ => None
  end.

(** [s.replace(/\{\{(\w+)\}\}/g, callback)]: the matches are taken from left
    to right and do not overlap; [skip] counts the characters of the current
    match still to pass.  [None] is an exception thrown by the callback or
    by the conversion of its result to a string. *)
Fixpoint replace_placeholders (callback : string -> string -> option JS.value)
    (skip : nat) (s : string) : option string :=
  match s with
  | EmptyString => Some EmptyString
  | String c s' =>
      match skip with
      | S skip' => replace_placeholders callback skip' s'
      | O =>
          match placeholder_at s with
          | Some name =>
              match callback ("{{" +:+ name +:+ "}}") name with
              | Some v =>
                  match JS.ToString v, replace_placeholders callback (String.length name + 3) s' with
                  | Some r, Some t => Some (r +:+ t)
                  | _, _ => None
                  end
              | None => None
              end
          | None => String c <$> replace_placeholders callback 0 s'
          end
      end
  end.

(** [[interpolate]]; [vars[key]] throws on [null]. *)
Definition interpolate (names : JS.proto -> list string) (text : string) (vars : JS.json)
  : option string :=
  replace_placeholders
    (fun match_ key =>
       match vars with
       | JS.JNull => None
       | _ =>
           match JS.get_data names vars key with
           | Some v => Some v
           | None => Some (JS.Data (JS.JStr match_))
           end
       end)
    0 text.

(** *** The DOM

    [document.querySelectorAll] gives the nodes of a selector as positions
    in the page's element list; a callback reads and writes the element at
    its node, as the source's callbacks do through the element object. *)

Fixpoint positions (selected : element -> bool) (from : nat) (page : list element) : list nat :=
  match page with
  | [] => []
  | e :: rest =>
      if selected e then from :: positions selected (S from) rest
      else positions selected (S from) rest
  end.

Definition has_attribute (attr : element -> option string) (e : element) : bool :=
  match attr e with Some _ => true | None => false end.

Definition querySelectorAll (attr : element -> option string) : M (list nat) :=
  gets (fun w => positions (has_attribute attr) 0 (elements w)).

Fixpoint forEach (nodes : list nat) (callback : nat -> M unit) : M unit :=
  match nodes with
  | [] => ret tt
  | node :: rest => callback node;; forEach rest callback
  end.

Definition getAttribute (node : nat) (attr : element -> option string) : M (option string) :=
  gets (fun w => elements w !! node ≫= attr).

Definition update_element (node : nat) (f : element -> element) : M unit :=
  modify (set_elements (alter f node)).

(** The string that a value of type string is. *)
Definition string_of (v : JS.value) : string :=
  match v with
  | JS.Data (JS.JStr s) => s
  | _ => EmptyString
  end.

Definition attribute_truthy (a : option string) : bool :=
  match a with
  | Some s => negb (Str.empty s)
  | None => false
  end.

(** [[applyTranslations]], the callback on [[data-i18n]] elements. *)
Definition translate_text (node : nat) : M unit :=
  let* key := getAttribute node data_i18n in
  match key with
  | None => throw TypeError
  | Some key =>
      let* translation := getTranslation key in
      if JS.truthy translation && String.eqb (JS.typeof translation) "string" then
        let* vars := getAttribute node data_i18n_vars in
        if attribute_truthy vars then
          try_catch
            (let* parse := gets (fun w => JSON_parse (env w)) in
             let* names := gets (fun w => builtin (env w)) in
             match parse (default EmptyString vars) with
             | None => throw SyntaxError
             | Some parsed =>
                 match interpolate names (string_of translation) parsed with
                 | None => throw TypeError
                 | Some text => update_element node (set_children (Text text))
                 end
             end)
            (fun e =>
               console_error ("Error parsing vars for " +:+ key +:+ ":");;
               update_element node (set_children (Text (string_of translation))))
        else if Str.includes "<" (string_of translation) then
          update_element node (set_children (Markup (string_of translation)))
        else
          update_element node (set_children (Text (string_of translation)))
      else if JS.truthy translation then
        console_warn ("Translation for " +:+ Str.dquote +:+ key +:+ Str.dquote
                      +:+ " is not a string:")
      else ret tt
  end.

(** The callback of the three attribute passes. *)
Definition translate_attribute (attr : element -> option string)
    (setAttribute : JS.value -> element -> element) (node : nat) : M unit :=
  let* key := getAttribute node attr in
  match key with
  | None => throw TypeError
  | Some key =>
      let* translation := getTranslation key in
      if JS.truthy translation then update_element node (setAttribute translation)
      else ret tt
  end.

(** The four loops of [[applyTranslations]]: text content, then the
    placeholder, alt and title attributes. *)
Definition text_pass : M unit :=
  let* nodes := querySelectorAll data_i18n in
  forEach nodes translate_text.

Definition attribute_pass (attr : element -> option string)
    (setAttribute : JS.value -> element -> element) : M unit :=
  let* nodes := querySelectorAll attr in
  forEach nodes (translate_attribute attr setAttribute).

(** [[applyTranslations]] *)
Definition applyTranslations : M unit :=
  text_pass;;
  attribute_pass data_i18n_placeholder set_placeholder;;
  attribute_pass data_i18n_alt set_alt;;
  attribute_pass data_i18n_title set_title.

(** *** Loading and switching *)

(** The path [i18n/translations/${lang}.json]. *)
Definition resource_url (lang : string) : string :=
  "i18n/translations/" +:+ lang +:+ ".json".

(** [[loadTranslations]]; the counter bounds the recursion of the model. *)
Fixpoint loadTranslations (fuel : nat) (lang : string) : M bool :=
  match fuel with
  | O => out_of_fuel
  | S fuel' =>
      try_catch
        (let* response := await (fetch (resource_url lang)) in
         if negb (response_ok response) then
           throw (Error ("Failed to load " +:+ lang +:+ ".json"))
         else
           let* data := await (response_json response) in
           modify (set_this (set_translations data));;
           ret true)
        (fun error =>
           console_error ("Error loading translations for " +:+ lang +:+ ":");;
           let* defaultLang := gets (fun w => defaultLang (this w)) in
           if negb (String.eqb lang defaultLang) then
             console_warn ("Falling back to " +:+ defaultLang);;
             loadTranslations fuel' defaultLang
           else ret false)
  end.

(** [[saveLanguage]] *)
Definition saveLanguage (lang : string) : M unit :=
  try_catch
    (let* key := gets (fun w => storageKey (this w)) in
     localStorage_setItem key lang)
    (fun e => console_warn "Unable to save language preference:").

(** [[getSavedLanguage]] *)
Definition getSavedLanguage : M (option string) :=
  try_catch
    (let* key := gets (fun w => storageKey (this w)) in
     localStorage_getItem key)
    (fun e => ret None).

(** [[getUrlLanguage]] *)
Definition getUrlLanguage : M (option string) :=
  let* found :=
    try_catch
      (let* urlParams := gets location_search in
       let urlLang := searchParams_get "lang" urlParams in
       let* supported := gets (fun w => supportedLanguages (this w)) in
       if attribute_truthy urlLang && includes supported (default EmptyString urlLang)
       then ret urlLang
       else ret None)
      (fun e => console_warn "Error reading URL language parameter:";; ret None) in
  ret found.

(** [[updateUrlLanguage]] *)
Definition updateUrlLanguage (lang : string) : M unit :=
  try_catch
    (let* url := gets location_search in
     let* defaultLang := gets (fun w => defaultLang (this w)) in
     let url :=
       if negb (String.eqb lang defaultLang) then searchParams_set "lang" lang url
       else searchParams_delete "lang" url in
     history_replaceState url)
    (fun e => console_warn "Error updating URL language parameter:").

(** [[detectBrowserLanguage]]; [browserLang] is [None] when it is
    [undefined], and then [browserLang.split] throws. *)
Definition detectBrowserLanguage : M string :=
  let* language := gets (fun w => navigator_language (env w)) in
  let* userLanguage := gets (fun w => navigator_userLanguage (env w)) in
  let browserLang := if Str.empty language then userLanguage else Some language in
  let* supported := gets (fun w => supportedLanguages (this w)) in
  match browserLang with
  | None => throw TypeError
  | Some browserLang =>
      if includes supported browserLang then ret browserLang
      else
        let langCode := hd EmptyString (Str.split "-" browserLang) in
        let match_ := List.find (fun lang => Str.startsWith lang langCode) supported in
        let* defaultLang := gets (fun w => defaultLang (this w)) in
        ret (or_else match_ defaultLang)
  end.

(** [[getCurrentLanguage]] *)
Definition getCurrentLanguage : M string :=
  gets (fun w => currentLang (this w)).

(** [classList.remove] and [classList.add] *)
Definition classList_remove (c : string) (l : list string) : list string :=
  List.filter (fun x => negb (String.eqb c x)) l.

Definition classList_add (c : string) (l : list string) : list string :=
  if includes l c then l else l ++ [c].

(** [[init]] *)
Definition init (fuel : nat) : M unit :=
  let* savedLang := getSavedLanguage in
  let* browserLang := detectBrowserLanguage in
  let* urlLang := getUrlLanguage in
  let* defaultLang := gets (fun w => defaultLang (this w)) in
  modify (set_this (set_currentLang
    (or_else urlLang (or_else savedLang (or_string browserLang defaultLang)))));;
  let* lang := gets (fun w => currentLang (this w)) in
  let* _ := await (loadTranslations fuel lang) in
  applyTranslations;;
  let* lang := gets (fun w => currentLang (this w)) in
  modify (set_html_lang (fun _ => Some lang));;
  modify (set_body_classList (classList_remove "i18n-loading"));;
  modify (set_body_classList (classList_add "i18n-ready")).

(** [[switchLanguage]] *)
Definition switchLanguage (fuel : nat) (lang : string) : M bool :=
  let* supported := gets (fun w => supportedLanguages (this w)) in
  if negb (includes supported lang) then
    console_warn ("Language " +:+ lang +:+ " not supported");;
    ret false
  else
    modify (set_body_opacity (fun _ => Some "0.7"));;
    let* _ := await (loadTranslations fuel lang) in
    modify (set_this (set_currentLang lang));;
    saveLanguage lang;;
    applyTranslations;;
    modify (set_html_lang (fun _ => Some lang));;
    updateUrlLanguage lang;;
    modify (set_body_opacity (fun _ => Some "1"));;
    modify (set_events (fun sent => sent ++ [("languageChanged", lang)]));;
    ret true.

(** ** Predicates of the properties *)

(** The element keeps the attributes that the selectors and callbacks read. *)
Definition same_marks (e e' : element) : Prop :=
  data_i18n e' = data_i18n e /\ data_i18n_vars e' = data_i18n_vars e
  /\ data_i18n_placeholder e' = data_i18n_placeholder e
  /\ data_i18n_alt e' = data_i18n_alt e /\ data_i18n_title e' = data_i18n_title e.

(** What a pass over the page leaves alone. *)
Definition same_outside_page (w w' : World) : Prop :=
  this w' = this w /\ env w' = env w /\ localStorage w' = localStorage w
  /\ location_search w' = location_search w /\ html_lang w' = html_lang w
  /\ body_opacity w' = body_opacity w /\ body_classList w' = body_classList w
  /\ requests w' = requests w /\ events w' = events w
  /\ observed w' = observed w.

(** [w'] is [w] but for its console, which has grown, and for what its
    elements show. *)
Definition page_step (w w' : World) : Prop :=
  same_outside_page w w'
  /\ (exists msgs, console w' = console w ++ msgs)
  /\ Forall2 same_marks (elements w) (elements w').

(** An attribute pass keeps what every element shows. *)
Definition shows_same (w w' : World) : Prop :=
  forall j e0, elements w !! j = Some e0 ->
    exists e1, elements w' !! j = Some e1 /\ children e1 = children e0.

(** The three attribute passes in a row. *)
Definition attribute_passes : M unit :=
  attribute_pass data_i18n_placeholder set_placeholder;;
  attribute_pass data_i18n_alt set_alt;;
  attribute_pass data_i18n_title set_title.

(** The tree that the resource of a language loads as, if it loads. *)
Definition resource (E : Env) (lang : string) : option JS.json :=
  match network E (resource_url lang) with
  | Response true (Some data) => Some data
  | _ => None
  end.

(** What a load leaves alone. *)
Definition load_frame (w w' : World) : Prop :=
  env w' = env w /\ localStorage w' = localStorage w
  /\ location_search w' = location_search w /\ elements w' = elements w
  /\ html_lang w' = html_lang w /\ body_opacity w' = body_opacity w
  /\ body_classList w' = body_classList w /\ events w' = events w
  /\ currentLang (this w') = currentLang (this w)
  /\ defaultLang (this w') = defaultLang (this w)
  /\ supportedLanguages (this w') = supportedLanguages (this w)
  /\ storageKey (this w') = storageKey (this w)
  /\ exists msgs, console w' = console w ++ msgs.

(** What a load does, by the outcome of its requests. *)
Definition load_result (w : World) (lang : string) (ok : bool) (w' : World) : Prop :=
  let old := translations (this w) in
  let fallback := defaultLang (this w) in
  match resource (env w) lang with
  | Some data =>
      ok = true /\ translations (this w') = data
      /\ requests w' = requests w ++ [resource_url lang]
  | None =>
      if String.eqb lang fallback then
        ok = false /\ translations (this w') = old
        /\ requests w' = requests w ++ [resource_url lang]
      else
        requests w' = requests w ++ [resource_url lang; resource_url fallback]
        /\ match resource (env w) fallback with
           | Some data => ok = true /\ translations (this w') = data
           | None => ok = false /\ translations (this w') = old
           end
  end.

(** The world in which [switchLanguage] starts its load. *)
Definition loading (w : World) : World :=
  set_observed (fun seen => seen ++ [translations (this w)])
    (set_body_opacity (fun _ => Some "0.7") w).

(** The search parameters that [updateUrlLanguage] asks for. *)
Definition url_for (lang fallback : string) (params : list (string * string))
  : list (string * string) :=
  if negb (String.eqb lang fallback) then searchParams_set "lang" lang params
  else searchParams_delete "lang" params.

(** The path of a dotted key through own properties only. *)
Fixpoint own_path (keys : list string) (tree : JS.json) : option JS.json :=
  match keys with
  | [] => Some tree
  | k :: keys' =>
      match tree with
      | JS.JObj props => JS.assoc k props ≫= own_path keys'
      | JS.JArr items =>
          (if String.eqb k "length" then Some (JS.JNum (Str.of_nat (length items)))
           else JS.array_index k 0 items) ≫= own_path keys'
      | _ => None
      end
  end.

(** No prototype holds the name [k]. *)
Definition not_inherited (names : JS.proto -> list string) (k : string) : Prop :=
  forall p, JS.own_builtin names p k = false.

(** A template as literal text and placeholders. *)
Inductive segment : Type :=
| Literal (text : string)
| Placeholder (name : string).

Definition placeholder_text (name : string) : string := "{{" +:+ name +:+ "}}".

Fixpoint render (segments : list segment) : string :=
  match segments with
  | [] => EmptyString
  | Literal text :: rest => text +:+ render rest
  | Placeholder name :: rest => placeholder_text name +:+ render rest
  end.

Fixpoint all_word (s : string) : bool :=
  match s with
  | EmptyString => true
  | String c s' => is_word c && all_word s'
  end.

(** Literal text holds no '{'; a name is a run of word characters that is
    not empty. *)
Definition well_formed (s : segment) : Prop :=
  match s with
  | Literal text => Str.includes "{" text = false
  | Placeholder name => name <> EmptyString /\ all_word name = true
  end.

(** What the specification says of [interpolate]: a placeholder becomes
    the entry of its name, and stays as it is when there is none. *)
Fixpoint substitute (props : list (string * JS.json)) (segments : list segment)
  : option string :=
  match segments with
  | [] => Some EmptyString
  | Literal text :: rest => String.append text <$> substitute props rest
  | Placeholder name :: rest =>
      match JS.assoc name props with
      | Some v =>
          match JS.ToString_json v, substitute props rest with
          | Some r, Some t => Some (r +:+ t)
          | _, _ => None
          end
      | None => String.append (placeholder_text name) <$> substitute props rest
      end
  end.

(** ** Example pages *)

Module Example.

Definition text_element (key : string) : element :=
  {| data_i18n := Some key; data_i18n_vars := None;
     data_i18n_placeholder := None; data_i18n_alt := None; data_i18n_title := None;
     children := Text "Welcome"; placeholder := None; alt := None; title := None |}.

Definition input_element (key : string) : element :=
  {| data_i18n := None; data_i18n_vars := None;
     data_i18n_placeholder := Some key; data_i18n_alt := None; data_i18n_title := None;
     children := Text EmptyString; placeholder := None; alt := None; title := None |}.

(** A server that holds the given files and answers 404 for any other. *)
Definition served (files : list (string * JS.json)) (url : string) : response :=
  match JS.assoc url files with
  | Some data => Response true (Some data)
  | None => Response false None
  end.

(** The pages below carry no variables payload, so that [JSON.parse] is
    not called on them. *)
Definition browser (files : list (string * JS.json)) (accepts : bool) : Env :=
  {| network := served files;
     JSON_parse := fun _ => None;
     builtin := JS.es2015;
     navigator_language := "en-US";
     navigator_userLanguage := None;
     storage := StorageOk;
     history_accepts := accepts |}.

Definition locale (language : string) (E : Env) : Env :=
  {| network := network E; JSON_parse := JSON_parse E; builtin := builtin E;
     navigator_language := language;
     navigator_userLanguage := navigator_userLanguage E;
     storage := storage E; history_accepts := history_accepts E |}.

Definition page (E : Env) (tree : JS.json) (stored : gmap string string)
    (page_elements : list element) : World :=
  {| this := set_translations tree constructor; env := E;
     localStorage := stored; location_search := [];
     elements := page_elements; html_lang := Some "en";
     body_opacity := None; body_classList := ["i18n-loading"];
     console := []; requests := []; events := []; observed := [] |}.

Definition en_json : JS.json :=
  JS.JObj [("nav", JS.JObj [("home", JS.JStr "Home")]);
           ("hero", JS.JStr "Save <b>more</b>");
           ("blank", JS.JStr EmptyString);
           ("none", JS.JNull)].

Definition zh_json : JS.json :=
  JS.JObj [("nav", JS.JObj [("home", JS.JStr "Shouye")])].

Definition site : list (string * JS.json) :=
  [("i18n/translations/en.json", en_json);
   ("i18n/translations/zh-TW.json", zh_json)].

(** A page on the full site, one on a site without the zh-CN file, and one
    with no translation file at all. *)
Definition home : World :=
  page (browser site true) (JS.JObj []) ∅ [text_element "nav.home"].

Definition offline : World :=
  page (browser [] true) (JS.JObj []) ∅ [text_element "nav.home"].

End Example.

(** ** The DOM pass, element by element *)

(** What [getTranslation] returns for a key, and what it logs. *)
Definition lookup (i : I18n) (E : Env) (key : string) : JS.value :=
  match walk (builtin E) (Str.split "." key) (JS.Data (translations i)) with
  | Some v => v
  | None => JS.Data (JS.JStr key)
  end.

Definition lookup_log (i : I18n) (E : Env) (key : string) : list console_call :=
  match walk (builtin E) (Str.split "." key) (JS.Data (translations i)) with
  | Some _ => []
  | None => [console_warn_call ("Translation key not found: " +:+ key)]
  end.

(** What the callback of the text pass leaves of the element it is given,
    and what it logs after the lookup. *)
Definition text_of (i : I18n) (E : Env) (e : element) : element :=
  match data_i18n e with
  | None => e
  | Some key =>
      let translation := lookup i E key in
      if JS.truthy translation && String.eqb (JS.typeof translation) "string" then
        if attribute_truthy (data_i18n_vars e) then
          match JSON_parse E (default EmptyString (data_i18n_vars e))
                ≫= interpolate (builtin E) (string_of translation) with
          | Some text => set_children (Text text) e
          | None => set_children (Text (string_of translation)) e
          end
        else if Str.includes "<" (string_of translation) then
          set_children (Markup (string_of translation)) e
        else set_children (Text (string_of translation)) e
      else e
  end.

Definition text_log (i : I18n) (E : Env) (e : element) : list console_call :=
  match data_i18n e with
  | None => []
  | Some key =>
      let translation := lookup i E key in
      lookup_log i E key ++
      if JS.truthy translation && String.eqb (JS.typeof translation) "string" then
        if attribute_truthy (data_i18n_vars e) then
          match JSON_parse E (default EmptyString (data_i18n_vars e))
                ≫= interpolate (builtin E) (string_of translation) with
          | Some _ => []
          | None => [console_error_call ("Error parsing vars for " +:+ key +:+ ":")]
          end
        else []
      else if JS.truthy translation then
        [console_warn_call ("Translation for " +:+ Str.dquote +:+ key +:+ Str.dquote
                            +:+ " is not a string:")]
      else []
  end.

(** The same for the callback of an attribute pass. *)
Definition attribute_of (attr : element -> option string)
    (setAttribute : JS.value -> element -> element)
    (i : I18n) (E : Env) (e : element) : element :=
  match attr e with
  | None => e
  | Some key =>
      if JS.truthy (lookup i E key) then setAttribute (lookup i E key) e else e
  end.

Definition attribute_log (attr : element -> option string)
    (i : I18n) (E : Env) (e : element) : list console_call :=
  match attr e with
  | None => []
  | Some key => lookup_log i E key
  end.

(** What the four passes leave of an element. *)
Definition translated (i : I18n) (E : Env) (e : element) : element :=
  attribute_of data_i18n_title set_title i E
    (attribute_of data_i18n_alt set_alt i E
       (attribute_of data_i18n_placeholder set_placeholder i E
          (text_of i E e))).

(** What the four passes log on a page, pass after pass. *)
Definition translation_log (i : I18n) (E : Env) (page : list element) : list console_call :=
  flat_map (text_log i E) page
  ++ flat_map (attribute_log data_i18n_placeholder i E) page
  ++ flat_map (attribute_log data_i18n_alt i E) page
  ++ flat_map (attribute_log data_i18n_title i E) page.

(** What a callback does, field by field. *)
Definition callback_does (callback : nat -> M unit)
    (G : I18n -> Env -> element -> element)
    (L : I18n -> Env -> element -> list console_call)
    (node : nat) (w : World) (e : element) : Prop :=
  exists w', callback node w = (Return tt, w')
    /\ same_outside_page w w'
    /\ elements w' = alter (G (this w) (env w)) node (elements w)
    /\ console w' = console w ++ L (this w) (env w) e.


(** ** More of the class *)

(** [[getLanguageName]]: [names[lang] || lang] on the literal of the three
    display names, which are kept here as the bytes of their UTF-8 text. *)
Definition language_names : JS.json :=
  JS.JObj [("en", JS.JStr "English");
           ("zh-TW", JS.JStr "繁體中文");
           ("zh-CN", JS.JStr "简体中文")].

Definition getLanguageName (names : JS.proto -> list string) (lang : string) : JS.value :=
  match JS.get_data names language_names lang with
  | Some name => if JS.truthy name then name else JS.Data (JS.JStr lang)
  | None => JS.Data (JS.JStr lang)
  end.

(** A template holds a placeholder. *)
Fixpoint has_placeholder (segments : list segment) : bool :=
  match segments with
  | [] => false
  | Literal _ :: rest => has_placeholder rest
  | Placeholder _ :: _ => true
  end.

(** The instance holds the constants that [constructor] gives it. *)
Definition constructed (i : I18n) : Prop :=
  defaultLang i = defaultLang constructor
  /\ supportedLanguages i = supportedLanguages constructor
  /\ storageKey i = storageKey constructor.

(** The page loaded again: a new instance and the page's own elements, with
    the storage and the URL that the browser has kept. *)
Definition reload (page : list element) (w : World) : World :=
  {| this := constructor; env := env w;
     localStorage := localStorage w; location_search := location_search w;
     elements := page; html_lang := None;
     body_opacity := None; body_classList := ["i18n-loading"];
     console := []; requests := []; events := []; observed := [] |}.

Module Sample.

(** [JSON.parse] as far as the pages below call it: their payloads are the
    empty object, [null] and a malformed one. *)
Definition parse (text : string) : option JS.json :=
  if String.eqb text "{}" then Some (JS.JObj [])
  else if String.eqb text "null" then Some JS.JNull
  else None.

Definition browser : Env :=
  {| network := Example.served Example.site;
     JSON_parse := parse;
     builtin := JS.es2015;
     navigator_language := "zh-HK";
     navigator_userLanguage := None;
     storage := StorageOk;
     history_accepts := true |}.

Definition greeting : JS.json :=
  JS.JObj [("hello", JS.JStr "Hi {{name}} <b>!</b>");
           ("search", JS.JStr "Search");
           ("logo", JS.JObj [("alt", JS.JStr "Mezzofy")])].

Definition payload_element (key payload : string) : element :=
  {| data_i18n := Some key; data_i18n_vars := Some payload;
     data_i18n_placeholder := None; data_i18n_alt := None; data_i18n_title := None;
     children := Text "Welcome"; placeholder := None; alt := None; title := None |}.

Definition image_element (placeholder_key alt_key : string) : element :=
  {| data_i18n := None; data_i18n_vars := None;
     data_i18n_placeholder := Some placeholder_key; data_i18n_alt := Some alt_key;
     data_i18n_title := None;
     children := Text EmptyString; placeholder := None; alt := None; title := None |}.

Definition page : World :=
  Example.page browser greeting ∅
    [payload_element "hello" "{oops"; image_element "search" "logo.alt"].

(** A visit with two tracking parameters, on a browser that reports no
    language at all. *)
Definition campaign : World :=
  set_location_search (fun _ => [("utm", "mail"); ("lang", "zh-CN"); ("ref", "a")])
    Example.home.

Definition mute : Env :=
  {| network := Example.served Example.site;
     JSON_parse := parse;
     builtin := JS.es2015;
     navigator_language := EmptyString;
     navigator_userLanguage := None;
     storage := StorageOk;
     history_accepts := true |}.

End Sample.

(** * The page script, [main.js]

    The script works on the page through a handful of selectors, and on the
    instance [window.i18n] of the class.  The page is the list of its
    elements in tree order; an element holds what the selectors and the
    listeners of the script read of it, the positions of all the elements
    that contain it, and whether it is in the document.  An assignment to
    [textContent] takes what the element contained out of the document.

    The elements that the class translates are those of the [World], and
    the text that [applyTranslations] gives them is kept there: an element
    that the class translates is taken to contain none of the elements that
    the script selects.

    A listener is followed from its start to its end, on the element it is
    registered on; what other listeners do while it is suspended at an
    [await], and the way an event reaches the listeners of the elements
    around its target, are not part of the model. *)

Module Main.

Record node : Type := {
  localName : string;
  node_id : option string;
  classList : list string;
  data_lang : option string;
  data_dropdown : option string;
  data_menu : option string;
  href : option string;
  ancestors : list nat;
  isConnected : bool;
  assigned : option string
}.

Definition set_classList (f : list string -> list string) (n : node) : node :=
  {| localName := localName n; node_id := node_id n; classList := f (classList n);
     data_lang := data_lang n; data_dropdown := data_dropdown n; data_menu := data_menu n;
     href := href n; ancestors := ancestors n; isConnected := isConnected n;
     assigned := assigned n |}.

Definition set_assigned (text : string) (n : node) : node :=
  {| localName := localName n; node_id := node_id n; classList := classList n;
     data_lang := data_lang n; data_dropdown := data_dropdown n; data_menu := data_menu n;
     href := href n; ancestors := ancestors n; isConnected := isConnected n;
     assigned := Some text |}.

(** An element taken out of the page with the tree it is in: it keeps the
    ancestors that are taken out with it. *)
Definition removed (kept : list nat) (n : node) : node :=
  {| localName := localName n; node_id := node_id n; classList := classList n;
     data_lang := data_lang n; data_dropdown := data_dropdown n; data_menu := data_menu n;
     href := href n; ancestors := kept; isConnected := false;
     assigned := assigned n |}.

(** The listeners that the script registers, by the line of their
    [addEventListener], with the variables that they close over. *)
Inductive listener : Type :=
| lang_option_listener
| languageChanged_listener
| menu_button_listener (mobileMenu : nat)
| mobile_link_listener (mobileMenu : nat)
| anchor_listener
| scroll_listener (nav : option nat)
| dropdown_trigger_listener.

Inductive target : Type :=
| Window
| Element (position : nat).

(** A selector, as what it matches of a page. *)
Definition selector : Type := list node -> nat -> bool.

(** The state of the page: the instance and its world, the elements, the
    listeners registered, the variable [lastScroll], the calls of
    [window.scrollTo] and the flag of the event that is being handled; and
    what the browser gives and the script only reads: the meaning of a
    selector that is given as text ([None] when it is not a valid one), the
    layout, and the scroll position. *)
Record Site : Type := {
  i18n : World;
  document : list node;
  listeners : list (target * string * listener);
  lastScroll : Q;
  scrolled : list Z;
  defaultPrevented : bool;
  css : string -> option selector;
  offsetTop : list node -> nat -> Z;
  pageYOffset : Q
}.

Definition set_i18n (f : World -> World) (s : Site) : Site :=
  {| i18n := f (i18n s); document := document s; listeners := listeners s;
     lastScroll := lastScroll s; scrolled := scrolled s;
     defaultPrevented := defaultPrevented s;
     css := css s; offsetTop := offsetTop s; pageYOffset := pageYOffset s |}.

Definition set_document (f : list node -> list node) (s : Site) : Site :=
  {| i18n := i18n s; document := f (document s); listeners := listeners s;
     lastScroll := lastScroll s; scrolled := scrolled s;
     defaultPrevented := defaultPrevented s;
     css := css s; offsetTop := offsetTop s; pageYOffset := pageYOffset s |}.

Definition set_listeners
    (f : list (target * string * listener) -> list (target * string * listener))
    (s : Site) : Site :=
  {| i18n := i18n s; document := document s; listeners := f (listeners s);
     lastScroll := lastScroll s; scrolled := scrolled s;
     defaultPrevented := defaultPrevented s;
     css := css s; offsetTop := offsetTop s; pageYOffset := pageYOffset s |}.

Definition set_lastScroll (y : Q) (s : Site) : Site :=
  {| i18n := i18n s; document := document s; listeners := listeners s;
     lastScroll := y; scrolled := scrolled s;
     defaultPrevented := defaultPrevented s;
     css := css s; offsetTop := offsetTop s; pageYOffset := pageYOffset s |}.

Definition set_scrolled (f : list Z -> list Z) (s : Site) : Site :=
  {| i18n := i18n s; document := document s; listeners := listeners s;
     lastScroll := lastScroll s; scrolled := f (scrolled s);
     defaultPrevented := defaultPrevented s;
     css := css s; offsetTop := offsetTop s; pageYOffset := pageYOffset s |}.

Definition set_defaultPrevented (b : bool) (s : Site) : Site :=
  {| i18n := i18n s; document := document s; listeners := listeners s;
     lastScroll := lastScroll s; scrolled := scrolled s;
     defaultPrevented := b;
     css := css s; offsetTop := offsetTop s; pageYOffset := pageYOffset s |}.

(** ** Computations on the page *)

Definition S (A : Type) : Type := Site -> outcome A * Site.

Definition ret {A} (a : A) : S A := fun s => (Return a, s).

Definition bind {A B} (m : S A) (k : A -> S B) : S B :=
  fun s =>
    match m s with
    | (Return a, s') => k a s'
    | (Throw e, s') => (Throw e, s')
    | (OutOfFuel, s') => (OutOfFuel, s')
    end.

Definition throw {A} (e : exn) : S A := fun s => (Throw e, s).

Definition gets {A} (f : Site -> A) : S A := fun s => (Return (f s), s).

Definition modify (f : Site -> Site) : S unit := fun s => (Return tt, f s).

(** A call of a method of [window.i18n]. *)
Definition lift {A} (m : M A) : S A :=
  fun s => let (r, w) := m (i18n s) in (r, set_i18n (fun _ => w) s).

Declare Scope site_scope.
Delimit Scope site_scope with site.
Notation "'let*' x ':=' m 'in' k" := (bind m (fun x => k))
  (at level 10, x name, m at level 100, k at level 200) : site_scope.
Notation "m ';;' k" := (bind m (fun _ => k))
  (at level 100, k at level 200, right associativity) : site_scope.
Local Open Scope site_scope.

(** ** Selectors *)

Definition at_node (p : node -> bool) : selector :=
  fun page k => match page !! k with Some n => p n | None => false end.

(** [.c], [name], [a[href^="#"]] and [[data-menu="value"]] *)
Definition class_selector (c : string) : selector :=
  at_node (fun n => includes (classList n) c).

Definition type_selector (name : string) : selector :=
  at_node (fun n => String.eqb (localName n) name).

Definition anchor_selector : selector :=
  at_node (fun n => String.eqb (localName n) "a"
                    && match href n with
                       | Some h => Str.startsWith h "#"
                       | None => false
                       end).

Definition data_menu_selector (value : string) : selector :=
  at_node (fun n => match data_menu n with
                    | Some v => String.eqb v value
                    | None => false
                    end).

Definition id_selector (value : string) : selector :=
  at_node (fun n => match node_id n with
                    | Some v => String.eqb v value
                    | None => false
                    end).

(** [outer inner]: an element that [inner] matches, inside one that [outer]
    matches. *)
Definition descendant_selector (outer inner : selector) : selector :=
  fun page k => inner page k && at_node (fun n => existsb (outer page) (ancestors n)) page k.

Definition inside (root : nat) : selector :=
  at_node (fun n => existsb (Nat.eqb root) (ancestors n)).

Definition connected : selector := at_node isConnected.

(** The positions that a selector matches, in tree order. *)
Definition matches (sel : selector) (page : list node) : list nat :=
  List.filter (sel page) (seq 0 (length page)).

(** [document.querySelectorAll], [document.querySelector],
    [document.getElementById], and [querySelectorAll] and [querySelector] of
    an element, which look among what the element contains. *)
Definition querySelectorAll (sel : selector) : S (list nat) :=
  gets (fun s => matches (fun page k => connected page k && sel page k) (document s)).

Definition querySelector (sel : selector) : S (option nat) :=
  let* found := querySelectorAll sel in
  ret (head found).

Definition getElementById (value : string) : S (option nat) :=
  querySelector (id_selector value).

Definition element_querySelectorAll (root : nat) (sel : selector) : S (list nat) :=
  gets (fun s => matches (fun page k => inside root page k && sel page k) (document s)).

Definition element_querySelector (root : nat) (sel : selector) : S (option nat) :=
  let* found := element_querySelectorAll root sel in
  ret (head found).

(** The text of a string token of a selector is the string itself when it
    holds no quote, no backslash, no line break and no NUL. *)
Definition plain_character (c : ascii) : bool :=
  let n := nat_of_ascii c in
  negb ((n =? 34) || (n =? 92) || (n =? 10) || (n =? 12) || (n =? 13) || (n =? 0))%nat.

Fixpoint plain (value : string) : bool :=
  match value with
  | EmptyString => true
  | String c rest => plain_character c && plain rest
  end.

(** A selector given as text, which the browser parses. *)
Definition parsed_selector (text : string) : S selector :=
  let* parse := gets css in
  match parse text with
  | Some sel => ret sel
  | None => throw DOMException
  end.

(** The selector of the template [[data-menu="${menuId}"]], in which [null]
    reads as the text [null]. *)
Definition menu_selector (menuId : option string) : S selector :=
  let value := default "null" menuId in
  if plain value then ret (data_menu_selector value)
  else parsed_selector ("[data-menu=" +:+ Str.dquote +:+ value +:+ Str.dquote +:+ "]").

Fixpoint forEach {A} (items : list A) (callback : A -> S unit) : S unit :=
  match items with
  | [] => ret tt
  | item :: rest => callback item;; forEach rest callback
  end.

(** ** Elements *)

Definition getAttribute (k : nat) (attr : node -> option string) : S (option string) :=
  let* page := gets document in
  match page !! k with
  | Some n => ret (attr n)
  | None => throw TypeError
  end.

Definition update (k : nat) (f : node -> node) : S unit :=
  let* page := gets document in
  match page !! k with
  | Some _ => modify (set_document (alter f k))
  | None => throw TypeError
  end.

Definition classList_contains (k : nat) (c : string) : S bool :=
  let* page := gets document in
  match page !! k with
  | Some n => ret (includes (classList n) c)
  | None => throw TypeError
  end.

(** [classList.toggle(c)] *)
Definition toggle (c : string) (l : list string) : list string :=
  if includes l c then classList_remove c l else classList_add c l.

(** [element.textContent = text]: the element is given the text, and what
    it contained leaves the page. *)
Definition replace_children (root : nat) (text : string) (page : list node) : list node :=
  imap (fun k n =>
          if Nat.eqb k root then set_assigned text n
          else if inside root page k then
            removed (List.filter (inside root page) (ancestors n)) n
          else n)
       page.

Definition set_textContent (k : nat) (value : JS.value) : S unit :=
  let* page := gets document in
  match page !! k, JS.ToString value with
  | Some _, Some text => modify (set_document (replace_children k text))
  | _, _ => throw TypeError
  end.

Definition addEventListener (t : target) (type : string) (l : listener) : S unit :=
  modify (set_listeners (fun registered => registered ++ [(t, type, l)])).

Definition preventDefault : S unit := modify (set_defaultPrevented true).

(** ** The script *)

(** [optionLang === currentLang], where [optionLang] may be [null]. *)
Definition strict_equal (a : option string) (b : string) : bool :=
  match a with
  | Some a => String.eqb a b
  | None => false
  end.

(** What the loop of [updateLanguageDisplay] does to an option. *)
Definition highlight (currentLang : string) (n : node) : node :=
  if strict_equal (data_lang n) currentLang then
    set_classList (classList_add "font-semibold")
      (set_classList (classList_add "text-primary-orange") n)
  else
    set_classList (classList_remove "font-semibold")
      (set_classList (classList_remove "text-primary-orange") n).

(** The options of the page carry the two classes exactly when they are the
    option of the language. *)
Definition highlighted (currentLang : string) (page : list node) : Prop :=
  forall k n, page !! k = Some n -> isConnected n = true ->
    In "lang-option" (classList n) ->
    (In "text-primary-orange" (classList n) <-> data_lang n = Some currentLang)
    /\ (In "font-semibold" (classList n) <-> data_lang n = Some currentLang).

(** What [updateLanguageDisplay] does with the element of an id, if there
    is one. *)
Definition label (value text : string) (page : list node) : list node :=
  match head (matches (fun page k => connected page k && id_selector value page k) page) with
  | Some k => replace_children k text page
  | None => page
  end.

(** [[updateLanguageDisplay]] *)
Definition updateLanguageDisplay : S unit :=
  let* currentLang := lift getCurrentLanguage in
  let* names := gets (fun s => builtin (env (i18n s))) in
  let langName := getLanguageName names currentLang in
  let* desktopDisplay := getElementById "current-lang-desktop" in
  match desktopDisplay with
  | Some display => set_textContent display langName
  | None => ret tt
  end;;
  let* mobileDisplay := getElementById "current-lang-mobile" in
  match mobileDisplay with
  | Some display => set_textContent display langName
  | None => ret tt
  end;;
  let* options := querySelectorAll (class_selector "lang-option") in
  forEach options (fun option =>
    let* optionLang := getAttribute option data_lang in
    if strict_equal optionLang currentLang then
      update option (set_classList (classList_add "text-primary-orange"));;
      update option (set_classList (classList_add "font-semibold"))
    else
      update option (set_classList (classList_remove "text-primary-orange"));;
      update option (set_classList (classList_remove "font-semibold"))).

(** The listeners of [languageChanged] that are registered run when the
    event is dispatched; what one of them throws does not reach the
    dispatch. *)
Definition is_languageChanged (r : target * string * listener) : bool :=
  match r with
  | (Window, type, languageChanged_listener) => String.eqb type "languageChanged"
  | _ => false
  end.

Definition dispatch_languageChanged : S unit :=
  let* registered := gets (fun s => List.filter is_languageChanged (listeners s)) in
  forEach registered (fun _ =>
    fun s => match updateLanguageDisplay s with
             | (Throw _, s') => (Return tt, s')
             | r => r
             end).

(** [window.i18n.switchLanguage(lang)] with what [getAttribute] gave: no
    list of strings includes [null].  The dispatch of [languageChanged] is
    the last step of [switchLanguage], so that its listeners run on the
    state that the method returns with. *)
Definition i18n_switchLanguage (fuel : nat) (lang : option string) : S bool :=
  match lang with
  | Some lang =>
      let* switched := lift (await (switchLanguage fuel lang)) in
      (if switched : bool then dispatch_languageChanged else ret tt);;
      ret switched
  | None =>
      lift (await (console_warn "Language null not supported"));;
      ret false
  end.

(** The click listener of an option. *)
Definition lang_option_click (fuel : nat) (self : nat) : S unit :=
  preventDefault;;
  let* lang := getAttribute self data_lang in
  let* _ := i18n_switchLanguage fuel lang in
  updateLanguageDisplay;;
  let* mobileMenu := getElementById "mobile-menu" in
  match mobileMenu with
  | Some menu =>
      let* hidden := classList_contains menu "hidden" in
      if negb hidden then update menu (set_classList (classList_add "hidden"))
      else ret tt
  | None => ret tt
  end.

(** The click listeners of the menu button and of a link of the menu. *)
Definition menu_button_click (mobileMenu : nat) : S unit :=
  update mobileMenu (set_classList (toggle "hidden")).

Definition mobile_link_click (mobileMenu : nat) : S unit :=
  update mobileMenu (set_classList (classList_add "hidden")).

(** The click listener of an anchor link. *)
Definition anchor_click (self : nat) : S unit :=
  let* link := getAttribute self href in
  if strict_equal link "#" then ret tt
  else
    preventDefault;;
    let* sel := parsed_selector (default "null" link) in
    let* found := querySelector sel in
    match found with
    | Some found =>
        let* top := gets (fun s => offsetTop s (document s) found) in
        modify (set_scrolled (fun calls => calls ++ [(top - 80)%Z]))
    | None => ret tt
    end.

(** The listener of [scroll]. *)
Definition window_scroll (nav : option nat) : S unit :=
  let* currentScroll := gets pageYOffset in
  match nav with
  | Some nav =>
      if negb (Qle_bool currentScroll 100) then
        update nav (set_classList (classList_add "shadow-lg"))
      else update nav (set_classList (classList_remove "shadow-lg"))
  | None => throw TypeError
  end;;
  modify (set_lastScroll currentScroll).

(** The click listener of a trigger of the accordion. *)
Definition dropdown_trigger_click (self : nat) : S unit :=
  preventDefault;;
  let* menuId := getAttribute self data_dropdown in
  let* sel := menu_selector menuId in
  let* menu := querySelector sel in
  let* chevron := element_querySelector self (class_selector "chevron") in
  match menu with
  | None => throw TypeError
  | Some menu =>
      let* isActive := classList_contains menu "active" in
      let* menus := querySelectorAll (class_selector "mobile-dropdown-menu") in
      forEach menus (fun otherMenu =>
        update otherMenu (set_classList (classList_remove "active")));;
      let* chevrons :=
        querySelectorAll (descendant_selector (class_selector "mobile-dropdown-trigger")
                            (class_selector "chevron")) in
      forEach chevrons (fun otherChevron =>
        update otherChevron (set_classList (classList_remove "rotate-180")));;
      if negb isActive then
        update menu (set_classList (classList_add "active"));;
        match chevron with
        | Some chevron => update chevron (set_classList (classList_add "rotate-180"))
        | None => throw TypeError
        end
      else ret tt
  end.


(** The registrations of the listener of [DOMContentLoaded], from the
    options to the triggers of the accordion. *)
Definition register_listeners : S unit :=
  let* options := querySelectorAll (class_selector "lang-option") in
  forEach options (fun option =>
    addEventListener (Element option) "click" lang_option_listener);;
  addEventListener Window "languageChanged" languageChanged_listener;;
  let* mobileMenuButton := getElementById "mobile-menu-button" in
  let* mobileMenu := getElementById "mobile-menu" in
  match mobileMenuButton, mobileMenu with
  | Some button, Some menu =>
      addEventListener (Element button) "click" (menu_button_listener menu);;
      let* mobileLinks := element_querySelectorAll menu (type_selector "a") in
      forEach mobileLinks (fun link =>
        addEventListener (Element link) "click" (mobile_link_listener menu))
  | _, _ => ret tt
  end;;
  let* anchors := querySelectorAll anchor_selector in
  forEach anchors (fun anchor =>
    addEventListener (Element anchor) "click" anchor_listener);;
  let* nav := querySelector (type_selector "nav") in
  modify (set_lastScroll 0);;
  addEventListener Window "scroll" (scroll_listener nav);;
  let* triggers := querySelectorAll (class_selector "mobile-dropdown-trigger") in
  forEach triggers (fun trigger =>
    addEventListener (Element trigger) "click" dropdown_trigger_listener).

(** The listener of [DOMContentLoaded]. *)
Definition DOMContentLoaded (fuel : nat) : S unit :=
  lift (await (init fuel));;
  updateLanguageDisplay;;
  register_listeners.

(** ** An example page

    A navigation bar with the language display and two options, the mobile
    menu with a link and an accordion of two menus, of which the second is
    open, and the section that the link points to; then a trigger without
    chevron and its menu, and a trigger without menu. *)

Module Sample.

Definition make (name : string) (i : option string) (classes : list string)
    (inside : list nat) : node :=
  {| localName := name; node_id := i; classList := classes;
     data_lang := None; data_dropdown := None; data_menu := None; href := None;
     ancestors := inside; isConnected := true; assigned := None |}.

Definition lang_option (lang : string) (classes : list string) (inside : list nat) : node :=
  {| localName := "a"; node_id := None; classList := "lang-option" :: classes;
     data_lang := Some lang; data_dropdown := None; data_menu := None; href := Some "#";
     ancestors := inside; isConnected := true; assigned := None |}.

Definition link (to : string) (inside : list nat) : node :=
  {| localName := "a"; node_id := None; classList := [];
     data_lang := None; data_dropdown := None; data_menu := None; href := Some to;
     ancestors := inside; isConnected := true; assigned := None |}.

Definition trigger (menuId : string) (inside : list nat) : node :=
  {| localName := "button"; node_id := None; classList := ["mobile-dropdown-trigger"];
     data_lang := None; data_dropdown := Some menuId; data_menu := None; href := None;
     ancestors := inside; isConnected := true; assigned := None |}.

Definition dropdown (menuId : string) (classes : list string) (inside : list nat) : node :=
  {| localName := "div"; node_id := None; classList := "mobile-dropdown-menu" :: classes;
     data_lang := None; data_dropdown := None; data_menu := Some menuId; href := None;
     ancestors := inside; isConnected := true; assigned := None |}.

Definition page : list node :=
  [make "nav" None ["sticky"] [];
   make "span" (Some "current-lang-desktop") [] [0];
   lang_option "en" ["text-primary-orange"; "font-semibold"] [0];
   lang_option "zh-TW" [] [0];
   make "button" (Some "mobile-menu-button") [] [0];
   make "div" (Some "mobile-menu") [] [0];
   link "#pricing" [5; 0];
   trigger "products" [5; 0];
   make "svg" None ["chevron"] [7; 5; 0];
   dropdown "products" [] [5; 0];
   trigger "company" [5; 0];
   make "svg" None ["chevron"; "rotate-180"] [10; 5; 0];
   dropdown "company" ["active"] [5; 0];
   make "section" (Some "pricing") [] [];
   trigger "legal" [5; 0];
   dropdown "legal" [] [5; 0];
   trigger "support" [5; 0]].

(** The browser knows the selector of the link, and lays the section out
    1200 pixels down; the page is scrolled by 250 pixels. *)
Definition site (w : World) : Site :=
  {| i18n := w; document := page; listeners := [];
     lastScroll := 0; scrolled := []; defaultPrevented := false;
     css := fun text => if String.eqb text "#pricing" then Some (id_selector "pricing")
                        else None;
     offsetTop := fun _ k => if Nat.eqb k 13 then 1200%Z else 0%Z;
     pageYOffset := 250 |}.

End Sample.

End Main.

(** * Properties *)

Lemma Str_empty_spec s : Str.empty s = true <-> s = EmptyString.
Proof. destruct s; simpl; split; congruence. Qed.

(** [s.split(sep)[0]] is always there. *)
Lemma Str_split_nonempty sep s : Str.split sep s <> [].
Proof.
  destruct s as [|c s]; simpl; [discriminate|].
  destruct (Ascii.eqb c sep); [discriminate|].
  destruct (Str.split sep s); discriminate.
Qed.

(** ** Frames *)

Ltac run :=
  unfold switchLanguage, init, saveLanguage, getSavedLanguage, getUrlLanguage,
    updateUrlLanguage, detectBrowserLanguage, getCurrentLanguage,
    translate_text, translate_attribute, getTranslation, getAttribute,
    update_element, querySelectorAll, fetch, response_json,
    localStorage_getItem, localStorage_setItem, history_replaceState,
    console_warn, console_error, await, try_catch, bind, gets, modify, ret,
    throw, out_of_fuel in *;
  simpl in *.

Lemma same_marks_refl e : same_marks e e.
Proof. repeat split. Qed.

Lemma same_marks_trans e1 e2 e3 :
  same_marks e1 e2 -> same_marks e2 e3 -> same_marks e1 e3.
Proof. unfold same_marks. intuition congruence. Qed.

Lemma Forall2_same_marks_refl l : Forall2 same_marks l l.
Proof. induction l; constructor; auto using same_marks_refl. Qed.

Lemma Forall2_same_marks_trans l1 l2 l3 :
  Forall2 same_marks l1 l2 -> Forall2 same_marks l2 l3 -> Forall2 same_marks l1 l3.
Proof.
  intros H. revert l3. induction H; intros l3 H3; inversion H3; subst; constructor.
  - eapply same_marks_trans; eauto.
  - auto.
Qed.

Lemma page_step_refl w : page_step w w.
Proof.
  repeat split.
  - exists []. now rewrite app_nil_r.
  - apply Forall2_same_marks_refl.
Qed.

Lemma page_step_trans w1 w2 w3 : page_step w1 w2 -> page_step w2 w3 -> page_step w1 w3.
Proof.
  intros (E12 & [m12 C12] & F12) (E23 & [m23 C23] & F23). split; [|split].
  - unfold same_outside_page in *. intuition congruence.
  - exists (m12 ++ m23). rewrite C23, C12. now rewrite app_assoc.
  - eapply Forall2_same_marks_trans; eauto.
Qed.

(** A step that only logs. *)
Lemma log_step msgs w : page_step w (set_console (fun log => log ++ msgs) w).
Proof.
  repeat split; simpl; eauto using Forall2_same_marks_refl.
Qed.

Lemma getTranslation_run key w :
  exists v w', getTranslation key w = (Return v, w')
               /\ page_step w w' /\ elements w' = elements w.
Proof.
  run. destruct (walk _ _ _) as [v|].
  - exists v, w. auto using page_step_refl.
  - eexists _, _. split; [reflexivity|]. split; [apply log_step|reflexivity].
Qed.

Lemma getTranslation_agree key w1 w2 :
  this w1 = this w2 -> env w1 = env w2 ->
  fst (getTranslation key w1) = fst (getTranslation key w2).
Proof.
  intros Ht Ee. run. rewrite Ht, Ee. now destruct (walk _ _ _).
Qed.

(** An update of the element at a node that keeps its marks. *)
Lemma alter_marks (f : element -> element) node (l : list element) :
  (forall e, same_marks e (f e)) -> Forall2 same_marks l (alter f node l).
Proof.
  intros Hf. revert node. induction l as [|e l IH]; intros [|n]; cbn;
    constructor; auto using Forall2_same_marks_refl, same_marks_refl.
Qed.

Lemma set_children_marks c e : same_marks e (set_children c e).
Proof. repeat split. Qed.
Lemma set_placeholder_marks v e : same_marks e (set_placeholder v e).
Proof. repeat split. Qed.
Lemma set_alt_marks v e : same_marks e (set_alt v e).
Proof. repeat split. Qed.
Lemma set_title_marks v e : same_marks e (set_title v e).
Proof. repeat split. Qed.

Ltac page_step_tac :=
  split; [repeat split
         | split; [first [eexists; reflexivity
                         | exists []; rewrite app_nil_r; reflexivity]
                  | simpl; auto using alter_marks, Forall2_same_marks_refl,
                      set_children_marks, set_placeholder_marks,
                      set_alt_marks, set_title_marks]].

(** The callback on a text node returns, and touches no other node. *)
Lemma translate_text_run node w e key :
  elements w !! node = Some e -> data_i18n e = Some key ->
  exists w', translate_text node w = (Return tt, w')
             /\ page_step w w'
             /\ (forall j, j <> node -> elements w' !! j = elements w !! j).
Proof.
  intros He Hk.
  destruct (getTranslation_run key w) as (v & w1 & Hrun & Hstep & Hels).
  unfold translate_text, bind at 1, getAttribute, gets. rewrite He. simpl. rewrite Hk.
  unfold bind at 1. rewrite Hrun.
  assert (Hfin : forall w2, page_step w1 w2 ->
            (forall j, j <> node -> elements w2 !! j = elements w1 !! j) ->
            page_step w w2 /\ (forall j, j <> node -> elements w2 !! j = elements w !! j)).
  { intros w2 H1 H2. split; [eapply page_step_trans; eauto|].
    intros j Hj. rewrite H2, Hels; auto. }
  destruct (JS.truthy v && String.eqb (JS.typeof v) "string").
  - run. rewrite Hels, He. simpl.
    destruct (attribute_truthy (data_i18n_vars e)).
    + destruct (JSON_parse (env w1) _) as [parsed|];
        [destruct (interpolate _ _ parsed) as [text|]|];
        (eexists; split; [reflexivity|]; apply Hfin;
         [page_step_tac | intros j Hj; simpl; now apply list_lookup_alter_ne]).
    + destruct (Str.includes _ _);
        (eexists; split; [reflexivity|]; apply Hfin;
         [page_step_tac | intros j Hj; simpl; now apply list_lookup_alter_ne]).
  - destruct (JS.truthy v); run;
      (eexists; split; [reflexivity|]; apply Hfin; [page_step_tac | reflexivity]).
Qed.

(** The same for the callback of an attribute pass, which also keeps what
    every element shows. *)
Lemma translate_attribute_run attr setAttribute node w e key :
  (forall v e, same_marks e (setAttribute v e)) ->
  (forall v e, children (setAttribute v e) = children e) ->
  elements w !! node = Some e -> attr e = Some key ->
  exists w', translate_attribute attr setAttribute node w = (Return tt, w')
             /\ page_step w w'
             /\ (forall j e0, elements w !! j = Some e0 ->
                   exists e1, elements w' !! j = Some e1 /\ children e1 = children e0).
Proof.
  intros Hset Hch He Hk.
  destruct (getTranslation_run key w) as (v & w1 & Hrun & Hstep & Hels).
  unfold translate_attribute, bind at 1, getAttribute, gets. rewrite He. simpl. rewrite Hk.
  unfold bind at 1. rewrite Hrun.
  destruct (JS.truthy v); run; (eexists; split; [reflexivity|]); split.
  - eapply page_step_trans; [exact Hstep|]. page_step_tac.
  - intros j e0 Hj. simpl. rewrite Hels.
    destruct (decide (j = node)) as [->|Hne].
    + rewrite list_lookup_alter_eq, Hj. simpl. eauto.
    + rewrite list_lookup_alter_ne by auto. eauto.
  - exact Hstep.
  - intros j e0 Hj. rewrite Hels. eauto.
Qed.

(** ** Passes *)

Lemma positions_lookup sel from page n :
  n ∈ positions sel from page ->
  from <= n /\ exists e, page !! (n - from) = Some e /\ sel e = true.
Proof.
  revert from. induction page as [|e page IH]; intros from H; simpl in H.
  - inversion H.
  - assert (Hrest : n ∈ positions sel (S from) page ->
              from <= n /\ exists e0, (e :: page) !! (n - from) = Some e0 /\ sel e0 = true).
    { intros H'. destruct (IH _ H') as (Hle & e0 & Hl & Hs). split; [lia|].
      exists e0. split; [|exact Hs].
      replace (n - from) with (S (n - S from)) by lia. exact Hl. }
    destruct (sel e) eqn:Hsel; [|auto].
    apply elem_of_cons in H as [->|H]; [|auto].
    split; [lia|]. exists e. rewrite Nat.sub_diag. auto.
Qed.

(** A loop whose callback returns and keeps an invariant returns and keeps
    it. *)
Lemma forEach_invariant (I : World -> Prop) callback nodes w :
  I w ->
  (forall n w0, n ∈ nodes -> I w0 ->
     exists w1, callback n w0 = (Return tt, w1) /\ I w1) ->
  exists w', forEach nodes callback w = (Return tt, w') /\ I w'.
Proof.
  revert w. induction nodes as [|n nodes IH]; intros w Hw Hcb; simpl.
  - exists w. auto.
  - destruct (Hcb n w) as (w1 & Hrun & Hw1); [left|exact Hw|].
    unfold bind. rewrite Hrun.
    apply IH; [exact Hw1|]. intros m w0 Hm. apply Hcb. now right.
Qed.

Lemma Forall2_marks_lookup (attr : element -> option string) l l' n e :
  (forall e e', same_marks e e' -> attr e' = attr e) ->
  Forall2 same_marks l l' -> l !! n = Some e ->
  exists e', l' !! n = Some e' /\ attr e' = attr e.
Proof.
  intros Hattr H. revert n. induction H as [|x y l l' Hxy H IH]; intros [|n] Hn;
    simpl in *; try discriminate.
  - injection Hn as ->. eauto.
  - eauto.
Qed.

Lemma positions_member sel from page i e :
  page !! i = Some e -> sel e = true -> (from + i) ∈ positions sel from page.
Proof.
  revert from i. induction page as [|x page IH]; intros from [|i] Hi Hs; simpl in *;
    try discriminate.
  - injection Hi as ->. rewrite Hs, Nat.add_0_r. left.
  - replace (from + S i) with (S from + i) by lia.
    destruct (sel x); [right|]; now apply IH.
Qed.

(** A node of a pass still carries its attribute when its callback runs. *)
Lemma node_marked (attr : element -> option string) w w0 n :
  (forall e e', same_marks e e' -> attr e' = attr e) ->
  n ∈ positions (has_attribute attr) 0 (elements w) -> page_step w w0 ->
  exists e key, elements w0 !! n = Some e /\ attr e = Some key.
Proof.
  intros Hattr Hn (_ & _ & Hmarks).
  apply positions_lookup in Hn as (_ & e & He & Hsel).
  rewrite Nat.sub_0_r in He.
  destruct (Forall2_marks_lookup attr _ _ _ _ Hattr Hmarks He) as (e' & He' & Ha).
  unfold has_attribute in Hsel. destruct (attr e) as [key|] eqn:Hk; [|discriminate].
  eauto.
Qed.

Lemma text_pass_run w :
  exists w', text_pass w = (Return tt, w') /\ page_step w w'.
Proof.
  unfold text_pass, bind at 1, querySelectorAll, gets.
  apply (forEach_invariant (page_step w)); [apply page_step_refl|].
  intros n w0 Hn Hw0.
  destruct (node_marked data_i18n w w0 n) as (e & key & He & Hk); auto.
  { intros ? ? H. apply H. }
  destruct (translate_text_run n w0 e key He Hk) as (w1 & Hrun & Hstep & _).
  eauto using page_step_trans.
Qed.

Lemma shows_same_refl w : shows_same w w.
Proof. intros j e0 H. eauto. Qed.

Lemma shows_same_trans w1 w2 w3 : shows_same w1 w2 -> shows_same w2 w3 -> shows_same w1 w3.
Proof.
  intros H12 H23 j e0 H. destruct (H12 _ _ H) as (e1 & H1 & E1).
  destruct (H23 _ _ H1) as (e2 & H2 & E2). exists e2. split; congruence.
Qed.

Lemma attribute_pass_run attr setAttribute w :
  (forall e e', same_marks e e' -> attr e' = attr e) ->
  (forall v e, same_marks e (setAttribute v e)) ->
  (forall v e, children (setAttribute v e) = children e) ->
  exists w', attribute_pass attr setAttribute w = (Return tt, w')
             /\ page_step w w' /\ shows_same w w'.
Proof.
  intros Hattr Hset Hch. unfold attribute_pass, bind at 1, querySelectorAll, gets.
  apply (forEach_invariant (fun w0 => page_step w w0 /\ shows_same w w0));
    [split; [apply page_step_refl|apply shows_same_refl]|].
  intros n w0 Hn [Hw0 Hs0].
  destruct (node_marked attr w w0 n) as (e & key & He & Hk); auto.
  destruct (translate_attribute_run attr setAttribute n w0 e key Hset Hch He Hk)
    as (w1 & Hrun & Hstep & Hshow).
  exists w1. split; [exact Hrun|].
  split; [eauto using page_step_trans|]. eapply shows_same_trans; eauto.
Qed.

Lemma attribute_passes_run w :
  exists w', attribute_passes w = (Return tt, w') /\ page_step w w' /\ shows_same w w'.
Proof.
  unfold attribute_passes.
  destruct (attribute_pass_run data_i18n_placeholder set_placeholder w)
    as (w1 & R1 & S1 & H1); [intros ? ? H; apply H|apply set_placeholder_marks|reflexivity|].
  destruct (attribute_pass_run data_i18n_alt set_alt w1)
    as (w2 & R2 & S2 & H2); [intros ? ? H; apply H|apply set_alt_marks|reflexivity|].
  destruct (attribute_pass_run data_i18n_title set_title w2)
    as (w3 & R3 & S3 & H3); [intros ? ? H; apply H|apply set_title_marks|reflexivity|].
  exists w3. unfold bind. rewrite R1, R2, R3.
  split; [reflexivity|]. split.
  - eapply page_step_trans; [|exact S3]. eapply page_step_trans; eauto.
  - eapply shows_same_trans; [|exact H3]. eapply shows_same_trans; eauto.
Qed.

Lemma applyTranslations_passes w :
  applyTranslations w = (text_pass;; attribute_passes) w.
Proof. reflexivity. Qed.

Lemma applyTranslations_run w :
  exists w', applyTranslations w = (Return tt, w') /\ page_step w w'.
Proof.
  rewrite applyTranslations_passes.
  destruct (text_pass_run w) as (w1 & R1 & S1).
  destruct (attribute_passes_run w1) as (w2 & R2 & S2 & _).
  exists w2. unfold bind. rewrite R1, R2. eauto using page_step_trans.
Qed.

(** ** Loading *)

Ltac frame_tac :=
  repeat split; simpl;
  try reflexivity;
  try (rewrite <- ?app_assoc; simpl; eexists; reflexivity).

Lemma loadTranslations_run fuel lang w :
  2 <= fuel ->
  exists ok w', loadTranslations fuel lang w = (Return ok, w')
    /\ load_frame w w' /\ load_result w lang ok w'
    /\ exists seen, observed w' = observed w ++ seen
                    /\ Forall (eq (translations (this w))) seen.
Proof.
  intros Hfuel. destruct fuel as [|[|fuel]]; [lia|lia|clear Hfuel].
  unfold load_result, resource.
  cbn [loadTranslations]. run.
  destruct (network (env w) (resource_url lang)) as [|[] [data|]] eqn:Hnet; simpl.
  2: { eexists _, _. split; [reflexivity|]. frame_tac.
       - exists []. now rewrite app_nil_r.
       - eexists. split; [rewrite <- app_assoc; reflexivity|]. repeat constructor. }
  all: destruct (String.eqb lang (defaultLang (this w))) eqn:Hdef; simpl.
  all: try (eexists _, _; split; [reflexivity|]; frame_tac;
            eexists; split; [rewrite <- ?app_assoc; reflexivity|]; repeat constructor).
  all: destruct (network (env w) (resource_url (defaultLang (this w)))) as [|[] [data'|]];
       simpl; rewrite ?String.eqb_refl; simpl.
  all: eexists _, _; (split; [reflexivity|]); frame_tac.
  all: try (eexists; split; [rewrite <- ?app_assoc; simpl; reflexivity|]; repeat constructor).
Qed.

(** The counter of the model does not show: from 2 on, every value
    gives the same run. *)
Lemma loadTranslations_fuel fuel lang w :
  2 <= fuel -> loadTranslations fuel lang w = loadTranslations 2 lang w.
Proof.
  intros Hfuel. destruct fuel as [|[|fuel]]; [lia|lia|clear Hfuel].
  cbn [loadTranslations]. run.
  destruct (network (env w) (resource_url lang)) as [|[] [data|]]; simpl;
    try reflexivity.
  all: destruct (String.eqb lang (defaultLang (this w))); simpl; try reflexivity.
  all: destruct (network (env w) (resource_url (defaultLang (this w)))) as [|[] [data'|]];
       simpl; rewrite ?String.eqb_refl; reflexivity.
Qed.

(** ** Switching *)

Lemma includes_In l x : includes l x = true <-> In x l.
Proof.
  unfold includes. rewrite existsb_exists. split.
  - intros (y & Hy & E). apply String.eqb_eq in E. now subst.
  - intros H. exists x. split; [exact H|apply String.eqb_refl].
Qed.

Lemma includes_not_In l x : includes l x = false <-> ~ In x l.
Proof.
  rewrite <- includes_In. destruct (includes l x); split; intros; congruence.
Qed.

Lemma searchParams_get_delete name params :
  searchParams_get name (searchParams_delete name params) = None.
Proof.
  unfold searchParams_get, searchParams_delete.
  induction params as [|[n v] params IH]; simpl; [reflexivity|].
  destruct (String.eqb name n) eqn:E; simpl; [exact IH|]. now rewrite E.
Qed.

Lemma searchParams_get_set name value params :
  searchParams_get name (searchParams_set name value params) = Some value.
Proof.
  unfold searchParams_get.
  induction params as [|[n v] params IH]; simpl.
  - now rewrite String.eqb_refl.
  - destruct (String.eqb name n) eqn:E; simpl.
    + now rewrite String.eqb_refl.
    + now rewrite E.
Qed.

Lemma switchLanguage_run fuel lang w :
  2 <= fuel -> In lang (supportedLanguages (this w)) ->
  exists ok w1,
    loadTranslations fuel lang (loading w) = (Return ok, w1)
    /\ exists w', switchLanguage fuel lang w = (Return true, w')
    /\ translations (this w') = translations (this w1)
    /\ currentLang (this w') = lang
    /\ defaultLang (this w') = defaultLang (this w)
    /\ supportedLanguages (this w') = supportedLanguages (this w)
    /\ localStorage w' =
         match storage (env w) with
         | StorageOk => <[storageKey (this w) := lang]> (localStorage w)
         | _ => localStorage w
         end
    /\ (storage (env w) <> StorageOk ->
          In (console_warn_call "Unable to save language preference:") (console w'))
    /\ location_search w' =
         (if history_accepts (env w)
          then url_for lang (defaultLang (this w)) (location_search w)
          else location_search w)
    /\ (history_accepts (env w) = false ->
          In (console_warn_call "Error updating URL language parameter:") (console w'))
    /\ html_lang w' = Some lang
    /\ events w' = events w ++ [("languageChanged", lang)].
Proof.
  intros Hfuel Hin. apply includes_In in Hin.
  destruct (loadTranslations_run fuel lang (loading w) Hfuel)
    as (ok & w1 & Hload & Hframe & _ & _).
  exists ok, w1.
  split; [exact Hload|].
  unfold switchLanguage, bind at 1, gets. rewrite Hin. simpl.
  unfold bind at 1, modify at 1. unfold bind at 1, await.
  match goal with
  | |- context [loadTranslations fuel lang ?W] => change W with (loading w)
  end.
  rewrite Hload.
  destruct Hframe as (Eenv & Els & Eloc & Eel & Ehl & Ebo & Ebc & Eev & Ecl & Edl & Esl & Esk & _).
  unfold bind at 1, modify at 1. unfold bind at 1.
  assert (Hsave : exists w3, saveLanguage lang (set_this (set_currentLang lang) w1)
            = (Return tt, w3)
            /\ this w3 = set_currentLang lang (this w1) /\ env w3 = env w1
            /\ location_search w3 = location_search w1 /\ events w3 = events w1
            /\ localStorage w3 = match storage (env w) with
                                 | StorageOk => <[storageKey (this w) := lang]> (localStorage w)
                                 | _ => localStorage w
                                 end
            /\ (storage (env w) <> StorageOk ->
                  In (console_warn_call "Unable to save language preference:") (console w3))).
  { run. rewrite Eenv, Esk.
    destruct (storage (env w)); simpl; eexists; (split; [reflexivity|]);
      simpl; rewrite ?Els; repeat split; try congruence;
      intros _; apply in_or_app; right; now left. }
  destruct Hsave as (w3 & Rsave & Ethis3 & Eenv3 & Eloc3 & Eev3 & Els3 & Hwarn3).
  rewrite Rsave.
  destruct (applyTranslations_run w3) as (w4 & Rapply & Sapply).
  unfold bind at 1. rewrite Rapply.
  destruct Sapply as ((Ethis4 & Eenv4 & Els4 & Eloc4 & _ & _ & _ & _ & Eev4 & _) & [msgs Econ4] & _).
  run. rewrite Ethis4, Ethis3, Eenv4, Eenv3, Eenv, Eloc4, Eloc3, Eloc. simpl.
  rewrite Edl. unfold loading; simpl. fold (url_for lang (defaultLang (this w)) (location_search w)).
  destruct (history_accepts (env w)); simpl; eexists; (split; [reflexivity|]); simpl;
    rewrite ?Ethis4, ?Ethis3, ?Els4, ?Els3, ?Eev4, ?Eev3, ?Eev; simpl;
    repeat split; try congruence.
  all: intros Hs; try discriminate; rewrite ?Econ4, ?in_app_iff; simpl; auto 6.
Qed.

(** ** Properties of [switchLanguage] and [loadTranslations] *)

(** C2: for a language outside the supported set, [switchLanguage] returns
    [false] and only logs a warning: the instance (current language and
    tree), the stored preference, the URL parameters, the page and the
    requests are as before the call. *)
Theorem switchLanguage_rejects_unsupported fuel lang w :
  ~ In lang (supportedLanguages (this w)) ->
  exists w', switchLanguage fuel lang w = (Return false, w')
    /\ currentLang (this w') = currentLang (this w)
    /\ translations (this w') = translations (this w)
    /\ this w' = this w
    /\ localStorage w' = localStorage w
    /\ location_search w' = location_search w
    /\ elements w' = elements w /\ html_lang w' = html_lang w
    /\ requests w' = requests w /\ events w' = events w
    /\ console w' = console w
         ++ [console_warn_call ("Language " +:+ lang +:+ " not supported")].
Proof.
  intros Hin. apply includes_not_In in Hin.
  unfold switchLanguage, bind at 1, gets. rewrite Hin. simpl.
  eexists. split; [reflexivity|]. repeat split.
Qed.

(** On the example page, German is refused. *)
Lemma switchLanguage_rejects_unsupported_witness :
  ~ In "de" (supportedLanguages (this Example.home))
  /\ fst (switchLanguage 2 "de" Example.home) = Return false.
Proof.
  assert (H : ~ In "de" (supportedLanguages (this Example.home))).
  { simpl. intros [H|[H|[H|[]]]]; discriminate. }
  split; [exact H|].
  destruct (switchLanguage_rejects_unsupported 2 "de" Example.home H) as (w' & E & _).
  now rewrite E.
Defined.

(** C3: a load returns.  When the resource of [lang] loads, the tree is
    replaced by it in one step; when it does not and [lang] is not the
    default language, exactly one more request is made, for the default
    language; when the default language does not load either, the tree is
    the one held before and the result is [false].  Whenever the load is
    suspended, the tree that the instance holds is the one held before. *)
Theorem loadTranslations_fallback fuel lang w :
  2 <= fuel ->
  exists ok w', loadTranslations fuel lang w = (Return ok, w')
    /\ (exists seen, observed w' = observed w ++ seen
                     /\ Forall (eq (translations (this w))) seen)
    /\ match resource (env w) lang with
       | Some data =>
           ok = true /\ translations (this w') = data
           /\ requests w' = requests w ++ [resource_url lang]
       | None =>
           if String.eqb lang (defaultLang (this w)) then
             ok = false /\ translations (this w') = translations (this w)
             /\ requests w' = requests w ++ [resource_url lang]
           else
             requests w' = requests w
               ++ [resource_url lang; resource_url (defaultLang (this w))]
             /\ match resource (env w) (defaultLang (this w)) with
                | Some data => ok = true /\ translations (this w') = data
                | None => ok = false /\ translations (this w') = translations (this w)
                end
       end.
Proof.
  intros Hfuel.
  destruct (loadTranslations_run fuel lang w Hfuel) as (ok & w' & Hrun & _ & Hres & Hseen).
  exists ok, w'. auto.
Qed.

(** On the example site, which has no zh-CN file, the load of zh-CN ends
    with the English tree. *)
Lemma loadTranslations_fallback_witness :
  2 <= 2
  /\ exists w', loadTranslations 2 "zh-CN" Example.home = (Return true, w')
                /\ translations (this w') = Example.en_json.
Proof.
  split; [lia|].
  destruct (loadTranslations_fallback 2 "zh-CN" Example.home ltac:(lia))
    as (ok & w' & Hrun & _ & Hres).
  vm_compute in Hres. destruct Hres as (_ & -> & Htree).
  exists w'. split; [exact Hrun|exact Htree].
Defined.

(** C4: when a supported language other than the default fails to load and
    the default language loads, [switchLanguage] leaves the tree of the
    default language in place while [getCurrentLanguage] gives the
    requested language. *)
Theorem switchLanguage_fallback_mismatch fuel lang w data :
  2 <= fuel ->
  In lang (supportedLanguages (this w)) ->
  lang <> defaultLang (this w) ->
  resource (env w) lang = None ->
  resource (env w) (defaultLang (this w)) = Some data ->
  exists w', switchLanguage fuel lang w = (Return true, w')
    /\ translations (this w') = data
    /\ getCurrentLanguage w' = (Return lang, w').
Proof.
  intros Hfuel Hin Hne Hlang Hdef.
  destruct (loadTranslations_run fuel lang (loading w) Hfuel)
    as (ok & w1 & Hload & _ & Hres & _).
  destruct (switchLanguage_run fuel lang w Hfuel Hin)
    as (ok' & w1' & Hload' & w' & Hrun & Htree & Hcur & _).
  rewrite Hload in Hload'. injection Hload' as <- <-.
  exists w'. split; [exact Hrun|].
  unfold load_result in Hres. simpl in Hres. rewrite Hlang, Hdef in Hres.
  apply String.eqb_neq in Hne. rewrite Hne in Hres.
  destruct Hres as (_ & _ & Hdata).
  split; [congruence|]. unfold getCurrentLanguage, gets. now rewrite Hcur.
Qed.

(** On the example site, after the switch to zh-CN the tree is the English
    one and the current language is zh-CN. *)
Lemma switchLanguage_fallback_mismatch_witness :
  exists w', switchLanguage 2 "zh-CN" Example.home = (Return true, w')
    /\ translations (this w') = Example.en_json
    /\ getCurrentLanguage w' = (Return "zh-CN", w').
Proof.
  apply (switchLanguage_fallback_mismatch 2 "zh-CN" Example.home Example.en_json).
  - lia.
  - simpl. auto.
  - discriminate.
  - reflexivity.
  - reflexivity.
Defined.



(** ** Properties of the DOM pass *)

(** A loop establishes what the callback at node [i] establishes and the
    other callbacks keep. *)
Lemma forEach_establish (I Q : World -> Prop) callback nodes i w :
  I w -> i ∈ nodes \/ Q w ->
  (forall n w0, n ∈ nodes -> I w0 ->
     exists w1, callback n w0 = (Return tt, w1) /\ I w1
                /\ (n = i \/ Q w0 -> Q w1)) ->
  exists w', forEach nodes callback w = (Return tt, w') /\ I w' /\ Q w'.
Proof.
  revert w. induction nodes as [|n nodes IH]; intros w Hw Hi Hcb; simpl.
  - exists w. repeat split; auto. destruct Hi as [Hi|]; [inversion Hi|assumption].
  - destruct (Hcb n w) as (w1 & Hrun & Hw1 & HQ); [left|exact Hw|].
    unfold bind. rewrite Hrun.
    apply IH; [exact Hw1| |intros m w0 Hm; apply Hcb; now right].
    destruct Hi as [Hi|Hq]; [|auto].
    apply elem_of_cons in Hi as [->|Hi]; auto.
Qed.

Lemma Forall2_marks_at l l' n e :
  Forall2 same_marks l l' -> l !! n = Some e ->
  exists e', l' !! n = Some e' /\ same_marks e e'.
Proof.
  intros H. revert n. induction H as [|x y l l' Hxy H IH]; intros [|n] Hn;
    simpl in *; try discriminate.
  - injection Hn as ->. eauto.
  - eauto.
Qed.

(** The callback on a text node without payload whose key resolves to a
    string that is not empty. *)
Lemma translate_text_string node w e key s :
  elements w !! node = Some e -> data_i18n e = Some key ->
  attribute_truthy (data_i18n_vars e) = false ->
  fst (getTranslation key w) = Return (JS.Data (JS.JStr s)) ->
  s <> EmptyString ->
  exists w' e', translate_text node w = (Return tt, w')
    /\ elements w' !! node = Some e'
    /\ children e' = if Str.includes "<" s then Markup s else Text s.
Proof.
  intros He Hk Hvars Hval Hs.
  destruct (getTranslation_run key w) as (v & w1 & Hrun & Hstep & Hels).
  rewrite Hrun in Hval. simpl in Hval. injection Hval as ->.
  unfold translate_text, bind at 1, getAttribute, gets. rewrite He. simpl. rewrite Hk.
  unfold bind at 1. rewrite Hrun. simpl.
  destruct s as [|c s]; [congruence|]. simpl.
  run. rewrite Hels, He. simpl. rewrite Hvars.
  destruct (Ascii.eqb c "<" || Str.includes "<" s);
    eexists _, _; (split; [reflexivity|]); simpl;
    rewrite list_lookup_alter_eq, Hels, He; simpl; split; reflexivity.
Qed.

(** The callback on a text node whose key resolves to a value that fails
    the test [translation && typeof translation === 'string']: a value that
    is not a string, or the empty string. *)
Lemma translate_text_skipped node w e key v :
  elements w !! node = Some e -> data_i18n e = Some key ->
  fst (getTranslation key w) = Return v ->
  JS.truthy v && String.eqb (JS.typeof v) "string" = false ->
  exists w', translate_text node w = (Return tt, w')
    /\ elements w' = elements w
    /\ (JS.truthy v = true ->
          In (console_warn_call ("Translation for " +:+ Str.dquote +:+ key
                                  +:+ Str.dquote +:+ " is not a string:"))
             (console w')).
Proof.
  intros He Hk Hval Htest.
  destruct (getTranslation_run key w) as (v' & w1 & Hrun & Hstep & Hels).
  rewrite Hrun in Hval. simpl in Hval. injection Hval as ->.
  unfold translate_text, bind at 1, getAttribute, gets. rewrite He. simpl. rewrite Hk.
  unfold bind at 1. rewrite Hrun, Htest.
  destruct (JS.truthy v); run; eexists; (split; [reflexivity|]); simpl;
    (split; [exact Hels|]); intros H; [|discriminate].
  apply in_or_app. right. now left.
Qed.

Lemma page_step_console w w' m : page_step w w' -> In m (console w) -> In m (console w').
Proof. intros (_ & [msgs ->] & _) H. apply in_or_app. now left. Qed.

(** What the text pass needs to know of the element at [i] when its
    callback runs: it is the element of the start but for what it shows,
    and the lookup gives what it gave at the start. *)
Lemma text_node_at w w0 i e key :
  page_step w w0 -> elements w !! i = Some e -> data_i18n e = Some key ->
  i ∈ positions (has_attribute data_i18n) 0 (elements w)
  /\ fst (getTranslation key w0) = fst (getTranslation key w)
  /\ exists e0, elements w0 !! i = Some e0 /\ same_marks e e0.
Proof.
  intros Hstep He Hk. split; [|split].
  - apply (positions_member _ 0 _ i e He). unfold has_attribute. now rewrite Hk.
  - destruct Hstep as ((Ht & Ee & _) & _). now apply getTranslation_agree.
  - destruct Hstep as (_ & _ & Hmarks). eapply Forall2_marks_at; eauto.
Qed.

Lemma text_pass_string w i e key s :
  elements w !! i = Some e -> data_i18n e = Some key ->
  attribute_truthy (data_i18n_vars e) = false ->
  fst (getTranslation key w) = Return (JS.Data (JS.JStr s)) ->
  s <> EmptyString ->
  exists w' e', text_pass w = (Return tt, w') /\ page_step w w'
    /\ elements w' !! i = Some e'
    /\ children e' = if Str.includes "<" s then Markup s else Text s.
Proof.
  intros He Hk Hvars Hval Hs.
  set (Q := fun w0 : World => exists e', elements w0 !! i = Some e'
              /\ children e' = if Str.includes "<" s then Markup s else Text s).
  destruct (forEach_establish (page_step w) Q translate_text
              (positions (has_attribute data_i18n) 0 (elements w)) i w)
    as (w' & Hrun & Hstep & e' & He' & Hc).
  - apply page_step_refl.
  - left. now apply (text_node_at w w i e key (page_step_refl w)).
  - intros n w0 Hn Hw0.
    destruct (node_marked data_i18n w w0 n) as (en & kn & Hen & Hkn); auto.
    { intros ? ? H. apply H. }
    destruct (translate_text_run n w0 en kn Hen Hkn) as (w1 & Hrun & Hstep & Hother).
    exists w1. split; [exact Hrun|]. split; [eauto using page_step_trans|].
    destruct (decide (n = i)) as [->|Hne].
    + intros _.
      destruct (text_node_at w w0 i e key Hw0 He Hk) as (_ & Hagree & e0 & He0 & Hm0).
      destruct Hm0 as (Hm1 & Hm2 & _).
      destruct (translate_text_string i w0 e0 key s) as (w1' & e1 & Hrun' & He1 & Hc1);
        try congruence.
      rewrite Hrun in Hrun'. injection Hrun' as <-. exists e1. auto.
    + intros [Heq|(e' & He' & Hc)]; [congruence|].
      exists e'. rewrite Hother by auto. auto.
  - exists w', e'. unfold text_pass, bind, querySelectorAll, gets. auto.
Qed.

Lemma text_pass_skipped w i e key v :
  elements w !! i = Some e -> data_i18n e = Some key ->
  fst (getTranslation key w) = Return v ->
  JS.truthy v && String.eqb (JS.typeof v) "string" = false ->
  exists w', text_pass w = (Return tt, w') /\ page_step w w'
    /\ elements w' !! i = Some e
    /\ (JS.truthy v = true ->
          In (console_warn_call ("Translation for " +:+ Str.dquote +:+ key
                                  +:+ Str.dquote +:+ " is not a string:"))
             (console w')).
Proof.
  intros He Hk Hval Htest.
  set (warning := console_warn_call ("Translation for " +:+ Str.dquote +:+ key
                                      +:+ Str.dquote +:+ " is not a string:")).
  destruct (forEach_establish
              (fun w0 => page_step w w0 /\ elements w0 !! i = Some e)
              (fun w0 => JS.truthy v = true -> In warning (console w0))
              translate_text
              (positions (has_attribute data_i18n) 0 (elements w)) i w)
    as (w' & Hrun & (Hstep & He') & Hw).
  - split; [apply page_step_refl|exact He].
  - left. now apply (text_node_at w w i e key (page_step_refl w)).
  - intros n w0 Hn (Hw0 & Hi0).
    destruct (node_marked data_i18n w w0 n) as (en & kn & Hen & Hkn); auto.
    { intros ? ? H. apply H. }
    destruct (translate_text_run n w0 en kn Hen Hkn) as (w1 & Hrun & Hstep & Hother).
    exists w1. split; [exact Hrun|].
    destruct (decide (n = i)) as [->|Hne].
    + destruct (text_node_at w w0 i e key Hw0 He Hk) as (_ & Hagree & _).
      destruct (translate_text_skipped i w0 e key v) as (w1' & Hrun' & Hels & Hwarn);
        try congruence.
      rewrite Hrun in Hrun'. injection Hrun' as <-.
      split; [split; [eauto using page_step_trans|congruence]|auto].
    + split; [split; [eauto using page_step_trans|rewrite Hother; auto]|].
      intros [Heq|HQ] Ht; [congruence|]. eapply page_step_console; eauto.
  - exists w'. unfold text_pass, bind, querySelectorAll, gets. auto.
Qed.

Lemma applyTranslations_after_text w w1 :
  text_pass w = (Return tt, w1) ->
  exists w', applyTranslations w = (Return tt, w')
             /\ page_step w1 w' /\ shows_same w1 w'.
Proof.
  intros Htext. destruct (attribute_passes_run w1) as (w' & Hrun & Hstep & Hshow).
  exists w'. rewrite applyTranslations_passes. unfold bind. rewrite Htext. auto.
Qed.

(** C7, as the code has it: a text-translation element whose key resolves
    to a value that is not a string keeps what it shows, nothing being
    converted to a string, and a warning is logged when the value is truthy
    (an object, an array, a function, [true], a number other than zero). *)
Theorem applyTranslations_non_string_text w i e key v :
  elements w !! i = Some e -> data_i18n e = Some key ->
  fst (getTranslation key w) = Return v ->
  JS.typeof v <> "string" ->
  exists w' e', applyTranslations w = (Return tt, w')
    /\ elements w' !! i = Some e'
    /\ children e' = children e
    /\ (JS.truthy v = true ->
          In (console_warn_call ("Translation for " +:+ Str.dquote +:+ key
                                  +:+ Str.dquote +:+ " is not a string:"))
             (console w')).
Proof.
  intros He Hk Hval Htype.
  assert (Htest : JS.truthy v && String.eqb (JS.typeof v) "string" = false).
  { apply String.eqb_neq in Htype. rewrite Htype. apply andb_false_r. }
  destruct (text_pass_skipped w i e key v He Hk Hval Htest)
    as (w1 & Htext & Hstep1 & He1 & Hwarn).
  destruct (applyTranslations_after_text w w1 Htext) as (w' & Hrun & Hstep & Hshow).
  destruct (Hshow i e He1) as (e' & He' & Hc).
  exists w', e'. repeat split; auto.
  intros Ht. eapply page_step_console; eauto.
Qed.

(** A text element whose key names the subtree [nav] keeps its text, and
    the warning is logged. *)
Lemma applyTranslations_non_string_text_witness :
  exists w' e',
    applyTranslations (Example.page (Example.browser Example.site true)
                         Example.en_json ∅ [Example.text_element "nav"])
      = (Return tt, w')
    /\ elements w' !! 0 = Some e'
    /\ children e' = Text "Welcome"
    /\ In (console_warn_call ("Translation for " +:+ Str.dquote +:+ "nav"
                               +:+ Str.dquote +:+ " is not a string:"))
          (console w').
Proof.
  destruct (applyTranslations_non_string_text
              (Example.page (Example.browser Example.site true)
                 Example.en_json ∅ [Example.text_element "nav"])
              0 (Example.text_element "nav") "nav"
              (JS.Data (JS.JObj [("home", JS.JStr "Home")])))
    as (w' & e' & Hrun & He' & Hc & Hwarn).
  - reflexivity.
  - reflexivity.
  - reflexivity.
  - discriminate.
  - exists w', e'. repeat split; auto.
Defined.

(** C7 fails as stated, twice.  A text element whose key resolves to
    [null] is left as it was without any diagnostic; and an element marked
    for a placeholder whose key resolves to a subtree has the subtree
    passed to [setAttribute], which shows it as "[object Object]", again
    without any diagnostic. *)
Lemma applyTranslations_non_string_counterexample :
  let text := Example.page (Example.browser Example.site true)
                Example.en_json ∅ [Example.text_element "none"] in
  let input := Example.page (Example.browser Example.site true)
                 Example.en_json ∅ [Example.input_element "nav"] in
  let subtree := JS.Data (JS.JObj [("home", JS.JStr "Home")]) in
  (fst (getTranslation "none" text) = Return (JS.Data JS.JNull)
   /\ fst (applyTranslations text) = Return tt
   /\ elements (snd (applyTranslations text)) = elements text
   /\ console (snd (applyTranslations text)) = [])
  /\ (fst (getTranslation "nav" input) = Return subtree
      /\ fst (applyTranslations input) = Return tt
      /\ placeholder <$> elements (snd (applyTranslations input)) = [Some subtree]
      /\ JS.ToString subtree = Some "[object Object]"
      /\ console (snd (applyTranslations input)) = []).
Proof. vm_compute. repeat split. Qed.

(** C9, as the code has it: a text-translation element without variables
    payload whose key resolves to a string is assigned the string, as
    markup when it contains '<' and as text otherwise, unless the string is
    empty: then the element is assigned nothing and keeps what it shows. *)
Theorem applyTranslations_string_text w i e key s :
  elements w !! i = Some e -> data_i18n e = Some key ->
  attribute_truthy (data_i18n_vars e) = false ->
  fst (getTranslation key w) = Return (JS.Data (JS.JStr s)) ->
  exists w' e', applyTranslations w = (Return tt, w')
    /\ elements w' !! i = Some e'
    /\ children e' = if Str.empty s then children e
                     else if Str.includes "<" s then Markup s else Text s.
Proof.
  intros He Hk Hvars Hval.
  assert (Hpass : exists w1 e1, text_pass w = (Return tt, w1)
            /\ elements w1 !! i = Some e1
            /\ children e1 = if Str.empty s then children e
                             else if Str.includes "<" s then Markup s else Text s).
  { destruct s as [|c s].
    - destruct (text_pass_skipped w i e key _ He Hk Hval) as (w1 & Htext & _ & He1 & _);
        [reflexivity|].
      exists w1, e. auto.
    - destruct (text_pass_string w i e key (String c s) He Hk Hvars Hval)
        as (w1 & e1 & Htext & _ & He1 & Hc1); [discriminate|].
      exists w1, e1. auto. }
  destruct Hpass as (w1 & e1 & Htext & He1 & Hc1).
  destruct (applyTranslations_after_text w w1 Htext) as (w' & Hrun & Hstep & Hshow).
  destruct (Hshow i e1 He1) as (e' & He' & Hc).
  exists w', e'. repeat split; auto. congruence.
Qed.

(** A text element whose key resolves to a string with a tag is given it as
    markup. *)
Lemma applyTranslations_string_text_witness :
  exists w' e',
    applyTranslations (Example.page (Example.browser Example.site true)
                         Example.en_json ∅ [Example.text_element "hero"])
      = (Return tt, w')
    /\ elements w' !! 0 = Some e'
    /\ children e' = Markup "Save <b>more</b>".
Proof.
  apply (applyTranslations_string_text
           (Example.page (Example.browser Example.site true)
              Example.en_json ∅ [Example.text_element "hero"])
           0 (Example.text_element "hero") "hero" "Save <b>more</b>").
  - reflexivity.
  - reflexivity.
  - reflexivity.
  - reflexivity.
Defined.

(** C9 fails as stated on the empty string: it holds no '<', and the
    element is assigned nothing, neither as text nor as markup. *)
Lemma applyTranslations_empty_string_counterexample :
  let w := Example.page (Example.browser Example.site true)
             Example.en_json ∅ [Example.text_element "blank"] in
  elements w !! 0 = Some (Example.text_element "blank")
  /\ data_i18n (Example.text_element "blank") = Some "blank"
  /\ data_i18n_vars (Example.text_element "blank") = None
  /\ fst (getTranslation "blank" w) = Return (JS.Data (JS.JStr EmptyString))
  /\ Str.includes "<" EmptyString = false
  /\ fst (applyTranslations w) = Return tt
  /\ children <$> elements (snd (applyTranslations w)) = [Text "Welcome"]
  /\ Text "Welcome" <> Text EmptyString.
Proof. vm_compute. repeat split. discriminate. Qed.

(** C8, as the code has it: a successful [switchLanguage] stores the
    language under the storage key, or logs a warning and goes on when the
    storage refuses the write; and when the browser accepts the new URL the
    parameter is absent for the default language and holds the language
    otherwise, while a refusal is logged as a warning and leaves the URL as
    it was. *)
Theorem switchLanguage_persists fuel lang w :
  2 <= fuel ->
  In lang (supportedLanguages (this w)) ->
  exists w', switchLanguage fuel lang w = (Return true, w')
    /\ match storage (env w) with
       | StorageOk => localStorage w' !! storageKey (this w) = Some lang
       | _ => localStorage w' = localStorage w
              /\ In (console_warn_call "Unable to save language preference:")
                    (console w')
       end
    /\ if history_accepts (env w) then
         searchParams_get "lang" (location_search w')
         = if String.eqb lang (defaultLang (this w)) then None else Some lang
       else
         location_search w' = location_search w
         /\ In (console_warn_call "Error updating URL language parameter:")
               (console w').
Proof.
  intros Hfuel Hin.
  destruct (switchLanguage_run fuel lang w Hfuel Hin)
    as (ok & w1 & _ & w' & Hrun & _ & _ & _ & _ & Hls & Hwarn & Hloc & Hwarn' & _).
  exists w'. split; [exact Hrun|]. split.
  - destruct (storage (env w)).
    + rewrite Hls. apply lookup_insert_eq.
    + split; [exact Hls|]. now apply Hwarn.
    + split; [exact Hls|]. now apply Hwarn.
  - destruct (history_accepts (env w)).
    + rewrite Hloc. unfold url_for.
      destruct (String.eqb lang (defaultLang (this w))); simpl.
      * apply searchParams_get_delete.
      * apply searchParams_get_set.
    + auto.
Qed.

(** On the example page, the switch to zh-TW stores it and puts it in the
    URL. *)
Lemma switchLanguage_persists_witness :
  exists w', switchLanguage 2 "zh-TW" Example.home = (Return true, w')
    /\ localStorage w' !! "mezzofy_language" = Some "zh-TW"
    /\ searchParams_get "lang" (location_search w') = Some "zh-TW".
Proof.
  apply (switchLanguage_persists 2 "zh-TW" Example.home).
  - lia.
  - simpl. auto.
Defined.

(** C8 fails as stated when the browser refuses the new URL: the switch to
    a language other than the default succeeds and the URL carries no
    parameter. *)
Lemma switchLanguage_url_counterexample :
  let w := Example.page (Example.browser Example.site false) (JS.JObj []) ∅
             [Example.text_element "nav.home"] in
  In "zh-TW" (supportedLanguages (this w))
  /\ "zh-TW" <> defaultLang (this w)
  /\ fst (switchLanguage 2 "zh-TW" w) = Return true
  /\ searchParams_get "lang" (location_search (snd (switchLanguage 2 "zh-TW" w))) = None.
Proof. vm_compute. repeat split; auto. discriminate. Qed.

(** ** Lookup *)

Lemma inherited_none names above k :
  not_inherited names k -> JS.inherited names above k = None.
Proof.
  intros H. destruct above as [p|]; [|reflexivity]. unfold JS.inherited, JS.holder_from.
  rewrite H. destruct (JS.proto_parent p); [rewrite H|]; reflexivity.
Qed.

(** On keys none of whose segments is the name of a built-in property, the
    loop of [getTranslation] follows own properties: it gives the value at
    the path, and takes its [else] branch when a segment is absent or a
    value that is no container is reached first. *)
Lemma get_data_own names j k :
  not_inherited names k -> JS.get_data names j k = JS.own_property j k.
Proof.
  intros H. unfold JS.get_data. rewrite (inherited_none _ _ _ H).
  now destruct (JS.own_property j k).
Qed.

Lemma walk_object names k keys props :
  walk names (k :: keys) (JS.Data (JS.JObj props))
  = JS.get_data names (JS.JObj props) k ≫= walk names keys.
Proof. simpl. now destruct (JS.get_data names (JS.JObj props) k). Qed.

Lemma walk_array names k keys items :
  walk names (k :: keys) (JS.Data (JS.JArr items))
  = JS.get_data names (JS.JArr items) k ≫= walk names keys.
Proof. simpl. now destruct (JS.get_data names (JS.JArr items) k). Qed.

Lemma walk_own_path names keys tree :
  Forall (not_inherited names) keys ->
  walk names keys (JS.Data tree) = JS.Data <$> own_path keys tree.
Proof.
  intros H. revert tree. induction H as [|k keys Hk H IH]; intros tree; [reflexivity|].
  destruct tree as [|b|repr|s|items|props]; try reflexivity;
    try (simpl; rewrite andb_false_r; reflexivity).
  - rewrite walk_array, (get_data_own _ _ _ Hk). simpl.
    destruct (String.eqb k "length"); simpl; [apply IH|].
    destruct (JS.array_index k 0 items); simpl; [apply IH|reflexivity].
  - rewrite walk_object, (get_data_own _ _ _ Hk). simpl.
    destruct (JS.assoc k props); simpl; [apply IH|reflexivity].
Qed.

(** The two lookups of the specification. *)
Lemma getTranslation_nested_example names :
  Forall (not_inherited names) ["a"; "b"; "c"] ->
  walk names (Str.split "." "a.b.c")
    (JS.Data (JS.JObj [("a", JS.JObj [("b", JS.JObj [("c", JS.JStr "x")])])]))
  = Some (JS.Data (JS.JStr "x"))
  /\ walk names (Str.split "." "a.b.c")
       (JS.Data (JS.JObj [("a", JS.JObj [("b", JS.JObj [])])]))
     = None.
Proof. intros H. split; now rewrite (walk_own_path _ _ _ H). Qed.

(** [getTranslation] returns on every key and in every world. *)
Lemma getTranslation_returns key w :
  exists v w', getTranslation key w = (Return v, w').
Proof. destruct (getTranslation_run key w) as (v & w' & H & _). eauto. Qed.

(** When the loop takes its [else] branch the key comes back, with a
    warning. *)
Lemma getTranslation_fallback key w :
  walk (builtin (env w)) (Str.split "." key) (JS.Data (translations (this w))) = None ->
  getTranslation key w
  = (Return (JS.Data (JS.JStr key)),
     set_console (fun log => log ++ [console_warn_call ("Translation key not found: " +:+ key)]) w).
Proof. intros H. unfold getTranslation, bind, gets. simpl. now rewrite H. Qed.

(** C5 fails on a segment that names a built-in property: [in] finds
    [constructor] on the prototype of the empty tree, and the lookup gives
    the function [Object] without any warning, where the claim has the key
    come back. *)
Theorem getTranslation_inherited_key :
  let w := Example.page (Example.browser Example.site true) (JS.JObj []) ∅ [] in
  JS.assoc "constructor" ([] : list (string * JS.json)) = None
  /\ getTranslation "constructor" w
     = (Return (JS.Builtin JS.ObjectPrototype "constructor"), w)
  /\ JS.Builtin JS.ObjectPrototype "constructor" <> JS.Data (JS.JStr "constructor").
Proof. repeat split. discriminate. Qed.

(** ** Interpolation *)

(** The two interpolations of the specification. *)
Lemma interpolate_examples :
  interpolate JS.es2015 "Hi {{name}}" (JS.JObj [("name", JS.JStr "Sam")]) = Some "Hi Sam"
  /\ interpolate JS.es2015 "Hi {{name}}" (JS.JObj []) = Some "Hi {{name}}".
Proof. split; reflexivity. Qed.

Lemma append_nil (b : string) : EmptyString +:+ b = b.
Proof. reflexivity. Qed.

Lemma append_cons x (a b : string) : String x a +:+ b = String x (a +:+ b).
Proof. reflexivity. Qed.

Lemma append_assoc (a b c : string) : (a +:+ b) +:+ c = a +:+ (b +:+ c).
Proof.
  induction a as [|x a IH]; [reflexivity|]. rewrite !append_cons. now rewrite IH.
Qed.

Lemma length_append (a b : string) :
  String.length (a +:+ b) = String.length a + String.length b.
Proof.
  induction a as [|x a IH]; [reflexivity|]. rewrite append_cons. simpl. now rewrite IH.
Qed.

Lemma placeholder_at_other c s :
  Ascii.eqb c "{" = false -> placeholder_at (String c s) = None.
Proof.
  intros H. unfold placeholder_at.
  destruct c as [[] [] [] [] [] [] [] []]; try reflexivity. discriminate.
Qed.

(** A template without '{' is returned as it is, whatever the variables. *)
Lemma interpolate_plain names text vars :
  Str.includes "{" text = false -> interpolate names text vars = Some text.
Proof.
  unfold interpolate. induction text as [|c text IH]; intros H; [reflexivity|].
  simpl in H. apply orb_false_iff in H as [Hc H].
  cbn [replace_placeholders]. rewrite (placeholder_at_other _ _ Hc), (IH H). reflexivity.
Qed.

Lemma replace_literal callback text rest :
  Str.includes "{" text = false ->
  replace_placeholders callback 0 (text +:+ rest)
  = String.append text <$> replace_placeholders callback 0 rest.
Proof.
  induction text as [|c text IH]; intros H.
  - rewrite append_nil. now destruct (replace_placeholders callback 0 rest).
  - simpl in H. apply orb_false_iff in H as [Hc H].
    rewrite append_cons. cbn [replace_placeholders].
    rewrite (placeholder_at_other _ _ Hc), (IH H).
    now destruct (replace_placeholders callback 0 rest).
Qed.

Lemma replace_skip callback passed rest :
  replace_placeholders callback (String.length passed) (passed +:+ rest)
  = replace_placeholders callback 0 rest.
Proof.
  induction passed as [|c passed IH]; [reflexivity|].
  rewrite append_cons. exact IH.
Qed.

Lemma word_prefix_name name rest :
  all_word name = true ->
  word_prefix (name +:+ String "}" rest) = (name, String "}" rest).
Proof.
  induction name as [|c name IH]; intros H; [reflexivity|].
  simpl in H. apply andb_true_iff in H as [Hc H].
  rewrite append_cons. simpl. now rewrite Hc, (IH H).
Qed.

Lemma placeholder_at_text name rest :
  name <> EmptyString -> all_word name = true ->
  placeholder_at (placeholder_text name +:+ rest) = Some name.
Proof.
  intros Hne Hw. unfold placeholder_text.
  rewrite !append_cons, append_nil, append_assoc, !append_cons, append_nil.
  unfold placeholder_at. rewrite (word_prefix_name _ _ Hw).
  destruct name; [congruence|reflexivity].
Qed.

Lemma replace_placeholder callback name rest :
  name <> EmptyString -> all_word name = true ->
  replace_placeholders callback 0 (placeholder_text name +:+ rest)
  = match callback (placeholder_text name) name with
    | Some v =>
        match JS.ToString v, replace_placeholders callback (String.length name + 3)
                               (("{" +:+ name +:+ "}}") +:+ rest) with
        | Some r, Some t => Some (r +:+ t)
        | _, _ => None
        end
    | None => None
    end.
Proof.
  intros Hne Hw.
  pose proof (placeholder_at_text name rest Hne Hw) as Hat.
  unfold placeholder_text in *.
  change (("{{" +:+ name +:+ "}}") +:+ rest)
    with (String "{" (("{" +:+ name +:+ "}}") +:+ rest)) in *.
  cbn [replace_placeholders]. rewrite Hat. reflexivity.
Qed.

Lemma replace_after_placeholder callback name rest :
  replace_placeholders callback (String.length name + 3)
    (("{" +:+ name +:+ "}}") +:+ rest)
  = replace_placeholders callback 0 rest.
Proof.
  replace (String.length name + 3) with (String.length ("{" +:+ name +:+ "}}")).
  - apply replace_skip.
  - rewrite append_cons, append_nil. simpl. rewrite length_append. simpl. lia.
Qed.

(** X2: on a template whose placeholders name no built-in property,
    [interpolate] with a mapping does what the specification says. *)
Lemma interpolate_substitute names props segments :
  Forall well_formed segments ->
  (forall name, In (Placeholder name) segments -> not_inherited names name) ->
  interpolate names (render segments) (JS.JObj props) = substitute props segments.
Proof.
  unfold interpolate. intros Hwf. induction Hwf as [|s segments Hs Hwf IH]; intros Hown.
  - reflexivity.
  - assert (Hrest : forall name, In (Placeholder name) segments -> not_inherited names name).
    { intros name H. apply Hown. now right. }
    destruct s as [text|name]; cbn [render substitute].
    + rewrite (replace_literal _ _ _ Hs), (IH Hrest). reflexivity.
    + destruct Hs as [Hne Hw].
      rewrite (replace_placeholder _ _ _ Hne Hw), replace_after_placeholder, (IH Hrest).
      rewrite get_data_own by (apply Hown; now left). simpl.
      destruct (JS.assoc name props) as [v|]; simpl; [reflexivity|].
      now destruct (substitute props segments).
Qed.

(** C6 fails on a placeholder that names a built-in property: the empty
    mapping has no entry [constructor], yet [vars[key]] finds the function
    [Object] on its prototype and the placeholder is replaced by the text
    of that function, where the claim leaves it in place. *)
Theorem interpolate_inherited_name :
  JS.assoc "constructor" ([] : list (string * JS.json)) = None
  /\ interpolate JS.es2015 "Hi {{constructor}}" (JS.JObj [])
     = Some "Hi function Object() { [native code] }"
  /\ interpolate JS.es2015 "Hi {{constructor}}" (JS.JObj []) <> Some "Hi {{constructor}}".
Proof. repeat split. discriminate. Qed.

(** ** The initial language *)

Lemma getSavedLanguage_run w :
  exists saved, getSavedLanguage w = (Return saved, w).
Proof. run. destruct (storage (env w)); eauto. Qed.

(** The URL gives a language only when it is a supported one. *)
Lemma getUrlLanguage_run w :
  exists url, getUrlLanguage w = (Return url, w)
    /\ forall lang, url = Some lang -> In lang (supportedLanguages (this w)).
Proof.
  run. destruct (searchParams_get "lang" (location_search w)) as [lang|]; simpl.
  - destruct (negb (Str.empty lang) && includes (supportedLanguages (this w)) lang) eqn:E;
      simpl; eexists; (split; [reflexivity|]); intros l Hl; [|discriminate].
    injection Hl as <-. apply andb_true_iff in E as [_ E]. now apply includes_In.
  - eexists. split; [reflexivity|]. discriminate.
Qed.

Lemma find_In {A} (f : A -> bool) l x : List.find f l = Some x -> In x l.
Proof.
  induction l as [|y l IH]; simpl; [discriminate|].
  destruct (f y); [intros [= ->]; now left|auto].
Qed.

(** The browser gives a supported language or the default one; the method
    throws only when the browser reports no language at all. *)
Lemma detectBrowserLanguage_run w :
  (exists browser, detectBrowserLanguage w = (Return browser, w)
     /\ (In browser (supportedLanguages (this w)) \/ browser = defaultLang (this w)))
  \/ (detectBrowserLanguage w = (Throw TypeError, w)
      /\ navigator_language (env w) = EmptyString
      /\ navigator_userLanguage (env w) = None).
Proof.
  run.
  destruct (Str.empty (navigator_language (env w))) eqn:E;
    [destruct (navigator_userLanguage (env w)) as [u|];
       [|right; apply Str_empty_spec in E; auto]|].
  all: left.
  all: match goal with
       | |- context [includes ?l ?x] => destruct (includes l x) eqn:Ei
       end.
  all: eexists; (split; [reflexivity|]).
  all: try (left; now apply includes_In).
  all: unfold or_else; destruct (List.find _ _) as [m|] eqn:F; [|now right].
  all: destruct (Str.empty m); [now right|left; eapply find_In; eauto].
Qed.

(** [init] applies the first of: the language of the URL, the stored
    preference when it is not empty, the language of the browser, the
    default language. *)
Lemma init_run fuel w saved browser url :
  2 <= fuel ->
  getSavedLanguage w = (Return saved, w) ->
  detectBrowserLanguage w = (Return browser, w) ->
  getUrlLanguage w = (Return url, w) ->
  exists w', init fuel w = (Return tt, w')
    /\ currentLang (this w')
       = or_else url (or_else saved (or_string browser (defaultLang (this w))))
    /\ html_lang w' = Some (currentLang (this w'))
    /\ supportedLanguages (this w') = supportedLanguages (this w).
Proof.
  intros Hfuel Hsaved Hbrowser Hurl.
  set (lang := or_else url (or_else saved (or_string browser (defaultLang (this w))))).
  set (w0 := set_observed (fun seen => seen ++ [translations (this w)])
               (set_this (set_currentLang lang) w)).
  destruct (loadTranslations_run fuel lang w0 Hfuel)
    as (ok & w1 & Hload & Hframe & _ & _).
  destruct Hframe as (_ & _ & _ & _ & _ & _ & _ & _ & Ecl & _ & Esl & _).
  destruct (applyTranslations_run w1) as (w2 & Rapply & ((Ethis & _) & _)).
  unfold init, bind at 1. rewrite Hsaved. unfold bind at 1. rewrite Hbrowser.
  unfold bind at 1. rewrite Hurl.
  unfold bind at 1, gets at 1. unfold bind at 1, modify at 1.
  unfold bind at 1, gets at 1. unfold bind at 1, await. simpl.
  fold lang. change (loadTranslations fuel lang _) with (loadTranslations fuel lang w0).
  rewrite Hload. unfold bind at 1. rewrite Rapply.
  run. eexists. split; [reflexivity|]. simpl.
  rewrite Ethis. repeat split; auto.
Qed.

Lemma or_else_cases a b :
  or_else a b = b \/ (a = Some (or_else a b) /\ or_else a b <> EmptyString).
Proof.
  destruct a as [s|]; simpl; [|now left].
  destruct (Str.empty s) eqn:E; [now left|right].
  split; [reflexivity|]. intros ->. discriminate.
Qed.

(** X14: with a stored preference that is absent, empty or supported, the
    language that [init] applies is a supported one. *)
Lemma init_applies_supported fuel w saved :
  2 <= fuel ->
  In (defaultLang (this w)) (supportedLanguages (this w)) ->
  navigator_language (env w) <> EmptyString ->
  getSavedLanguage w = (Return saved, w) ->
  (forall lang, saved = Some lang ->
     lang = EmptyString \/ In lang (supportedLanguages (this w))) ->
  exists w', init fuel w = (Return tt, w')
    /\ In (currentLang (this w')) (supportedLanguages (this w')).
Proof.
  intros Hfuel Hdef Hnav Hsaved Hok.
  destruct (getUrlLanguage_run w) as (url & Hurl & Hurl_ok).
  destruct (detectBrowserLanguage_run w) as [(browser & Hbrowser & Hb)|(_ & E & _)];
    [|congruence].
  destruct (init_run fuel w saved browser url Hfuel Hsaved Hbrowser Hurl)
    as (w' & Hrun & Hlang & _ & Hsup).
  exists w'. split; [exact Hrun|]. rewrite Hlang, Hsup.
  destruct (or_else_cases url
              (or_else saved (or_string browser (defaultLang (this w))))) as [->|[E _]];
    [|now apply Hurl_ok].
  destruct (or_else_cases saved (or_string browser (defaultLang (this w)))) as [->|[E Hne]].
  - unfold or_string. destruct (Str.empty browser); [exact Hdef|].
    destruct Hb as [Hb| ->]; auto.
  - destruct (Hok _ E) as [E0|Hin]; [congruence|exact Hin].
Qed.

(** The two resolutions of the specification: the URL wins over a stored
    preference and the browser; a browser language that is not supported
    gives the default language. *)
Lemma init_examples :
  let stored : gmap string string := {["mezzofy_language" := "en"]} in
  let w1 := set_location_search (fun _ => [("lang", "zh-TW")])
              (Example.page (Example.locale "zh-CN" (Example.browser Example.site true))
                 (JS.JObj []) stored []) in
  let w2 := Example.page (Example.locale "fr-FR" (Example.browser Example.site true))
              (JS.JObj []) ∅ [] in
  (fst (init 2 w1) = Return tt /\ currentLang (this (snd (init 2 w1))) = "zh-TW")
  /\ (fst (init 2 w2) = Return tt /\ currentLang (this (snd (init 2 w2))) = "en").
Proof. vm_compute. repeat split. Qed.

(** C1 fails on a stored preference outside the supported set:
    [getSavedLanguage] does not check it as [getUrlLanguage] checks the URL
    parameter, and [init] applies it, as current language and as the [lang]
    attribute of the page, while the tree loaded is the default one. *)
Theorem init_applies_unsupported_preference :
  let stored : gmap string string := {["mezzofy_language" := "fr"]} in
  let w := Example.page (Example.browser Example.site true) (JS.JObj []) stored
             [Example.text_element "nav.home"] in
  searchParams_get "lang" (location_search w) = None
  /\ localStorage w !! storageKey (this w) = Some "fr"
  /\ ~ In "fr" (supportedLanguages (this w))
  /\ fst (init 2 w) = Return tt
  /\ currentLang (this (snd (init 2 w))) = "fr"
  /\ html_lang (snd (init 2 w)) = Some "fr"
  /\ translations (this (snd (init 2 w))) = Example.en_json.
Proof.
  vm_compute. repeat split. intros [H|[H|[H|[]]]]; discriminate.
Qed.

(** ** The DOM pass, element by element *)

Lemma getTranslation_lookup key w :
  exists w', getTranslation key w = (Return (lookup (this w) (env w) key), w')
    /\ same_outside_page w w'
    /\ elements w' = elements w
    /\ console w' = console w ++ lookup_log (this w) (env w) key.
Proof.
  unfold getTranslation, lookup, lookup_log, bind, gets, console_warn, modify, ret. simpl.
  destruct (walk _ _ _); eexists; (split; [reflexivity|]); repeat split; simpl.
  now rewrite app_nil_r.
Qed.

Lemma alter_at {A} (f g : A -> A) n (l : list A) x :
  l !! n = Some x -> f x = g x -> alter f n l = alter g n l.
Proof.
  revert n. induction l as [|y l IH]; intros [|n] H E; simpl in *; try discriminate.
  - injection H as ->. cbn. now rewrite E.
  - cbn. f_equal. now apply IH.
Qed.

Lemma alter_same {A} (g : A -> A) n (l : list A) x :
  l !! n = Some x -> g x = x -> l = alter g n l.
Proof.
  revert n. induction l as [|y l IH]; intros [|n] H E; simpl in *; try discriminate.
  - injection H as ->. cbn. now rewrite E.
  - cbn. f_equal. now apply IH.
Qed.

Lemma text_of_eq i E e key :
  data_i18n e = Some key ->
  text_of i E e
  = let translation := lookup i E key in
    if JS.truthy translation && String.eqb (JS.typeof translation) "string" then
      if attribute_truthy (data_i18n_vars e) then
        match JSON_parse E (default EmptyString (data_i18n_vars e))
              ≫= interpolate (builtin E) (string_of translation) with
        | Some text => set_children (Text text) e
        | None => set_children (Text (string_of translation)) e
        end
      else if Str.includes "<" (string_of translation) then
        set_children (Markup (string_of translation)) e
      else set_children (Text (string_of translation)) e
    else e.
Proof. intros H. unfold text_of. now rewrite H. Qed.

Lemma text_log_eq i E e key :
  data_i18n e = Some key ->
  text_log i E e
  = let translation := lookup i E key in
    lookup_log i E key ++
    if JS.truthy translation && String.eqb (JS.typeof translation) "string" then
      if attribute_truthy (data_i18n_vars e) then
        match JSON_parse E (default EmptyString (data_i18n_vars e))
              ≫= interpolate (builtin E) (string_of translation) with
        | Some _ => []
        | None => [console_error_call ("Error parsing vars for " +:+ key +:+ ":")]
        end
      else []
    else if JS.truthy translation then
      [console_warn_call ("Translation for " +:+ Str.dquote +:+ key +:+ Str.dquote
                          +:+ " is not a string:")]
    else [].
Proof. intros H. unfold text_log. now rewrite H. Qed.

Ltac outside_tac :=
  match goal with
  | H : same_outside_page _ _ |- same_outside_page _ _ =>
      unfold same_outside_page in *; simpl; intuition congruence
  end.

Lemma translate_text_does node w e key :
  elements w !! node = Some e -> data_i18n e = Some key ->
  callback_does translate_text text_of text_log node w e.
Proof.
  intros He Hk. unfold callback_does, translate_text, bind at 1, getAttribute, gets.
  rewrite He. simpl. rewrite Hk. unfold bind at 1.
  destruct (getTranslation_lookup key w) as (w1 & Hrun & Hout & Hels & Hcon).
  rewrite Hrun.
  pose proof Hout as (Hthis & Henv & Hrest).
  pose proof (text_of_eq (this w) (env w) e key Hk) as Hof.
  rewrite (text_log_eq _ _ _ _ Hk). cbv zeta in *.
  generalize dependent (lookup (this w) (env w) key). intros t Hrun Hof.
  unfold try_catch, bind, gets, update_element, modify, throw, console_error,
    console_warn, ret. cbn beta iota.
  destruct (JS.truthy t && String.eqb (JS.typeof t) "string").
  - cbn beta iota. rewrite Hels, He. simpl.
    destruct (attribute_truthy (data_i18n_vars e)).
    + cbn beta iota. rewrite Henv.
      destruct (JSON_parse (env w) _) as [parsed|]; simpl in *;
        [destruct (interpolate _ _ parsed) as [text|]|]; simpl in *.
      all: eexists; (split; [reflexivity|]); split; [outside_tac|].
      all: simpl; rewrite Hels, Hcon; split;
        [eapply alter_at; eauto|rewrite <- ?app_assoc, ?app_nil_r; reflexivity].
    + destruct (Str.includes "<" (string_of t)).
      all: eexists; (split; [reflexivity|]); split; [outside_tac|].
      all: simpl; rewrite Hels, Hcon; split;
        [eapply alter_at; eauto|rewrite <- ?app_assoc, ?app_nil_r; reflexivity].
  - destruct (JS.truthy t).
    all: eexists; (split; [reflexivity|]); split; [outside_tac|].
    all: simpl; rewrite ?Hels, ?Hcon; split;
      [eapply alter_same; eauto|rewrite <- ?app_assoc, ?app_nil_r; reflexivity].
Qed.

Lemma attribute_of_eq attr setAttribute i E e key :
  attr e = Some key ->
  attribute_of attr setAttribute i E e
  = if JS.truthy (lookup i E key) then setAttribute (lookup i E key) e else e.
Proof. intros H. unfold attribute_of. now rewrite H. Qed.

Lemma translate_attribute_does attr setAttribute node w e key :
  elements w !! node = Some e -> attr e = Some key ->
  callback_does (translate_attribute attr setAttribute)
    (attribute_of attr setAttribute) (attribute_log attr) node w e.
Proof.
  intros He Hk. unfold callback_does, translate_attribute, bind at 1, getAttribute, gets.
  rewrite He. simpl. rewrite Hk. unfold bind at 1.
  destruct (getTranslation_lookup key w) as (w1 & Hrun & Hout & Hels & Hcon).
  rewrite Hrun.
  pose proof (attribute_of_eq attr setAttribute (this w) (env w) e key Hk) as Hof.
  unfold attribute_log. rewrite Hk.
  generalize dependent (lookup (this w) (env w) key). intros t Hrun Hof.
  destruct (JS.truthy t); unfold update_element, modify, ret.
  all: eexists; (split; [reflexivity|]); split; [outside_tac|].
  all: simpl; rewrite ?Hels, ?Hcon; split;
    [first [eapply alter_at; eauto|eapply alter_same; eauto]|reflexivity].
Qed.

Lemma alter_middle {A} (f : A -> A) (pre : list A) x l :
  alter f (length pre) (pre ++ x :: l) = pre ++ f x :: l.
Proof. induction pre as [|y pre IH]; cbn; [reflexivity|]. f_equal. exact IH. Qed.

Lemma lookup_middle {A} (pre : list A) x l : (pre ++ x :: l) !! length pre = Some x.
Proof. induction pre as [|y pre IH]; [reflexivity|exact IH]. Qed.

(** A loop over the nodes of a selector acts as a map over the page. *)
Lemma forEach_positions callback G L (attr : element -> option string) :
  (forall node w e key, elements w !! node = Some e -> attr e = Some key ->
     callback_does callback G L node w e) ->
  (forall i E e, attr e = None -> G i E e = e /\ L i E e = []) ->
  forall page pre w, elements w = pre ++ page ->
  exists w', forEach (positions (has_attribute attr) (length pre) page) callback w
             = (Return tt, w')
    /\ same_outside_page w w'
    /\ elements w' = pre ++ map (G (this w) (env w)) page
    /\ console w' = console w ++ flat_map (L (this w) (env w)) page.
Proof.
  intros Hcb Hnone. induction page as [|e page IH]; intros pre w Hels.
  - exists w. simpl. rewrite !app_nil_r. repeat split. now rewrite Hels, app_nil_r.
  - assert (Hnext : forall w1,
      same_outside_page w w1 ->
      elements w1 = pre ++ G (this w) (env w) e :: page ->
      console w1 = console w ++ L (this w) (env w) e ->
      exists w', forEach (positions (has_attribute attr) (S (length pre)) page) callback w1
                 = (Return tt, w')
        /\ same_outside_page w w'
        /\ elements w' = pre ++ map (G (this w) (env w)) (e :: page)
        /\ console w' = console w ++ flat_map (L (this w) (env w)) (e :: page)).
    { intros w1 Hout Hels1 Hcon1.
      destruct (IH (pre ++ [G (this w) (env w) e]) w1) as (w' & Hrun & Hout' & Hels' & Hcon').
      { now rewrite <- app_assoc. }
      rewrite length_app, Nat.add_1_r in Hrun.
      pose proof Hout as (Ht & Ee & _). rewrite Ht, Ee in *.
      exists w'. split; [exact Hrun|]. split; [|split].
      - unfold same_outside_page in *. intuition congruence.
      - rewrite Hels', <- app_assoc. reflexivity.
      - rewrite Hcon', Hcon1, <- app_assoc. reflexivity. }
    simpl. unfold has_attribute at 1. destruct (attr e) as [key|] eqn:Hk.
    + destruct (Hcb (length pre) w e key) as (w1 & Hrun & Hout & Hels1 & Hcon1);
        [rewrite Hels; apply lookup_middle|exact Hk|].
      simpl. unfold bind. rewrite Hrun.
      apply Hnext; auto. rewrite Hels1, Hels. apply alter_middle.
    + destruct (Hnone (this w) (env w) e Hk) as [HG HL].
      apply Hnext.
      * repeat split.
      * now rewrite HG.
      * now rewrite HL, app_nil_r.
Qed.

Lemma text_pass_map w :
  exists w', text_pass w = (Return tt, w')
    /\ same_outside_page w w'
    /\ elements w' = map (text_of (this w) (env w)) (elements w)
    /\ console w' = console w ++ flat_map (text_log (this w) (env w)) (elements w).
Proof.
  unfold text_pass, bind at 1, querySelectorAll, gets.
  apply (forEach_positions translate_text text_of text_log data_i18n) with (pre := []).
  - apply translate_text_does.
  - intros i E e H. unfold text_of, text_log. now rewrite H.
  - reflexivity.
Qed.

Lemma attribute_pass_map attr setAttribute w :
  exists w', attribute_pass attr setAttribute w = (Return tt, w')
    /\ same_outside_page w w'
    /\ elements w' = map (attribute_of attr setAttribute (this w) (env w)) (elements w)
    /\ console w' = console w ++ flat_map (attribute_log attr (this w) (env w)) (elements w).
Proof.
  unfold attribute_pass, bind at 1, querySelectorAll, gets.
  apply (forEach_positions (translate_attribute attr setAttribute)
           (attribute_of attr setAttribute) (attribute_log attr) attr) with (pre := []).
  - apply translate_attribute_does.
  - intros i E e H. unfold attribute_of, attribute_log. now rewrite H.
  - reflexivity.
Qed.

Lemma text_of_marks i E e : same_marks e (text_of i E e).
Proof.
  unfold text_of. destruct (data_i18n e); [|apply same_marks_refl].
  repeat match goal with
         | |- context [if ?b then _ else _] => destruct b
         | |- context [match ?o with Some _ => _ | None => _ end] => destruct o
         end; auto using same_marks_refl, set_children_marks.
Qed.

Lemma attribute_of_marks attr setAttribute i E e :
  (forall v e, same_marks e (setAttribute v e)) ->
  same_marks e (attribute_of attr setAttribute i E e).
Proof.
  intros H. unfold attribute_of. destruct (attr e); [|apply same_marks_refl].
  destruct (JS.truthy _); auto using same_marks_refl.
Qed.

Lemma attribute_log_marks attr i E e e' :
  attr e' = attr e -> attribute_log attr i E e' = attribute_log attr i E e.
Proof. intros H. unfold attribute_log. now rewrite H. Qed.

Lemma flat_map_map_log {A B C} (f : B -> list C) (g : A -> B) (h : A -> list C) l :
  (forall x, f (g x) = h x) -> flat_map f (map g l) = flat_map h l.
Proof. intros H. induction l as [|x l IH]; simpl; [reflexivity|]. now rewrite H, IH. Qed.

(** The four passes act as one map over the page, and log pass after
    pass. *)
Lemma applyTranslations_map w :
  exists w', applyTranslations w = (Return tt, w')
    /\ same_outside_page w w'
    /\ elements w' = map (translated (this w) (env w)) (elements w)
    /\ console w' = console w ++ translation_log (this w) (env w) (elements w).
Proof.
  destruct (text_pass_map w) as (w1 & R1 & O1 & E1 & C1).
  destruct (attribute_pass_map data_i18n_placeholder set_placeholder w1)
    as (w2 & R2 & O2 & E2 & C2).
  destruct (attribute_pass_map data_i18n_alt set_alt w2) as (w3 & R3 & O3 & E3 & C3).
  destruct (attribute_pass_map data_i18n_title set_title w3) as (w4 & R4 & O4 & E4 & C4).
  exists w4. unfold applyTranslations, bind. rewrite R1, R2, R3, R4.
  split; [reflexivity|].
  pose proof O1 as (T1 & V1 & _). pose proof O2 as (T2 & V2 & _).
  pose proof O3 as (T3 & V3 & _).
  split; [unfold same_outside_page in *; intuition congruence|].
  rewrite T3, V3 in E4, C4. rewrite T2, V2 in E3, C3, E4, C4.
  rewrite T1, V1 in E2, C2, E3, C3, E4, C4. clear T1 T2 T3 V1 V2 V3 O1 O2 O3 O4.
  split.
  - rewrite E4, E3, E2, E1, !map_map. reflexivity.
  - assert (HB : flat_map (attribute_log data_i18n_placeholder (this w) (env w)) (elements w1)
                = flat_map (attribute_log data_i18n_placeholder (this w) (env w)) (elements w)).
    { rewrite E1. apply flat_map_map_log. intros e. apply attribute_log_marks, text_of_marks. }
    assert (HC : flat_map (attribute_log data_i18n_alt (this w) (env w)) (elements w2)
                = flat_map (attribute_log data_i18n_alt (this w) (env w)) (elements w)).
    { rewrite E2, E1, map_map. apply flat_map_map_log. intros e.
      rewrite (attribute_log_marks _ _ _ (text_of (this w) (env w) e));
        [|apply attribute_of_marks, set_placeholder_marks].
      apply attribute_log_marks, text_of_marks. }
    assert (HD : flat_map (attribute_log data_i18n_title (this w) (env w)) (elements w3)
                = flat_map (attribute_log data_i18n_title (this w) (env w)) (elements w)).
    { rewrite E3, E2, E1, !map_map. apply flat_map_map_log. intros e.
      rewrite (attribute_log_marks _ _ _
                 (attribute_of data_i18n_placeholder set_placeholder (this w) (env w)
                    (text_of (this w) (env w) e)));
        [|apply attribute_of_marks, set_alt_marks].
      rewrite (attribute_log_marks _ _ _ (text_of (this w) (env w) e));
        [|apply attribute_of_marks, set_placeholder_marks].
      apply attribute_log_marks, text_of_marks. }
    rewrite C4, C3, C2, C1, HB, HC, HD. unfold translation_log.
    now rewrite <- !app_assoc.
Qed.

Lemma attribute_of_children attr setAttribute i E e :
  (forall v e, children (setAttribute v e) = children e) ->
  children (attribute_of attr setAttribute i E e) = children e.
Proof.
  intros H. unfold attribute_of. destruct (attr e); [|reflexivity].
  destruct (JS.truthy _); auto.
Qed.

Lemma translated_children i E e : children (translated i E e) = children (text_of i E e).
Proof. unfold translated. now rewrite !attribute_of_children. Qed.

(** Each pass writes one field of an element, and what it writes depends
    on the marks of the element only. *)
Lemma text_of_shape i E e :
  exists o : option content, forall x, same_marks e x ->
    text_of i E x = match o with Some c => set_children c x | None => x end.
Proof.
  set (pick := fun key =>
    let translation := lookup i E key in
    if JS.truthy translation && String.eqb (JS.typeof translation) "string" then
      if attribute_truthy (data_i18n_vars e) then
        match JSON_parse E (default EmptyString (data_i18n_vars e))
              ≫= interpolate (builtin E) (string_of translation) with
        | Some text => Some (Text text)
        | None => Some (Text (string_of translation))
        end
      else if Str.includes "<" (string_of translation) then
        Some (Markup (string_of translation))
      else Some (Text (string_of translation))
    else None).
  exists (data_i18n e ≫= pick). intros x (H1 & H2 & _).
  unfold text_of. rewrite H1, H2. destruct (data_i18n e) as [key|]; [|reflexivity].
  simpl. unfold pick.
  destruct (JS.truthy _ && _); [|reflexivity].
  destruct (attribute_truthy _).
  - now destruct (JSON_parse _ _ ≫= _).
  - now destruct (Str.includes _ _).
Qed.

Lemma attribute_of_shape attr setAttribute i E e :
  (forall e e', same_marks e e' -> attr e' = attr e) ->
  exists o : option JS.value, forall x, same_marks e x ->
    attribute_of attr setAttribute i E x
    = match o with Some v => setAttribute v x | None => x end.
Proof.
  intros Hattr.
  exists (attr e ≫= fun key =>
            if JS.truthy (lookup i E key) then Some (lookup i E key) else None).
  intros x Hx. unfold attribute_of. rewrite (Hattr _ _ Hx).
  destruct (attr e) as [key|]; [|reflexivity]. simpl.
  now destruct (JS.truthy _).
Qed.

Lemma translated_marks i E e : same_marks e (translated i E e).
Proof.
  unfold translated.
  eapply same_marks_trans; [|apply attribute_of_marks, set_title_marks].
  eapply same_marks_trans; [|apply attribute_of_marks, set_alt_marks].
  eapply same_marks_trans; [|apply attribute_of_marks, set_placeholder_marks].
  apply text_of_marks.
Qed.

Lemma translated_idempotent i E e : translated i E (translated i E e) = translated i E e.
Proof.
  destruct (text_of_shape i E e) as (oc & Hc).
  destruct (attribute_of_shape data_i18n_placeholder set_placeholder i E e) as (op & Hp);
    [intros ? ? H; apply H|].
  destruct (attribute_of_shape data_i18n_alt set_alt i E e) as (oa & Ha);
    [intros ? ? H; apply H|].
  destruct (attribute_of_shape data_i18n_title set_title i E e) as (ot & Ht);
    [intros ? ? H; apply H|].
  assert (Hshape : forall x, same_marks e x ->
    translated i E x
    = match ot with Some v => set_title v | None => fun y => y end
        (match oa with Some v => set_alt v | None => fun y => y end
           (match op with Some v => set_placeholder v | None => fun y => y end
              (match oc with Some c => set_children c | None => fun y => y end x)))).
  { intros x Hx. unfold translated. rewrite (Hc x Hx).
    assert (H1 : same_marks e (match oc with Some c => set_children c | None => fun y => y end x)).
    { destruct oc; [eapply same_marks_trans; [exact Hx|apply set_children_marks]|exact Hx]. }
    replace (match oc with Some c => set_children c x | None => x end)
      with (match oc with Some c => set_children c | None => fun y => y end x)
      by now destruct oc.
    rewrite (Hp _ H1).
    assert (H2 : same_marks e (match op with Some v => set_placeholder v | None => fun y => y end
                 (match oc with Some c => set_children c | None => fun y => y end x))).
    { destruct op; [eapply same_marks_trans; [exact H1|apply set_placeholder_marks]|exact H1]. }
    replace (match op with
             | Some v => set_placeholder v
                 (match oc with Some c => set_children c | None => fun y => y end x)
             | None => match oc with Some c => set_children c | None => fun y => y end x
             end)
      with (match op with Some v => set_placeholder v | None => fun y => y end
              (match oc with Some c => set_children c | None => fun y => y end x))
      by now destruct op.
    rewrite (Ha _ H2).
    assert (H3 : same_marks e (match oa with Some v => set_alt v | None => fun y => y end
                 (match op with Some v => set_placeholder v | None => fun y => y end
                    (match oc with Some c => set_children c | None => fun y => y end x)))).
    { destruct oa; [eapply same_marks_trans; [exact H2|apply set_alt_marks]|exact H2]. }
    destruct oa; rewrite (Ht _ H3); now destruct ot. }
  rewrite (Hshape _ (translated_marks i E e)), (Hshape e (same_marks_refl e)).
  destruct e, oc, op, oa, ot; reflexivity.
Qed.

(** ** More on loading, switching and the initial language *)

Lemma saveLanguage_run lang w :
  saveLanguage lang w
  = (Return tt,
     match storage (env w) with
     | StorageOk => set_localStorage (fun store => <[storageKey (this w) := lang]> store) w
     | _ => set_console
              (fun log => log ++ [console_warn_call "Unable to save language preference:"]) w
     end).
Proof. run. now destruct (storage (env w)). Qed.

Lemma updateUrlLanguage_run lang w :
  updateUrlLanguage lang w
  = (Return tt,
     if history_accepts (env w) then
       set_location_search
         (fun _ => url_for lang (defaultLang (this w)) (location_search w)) w
     else set_console
            (fun log => log ++ [console_warn_call "Error updating URL language parameter:"]) w).
Proof. run. unfold url_for. now destruct (history_accepts (env w)). Qed.

(** [switchLanguage] on a supported language, step by step. *)
Lemma switchLanguage_steps fuel lang w ok w1 w2 w3 w4 :
  In lang (supportedLanguages (this w)) ->
  loadTranslations fuel lang (loading w) = (Return ok, w1) ->
  saveLanguage lang (set_this (set_currentLang lang) w1) = (Return tt, w2) ->
  applyTranslations w2 = (Return tt, w3) ->
  updateUrlLanguage lang (set_html_lang (fun _ => Some lang) w3) = (Return tt, w4) ->
  switchLanguage fuel lang w
  = (Return true,
     set_events (fun sent => sent ++ [("languageChanged", lang)])
       (set_body_opacity (fun _ => Some "1") w4)).
Proof.
  intros Hin Hload Hsave Happly Hurl. apply includes_In in Hin.
  unfold switchLanguage, bind at 1, gets. rewrite Hin. simpl.
  unfold bind at 1, modify at 1. unfold bind at 1, await.
  match goal with
  | |- context [loadTranslations fuel lang ?W] => change W with (loading w)
  end.
  rewrite Hload. unfold bind at 1, modify at 1. unfold bind at 1.
  rewrite Hsave. unfold bind at 1. rewrite Happly.
  unfold bind at 1, modify at 1. unfold bind at 1. rewrite Hurl.
  reflexivity.
Qed.

Lemma switchLanguage_fields fuel lang w :
  2 <= fuel -> In lang (supportedLanguages (this w)) ->
  exists ok w1 w',
    loadTranslations fuel lang (loading w) = (Return ok, w1)
    /\ switchLanguage fuel lang w = (Return true, w')
    /\ this w' = set_currentLang lang (this w1)
    /\ env w' = env w
    /\ localStorage w' =
         match storage (env w) with
         | StorageOk => <[storageKey (this w) := lang]> (localStorage w)
         | _ => localStorage w
         end
    /\ location_search w' =
         (if history_accepts (env w)
          then url_for lang (defaultLang (this w)) (location_search w)
          else location_search w)
    /\ elements w' = map (translated (set_currentLang lang (this w1)) (env w)) (elements w)
    /\ html_lang w' = Some lang
    /\ body_opacity w' = Some "1"
    /\ body_classList w' = body_classList w
    /\ events w' = events w ++ [("languageChanged", lang)]
    /\ requests w' = requests w1.
Proof.
  intros Hfuel Hin.
  destruct (loadTranslations_run fuel lang (loading w) Hfuel)
    as (ok & w1 & Hload & Hframe & _ & _).
  destruct Hframe as (Eenv & Els & Eloc & Eel & Ehl & Ebo & Ebc & Eev & Ecl & Edl & Esl & Esk & _).
  simpl in *.
  destruct (saveLanguage lang (set_this (set_currentLang lang) w1)) as [r2 w2] eqn:Hsave.
  pose proof Hsave as Hsave'. rewrite saveLanguage_run in Hsave'.
  injection Hsave' as <- Hw2.
  destruct (applyTranslations_map w2) as (w3 & Happly & Hout & Hels & _).
  destruct (updateUrlLanguage lang (set_html_lang (fun _ => Some lang) w3))
    as [r4 w4] eqn:Hurl.
  pose proof Hurl as Hurl'. rewrite updateUrlLanguage_run in Hurl'.
  injection Hurl' as <- Hw4.
  exists ok, w1. eexists. split; [exact Hload|].
  split; [exact (switchLanguage_steps fuel lang w ok w1 w2 w3 w4 Hin Hload Hsave Happly Hurl)|].
  assert (H2 : this w2 = set_currentLang lang (this w1) /\ env w2 = env w
               /\ elements w2 = elements w
               /\ location_search w2 = location_search w
               /\ body_classList w2 = body_classList w
               /\ events w2 = events w /\ requests w2 = requests w1
               /\ localStorage w2 = match storage (env w) with
                                    | StorageOk => <[storageKey (this w) := lang]> (localStorage w)
                                    | _ => localStorage w
                                    end).
  { subst w2. simpl. rewrite Eenv. destruct (storage (env w)); simpl;
      rewrite ?Esk, ?Els; repeat split; auto. }
  destruct H2 as (T2 & V2 & L2 & S2 & B2 & N2 & R2 & K2).
  destruct Hout as (T3 & V3 & K3 & S3 & _ & _ & B3 & R3 & N3 & _).
  subst w4. simpl. rewrite V3, V2, T3, T2. simpl. rewrite Edl.
  destruct (history_accepts (env w)); simpl;
    rewrite ?Hels, ?L2, ?T3, ?T2, ?V3, ?V2, ?K3, ?K2, ?S3, ?S2, ?B3, ?B2, ?N3, ?N2, ?R3, ?R2;
    repeat split; reflexivity.
Qed.

Lemma searchParams_get_delete_other name other params :
  name <> other ->
  searchParams_get name (searchParams_delete other params) = searchParams_get name params.
Proof.
  intros Hne. unfold searchParams_get, searchParams_delete.
  induction params as [|[n v] params IH]; simpl; [reflexivity|].
  destruct (String.eqb other n) eqn:E; simpl.
  - apply String.eqb_eq in E. subst n.
    apply String.eqb_neq in Hne. now rewrite Hne.
  - destruct (String.eqb name n); [reflexivity|exact IH].
Qed.

Lemma searchParams_get_set_other name other value params :
  name <> other ->
  searchParams_get name (searchParams_set other value params) = searchParams_get name params.
Proof.
  intros Hne. pose proof Hne as Hne'. apply String.eqb_neq in Hne'.
  unfold searchParams_get.
  induction params as [|[n v] params IH]; simpl.
  - now rewrite Hne'.
  - destruct (String.eqb other n) eqn:E; simpl.
    + apply String.eqb_eq in E. subst n. rewrite Hne'.
      now apply (searchParams_get_delete_other name other).
    + destruct (String.eqb name n); [reflexivity|exact IH].
Qed.

(** [init], step by step. *)
Lemma init_fields fuel w :
  2 <= fuel -> navigator_language (env w) <> EmptyString ->
  exists saved browser url ok w1 w',
    getSavedLanguage w = (Return saved, w)
    /\ detectBrowserLanguage w = (Return browser, w)
    /\ getUrlLanguage w = (Return url, w)
    /\ let lang := or_else url (or_else saved (or_string browser (defaultLang (this w)))) in
       loadTranslations fuel lang
         (set_observed (fun seen => seen ++ [translations (this w)])
            (set_this (set_currentLang lang) w)) = (Return ok, w1)
       /\ init fuel w = (Return tt, w')
       /\ this w' = this w1
       /\ currentLang (this w') = lang
       /\ env w' = env w
       /\ localStorage w' = localStorage w
       /\ location_search w' = location_search w
       /\ events w' = events w
       /\ elements w' = map (translated (this w1) (env w)) (elements w)
       /\ html_lang w' = Some lang
       /\ body_classList w'
          = classList_add "i18n-ready" (classList_remove "i18n-loading" (body_classList w)).
Proof.
  intros Hfuel Hnav.
  destruct (getSavedLanguage_run w) as (saved & Hsaved).
  destruct (getUrlLanguage_run w) as (url & Hurl & _).
  destruct (detectBrowserLanguage_run w) as [(browser & Hbrowser & _)|(_ & E & _)];
    [|congruence].
  exists saved, browser, url.
  set (lang := or_else url (or_else saved (or_string browser (defaultLang (this w))))).
  set (w0 := set_observed (fun seen => seen ++ [translations (this w)])
               (set_this (set_currentLang lang) w)).
  destruct (loadTranslations_run fuel lang w0 Hfuel)
    as (ok & w1 & Hload & Hframe & _ & _).
  destruct Hframe as (Eenv & Els & Eloc & Eel & Ehl & Ebo & Ebc & Eev & Ecl & _).
  destruct (applyTranslations_map w1) as (w2 & Rapply & Hout & Hels & _).
  destruct Hout as (T2 & V2 & K2 & S2 & _ & _ & B2 & _ & N2 & _).
  exists ok, w1. eexists.
  split; [exact Hsaved|]. split; [exact Hbrowser|]. split; [exact Hurl|].
  cbv zeta. fold lang. fold w0.
  split; [exact Hload|].
  split.
  { unfold init, bind at 1. rewrite Hsaved. unfold bind at 1. rewrite Hbrowser.
    unfold bind at 1. rewrite Hurl.
    unfold bind at 1, gets at 1. unfold bind at 1, modify at 1.
    unfold bind at 1, gets at 1. unfold bind at 1, await. simpl.
    fold lang. change (loadTranslations fuel lang _) with (loadTranslations fuel lang w0).
    rewrite Hload. unfold bind at 1. rewrite Rapply.
    unfold bind, gets, modify. simpl. reflexivity. }
  simpl in *. rewrite Hels, T2, V2, K2, S2, N2, B2, Eel, Eenv, Els, Eloc, Eev, Ebc, Ecl.
  repeat split.
Qed.

(** ** Further properties of the class *)

Lemma getTranslation_value key w v :
  fst (getTranslation key w) = Return v -> lookup (this w) (env w) key = v.
Proof.
  destruct (getTranslation_lookup key w) as (w' & Hrun & _). rewrite Hrun. simpl. congruence.
Qed.





Lemma es2015_not_inherited k :
  forallb (fun p => negb (JS.own_builtin JS.es2015 p k))
    [JS.ObjectPrototype; JS.ArrayPrototype; JS.StringPrototype;
     JS.NumberPrototype; JS.BooleanPrototype] = true ->
  not_inherited JS.es2015 k.
Proof.
  intros H p. simpl in H. rewrite !andb_true_iff, !negb_true_iff in H.
  destruct p; tauto.
Qed.

(** X1: on a key none of whose segments names a built-in property,
    [getTranslation] follows own properties only: it returns the value at
    the path and leaves the world as it is, and when the path is absent it
    returns the key itself and logs one warning. *)
Theorem getTranslation_own_path key w :
  Forall (not_inherited (builtin (env w))) (Str.split "." key) ->
  getTranslation key w
  = match own_path (Str.split "." key) (translations (this w)) with
    | Some v => (Return (JS.Data v), w)
    | None =>
        (Return (JS.Data (JS.JStr key)),
         set_console
           (fun log => log ++ [console_warn_call ("Translation key not found: " +:+ key)]) w)
    end.
Proof.
  intros H. unfold getTranslation, bind, gets, console_warn, modify, ret. cbn beta iota.
  rewrite (walk_own_path _ _ _ H).
  destruct (own_path (Str.split "." key) (translations (this w))); reflexivity.
Qed.

(** On the English tree, [nav.home] is found and [nav.about] is not. *)
Lemma getTranslation_own_path_witness :
  getTranslation "nav.home"
    (Example.page (Example.browser Example.site true) Example.en_json ∅ [])
  = (Return (JS.Data (JS.JStr "Home")),
     Example.page (Example.browser Example.site true) Example.en_json ∅ [])
  /\ getTranslation "nav.about"
       (Example.page (Example.browser Example.site true) Example.en_json ∅ [])
     = (Return (JS.Data (JS.JStr "nav.about")),
        set_console
          (fun log => log ++ [console_warn_call "Translation key not found: nav.about"])
          (Example.page (Example.browser Example.site true) Example.en_json ∅ [])).
Proof.
  split.
  - apply (getTranslation_own_path "nav.home"
             (Example.page (Example.browser Example.site true) Example.en_json ∅ [])).
    repeat constructor; apply es2015_not_inherited; reflexivity.
  - apply (getTranslation_own_path "nav.about"
             (Example.page (Example.browser Example.site true) Example.en_json ∅ [])).
    repeat constructor; apply es2015_not_inherited; reflexivity.
Defined.

(** The placeholders [name], which has an entry, and [n], which has none. *)
Lemma interpolate_substitute_witness :
  interpolate JS.es2015 "Hi {{name}}, {{n}} new" (JS.JObj [("name", JS.JStr "Ann")])
  = Some "Hi Ann, {{n}} new".
Proof.
  apply (interpolate_substitute JS.es2015 [("name", JS.JStr "Ann")]
           [Literal "Hi "; Placeholder "name"; Literal ", "; Placeholder "n";
            Literal " new"]).
  - repeat constructor; discriminate.
  - intros name H. apply es2015_not_inherited.
    simpl in H. destruct H as [H|[H|[H|[H|[H|[]]]]]]; try discriminate;
      injection H as <-; reflexivity.
Defined.

(** X3: with the variables [null], which [JSON.parse] gives for the payload
    [null], [interpolate] throws as soon as the template holds a
    placeholder, and returns a template without placeholder as it is. *)
Theorem interpolate_null names segments :
  Forall well_formed segments ->
  interpolate names (render segments) JS.JNull
  = if has_placeholder segments then None else Some (render segments).
Proof.
  unfold interpolate. intros Hwf. induction Hwf as [|s segments Hs Hwf IH]; [reflexivity|].
  destruct s as [text|name]; cbn [render has_placeholder].
  - rewrite (replace_literal _ _ _ Hs), IH.
    now destruct (has_placeholder segments).
  - destruct Hs as [Hne Hw]. now rewrite (replace_placeholder _ _ _ Hne Hw).
Qed.

Lemma interpolate_null_witness :
  interpolate JS.es2015 "Hi {{name}}" JS.JNull = None
  /\ interpolate JS.es2015 "Hi there" JS.JNull = Some "Hi there".
Proof.
  split.
  - apply (interpolate_null JS.es2015 [Literal "Hi "; Placeholder "name"]).
    repeat constructor; discriminate.
  - apply (interpolate_null JS.es2015 [Literal "Hi there"]).
    repeat constructor.
Defined.


(** X5: [applyTranslations] is idempotent on the page: a second run, with
    the tree unchanged, leaves every element as the first run left it. *)
Theorem applyTranslations_idempotent w :
  exists w1 w2, applyTranslations w = (Return tt, w1)
    /\ applyTranslations w1 = (Return tt, w2)
    /\ elements w2 = elements w1.
Proof.
  destruct (applyTranslations_map w) as (w1 & H1 & (T1 & V1 & _) & E1 & _).
  destruct (applyTranslations_map w1) as (w2 & H2 & _ & E2 & _).
  exists w1, w2. repeat split; auto.
  rewrite E2, T1, V1, E1, map_map. apply map_ext. intros e. apply translated_idempotent.
Qed.

(** X6: a text-translation element with a variables payload whose key
    resolves to a string that is not empty is given text, never markup: the
    interpolated string when the payload parses and the interpolation
    returns, and otherwise the translation as it is, with an error
    logged. *)
Theorem applyTranslations_payload w i e key s payload :
  elements w !! i = Some e -> data_i18n e = Some key ->
  data_i18n_vars e = Some payload -> payload <> EmptyString ->
  fst (getTranslation key w) = Return (JS.Data (JS.JStr s)) -> s <> EmptyString ->
  exists w' e', applyTranslations w = (Return tt, w')
    /\ elements w' !! i = Some e'
    /\ match JSON_parse (env w) payload ≫= interpolate (builtin (env w)) s with
       | Some text => children e' = Text text
       | None =>
           children e' = Text s
           /\ In (console_error_call ("Error parsing vars for " +:+ key +:+ ":"))
                (console w')
       end.
Proof.
  intros He Hk Hv Hp Hval Hs.
  apply getTranslation_value in Hval.
  destruct (applyTranslations_map w) as (w' & Hrun & _ & Hels & Hlog).
  exists w', (translated (this w) (env w) e). split; [exact Hrun|].
  split; [rewrite Hels, list_lookup_fmap, He; reflexivity|].
  rewrite translated_children, (text_of_eq _ _ _ _ Hk). cbv zeta.
  assert (Hlog' : forall m, In m (text_log (this w) (env w) e) -> In m (console w')).
  { intros m Hm. rewrite Hlog. apply in_or_app. right.
    unfold translation_log. apply in_or_app. left.
    apply in_flat_map. exists e. split; [|exact Hm].
    apply list_elem_of_In. eapply list_elem_of_lookup_2. exact He. }
  rewrite (text_log_eq _ _ _ _ Hk) in Hlog'. cbv zeta in Hlog'.
  rewrite Hval, Hv in *. simpl in *.
  assert (Es : Str.empty s = false) by (destruct s; [congruence|reflexivity]).
  assert (Ep : Str.empty payload = false) by (destruct payload; [congruence|reflexivity]).
  rewrite Es, Ep in *. simpl in *.
  destruct (JSON_parse (env w) payload ≫= interpolate (builtin (env w)) s); simpl;
    [reflexivity|].
  split; [reflexivity|]. apply Hlog'. apply in_or_app. right. now left.
Qed.

(** A payload that does not parse: the element shows the translation, tags
    and placeholder included, as text. *)
Lemma applyTranslations_payload_witness :
  exists w' e', applyTranslations Sample.page = (Return tt, w')
    /\ elements w' !! 0 = Some e'
    /\ children e' = Text "Hi {{name}} <b>!</b>"
    /\ In (console_error_call "Error parsing vars for hello:") (console w').
Proof.
  apply (applyTranslations_payload Sample.page 0
           (Sample.payload_element "hello" "{oops") "hello" "Hi {{name}} <b>!</b>" "{oops").
  - reflexivity.
  - reflexivity.
  - reflexivity.
  - discriminate.
  - reflexivity.
  - discriminate.
Defined.



(** ** Loading, switching and starting *)

(** X8: a load changes nothing but the tree of the instance, the request
    log and the console; when it returns [false] the tree is the one held
    before, and when it returns [true] the tree is the resource of the
    language asked for or of the default language. *)
Theorem loadTranslations_keeps_state fuel lang w :
  2 <= fuel ->
  exists ok w', loadTranslations fuel lang w = (Return ok, w')
    /\ load_frame w w'
    /\ (ok = false -> translations (this w') = translations (this w))
    /\ (ok = true ->
        resource (env w) lang = Some (translations (this w'))
        \/ resource (env w) (defaultLang (this w)) = Some (translations (this w'))).
Proof.
  intros Hfuel.
  destruct (loadTranslations_run fuel lang w Hfuel) as (ok & w' & Hrun & Hframe & Hres & _).
  exists ok, w'. split; [exact Hrun|]. split; [exact Hframe|].
  unfold load_result in Hres. cbv zeta in Hres.
  destruct (resource (env w) lang) as [data|].
  { destruct Hres as (-> & -> & _). split; [discriminate|auto]. }
  destruct (String.eqb lang (defaultLang (this w))).
  { destruct Hres as (-> & -> & _). split; [auto|discriminate]. }
  destruct Hres as (_ & Hres).
  destruct (resource (env w) (defaultLang (this w))) as [data|];
    destruct Hres as (-> & ->); split; auto; discriminate.
Qed.

(** Without any file served, the load of zh-TW returns [false] and the tree
    is still the empty one. *)
Lemma loadTranslations_keeps_state_witness :
  exists ok w', loadTranslations 2 "zh-TW" Example.offline = (Return ok, w')
    /\ ok = false /\ translations (this w') = JS.JObj []
    /\ elements w' = elements Example.offline
    /\ currentLang (this w') = "en".
Proof.
  destruct (loadTranslations_keeps_state 2 "zh-TW" Example.offline)
    as (ok & w' & Hrun & Hframe & Hfalse & _); [lia|].
  exists ok, w'. split; [exact Hrun|].
  assert (Hok : ok = false) by (vm_compute in Hrun; congruence).
  destruct Hframe as (_ & _ & _ & Hels & _ & _ & _ & _ & Hlang & _).
  repeat split; auto.
Defined.



(** X10: a switch to a supported language keeps every search parameter of
    the URL other than [lang]. *)
Theorem switchLanguage_keeps_parameters fuel lang w name :
  2 <= fuel -> In lang (supportedLanguages (this w)) -> name <> "lang" ->
  exists w', switchLanguage fuel lang w = (Return true, w')
    /\ searchParams_get name (location_search w')
       = searchParams_get name (location_search w).
Proof.
  intros Hfuel Hin Hname.
  destruct (switchLanguage_fields fuel lang w Hfuel Hin)
    as (ok & w1 & w' & _ & Hrun & _ & _ & _ & Hloc & _).
  exists w'. split; [exact Hrun|]. rewrite Hloc.
  destruct (history_accepts (env w)); [|reflexivity].
  unfold url_for. destruct (negb (String.eqb lang (defaultLang (this w)))).
  - now apply searchParams_get_set_other.
  - now apply searchParams_get_delete_other.
Qed.

Lemma switchLanguage_keeps_parameters_witness :
  exists w', switchLanguage 2 "en" Sample.campaign = (Return true, w')
    /\ searchParams_get "ref" (location_search w') = Some "a".
Proof.
  apply (switchLanguage_keeps_parameters 2 "en" Sample.campaign "ref").
  - lia.
  - simpl. auto.
  - discriminate.
Defined.

(** X11: [saveLanguage] never throws, and [getSavedLanguage] after it
    returns the language saved when the storage takes the write, what was
    stored before when the storage can only be read, and [null] when the
    storage cannot be reached at all. *)
Theorem saveLanguage_getSavedLanguage lang w :
  exists w', saveLanguage lang w = (Return tt, w')
    /\ getSavedLanguage w'
       = (Return match storage (env w) with
                 | StorageOk => Some lang
                 | StorageReadOnly => localStorage w !! storageKey (this w)
                 | StorageDenied => None
                 end, w').
Proof.
  rewrite saveLanguage_run. eexists. split; [reflexivity|].
  unfold getSavedLanguage, try_catch, bind, gets, localStorage_getItem, ret, throw.
  destruct (storage (env w)) eqn:E; cbn; rewrite ?E; cbn; try reflexivity.
  now rewrite lookup_insert_eq.
Qed.

(** X12: with a storage that takes writes and a browser that accepts the
    new URL, the language of a switch is the one that [init] applies when
    the page is loaded again. *)
Theorem reload_restores_language fuel lang w page :
  2 <= fuel -> constructed (this w) ->
  storage (env w) = StorageOk -> history_accepts (env w) = true ->
  navigator_language (env w) <> EmptyString ->
  In lang (supportedLanguages (this w)) ->
  exists w' w'', switchLanguage fuel lang w = (Return true, w')
    /\ init fuel (reload page w') = (Return tt, w'')
    /\ currentLang (this w'') = lang.
Proof.
  intros Hfuel (Hd & Hs & Hk) Hst Hh Hnav Hin.
  destruct (switchLanguage_fields fuel lang w Hfuel Hin)
    as (ok & w1 & w' & _ & Hrun & _ & V & Hls & Hloc & _).
  rewrite Hst in Hls. rewrite Hh in Hloc.
  assert (Hne : lang <> EmptyString).
  { rewrite Hs in Hin. simpl in Hin. intros ->. intuition discriminate. }
  assert (Hnav' : navigator_language (env (reload page w')) <> EmptyString)
    by (simpl; now rewrite V).
  destruct (init_fields fuel (reload page w') Hfuel Hnav')
    as (saved & browser & url & ok' & w1' & w'' & Hsaved & _ & Hurl & Hinit).
  cbv zeta in Hinit. destruct Hinit as (_ & Hinit & _ & Hlang & _).
  exists w', w''. split; [exact Hrun|]. split; [exact Hinit|]. rewrite Hlang.
  assert (Es : saved = Some lang).
  { unfold getSavedLanguage, try_catch, bind, gets, localStorage_getItem, ret, reload
      in Hsaved.
    cbn in Hsaved. rewrite V, Hst in Hsaved. cbn in Hsaved.
    rewrite Hls, Hk, lookup_insert_eq in Hsaved. congruence. }
  assert (Eu : url = None \/ url = Some lang).
  { unfold getUrlLanguage, try_catch, bind, gets, ret, reload in Hurl. cbn in Hurl.
    rewrite Hloc, Hd in Hurl. unfold url_for in Hurl. cbn in Hurl.
    destruct (String.eqb lang "en"); simpl in Hurl.
    - rewrite searchParams_get_delete in Hurl. simpl in Hurl. left. congruence.
    - rewrite searchParams_get_set in Hurl. simpl in Hurl.
      destruct (negb (Str.empty lang) && _) in Hurl; simpl in Hurl;
        [right|left]; congruence. }
  assert (El : Str.empty lang = false) by (destruct lang; [congruence|reflexivity]).
  subst saved. destruct Eu as [-> | ->]; simpl; now rewrite El.
Qed.

Lemma reload_restores_language_witness :
  exists w' w'', switchLanguage 2 "zh-TW" Example.home = (Return true, w')
    /\ init 2 (reload [] w') = (Return tt, w'')
    /\ currentLang (this w'') = "zh-TW".
Proof.
  apply (reload_restores_language 2 "zh-TW" Example.home []).
  - lia.
  - repeat split.
  - reflexivity.
  - reflexivity.
  - discriminate.
  - simpl. auto.
Defined.

(** X13: a language of the URL that is supported wins: [init] applies it
    whatever the storage holds and whatever the browser reports, as long as
    the browser reports a language. *)
Theorem init_url_priority fuel w lang :
  2 <= fuel -> navigator_language (env w) <> EmptyString ->
  searchParams_get "lang" (location_search w) = Some lang ->
  lang <> EmptyString -> In lang (supportedLanguages (this w)) ->
  exists w', init fuel w = (Return tt, w') /\ currentLang (this w') = lang.
Proof.
  intros Hfuel Hnav Hget Hne Hin.
  destruct (init_fields fuel w Hfuel Hnav)
    as (saved & browser & url & ok' & w1' & w' & _ & _ & Hurl & Hinit).
  cbv zeta in Hinit. destruct Hinit as (_ & Hinit & _ & Hlang & _).
  exists w'. split; [exact Hinit|]. rewrite Hlang.
  assert (El : Str.empty lang = false) by (destruct lang; [congruence|reflexivity]).
  unfold getUrlLanguage, try_catch, bind, gets, ret in Hurl. simpl in Hurl.
  rewrite Hget in Hurl. simpl in Hurl. apply includes_In in Hin.
  rewrite El, Hin in Hurl. simpl in Hurl.
  injection Hurl as <-. simpl. now rewrite El.
Qed.

(** The URL asks for zh-CN, the storage holds zh-TW and the browser reports
    zh-HK. *)
Lemma init_url_priority_witness :
  exists w',
    init 2 (set_location_search (fun _ => [("lang", "zh-CN")])
              (Example.page Sample.browser (JS.JObj [])
                 {["mezzofy_language" := "zh-TW"]} []))
    = (Return tt, w')
    /\ currentLang (this w') = "zh-CN".
Proof.
  apply (init_url_priority 2
           (set_location_search (fun _ => [("lang", "zh-CN")])
              (Example.page Sample.browser (JS.JObj [])
                 {["mezzofy_language" := "zh-TW"]} []))
           "zh-CN").
  - lia.
  - discriminate.
  - reflexivity.
  - discriminate.
  - simpl. auto.
Defined.

(** A page with nothing stored, in a browser that reports en-US. *)
Lemma init_applies_supported_witness :
  exists w', init 2 Example.home = (Return tt, w')
    /\ In (currentLang (this w')) (supportedLanguages (this w')).
Proof.
  apply (init_applies_supported 2 Example.home None).
  - lia.
  - simpl. auto.
  - discriminate.
  - reflexivity.
  - discriminate.
Defined.

Lemma init_throws_run fuel w :
  navigator_language (env w) = EmptyString ->
  navigator_userLanguage (env w) = None ->
  init fuel w = (Throw TypeError, w).
Proof.
  intros Hnav Huser.
  destruct (getSavedLanguage_run w) as (saved & Hsaved).
  unfold init, bind at 1. rewrite Hsaved. unfold bind at 1.
  unfold detectBrowserLanguage, bind, gets, throw. simpl. rewrite Hnav, Huser. reflexivity.
Qed.

(** X15: when the browser reports no language at all, [init] throws a
    [TypeError] before it has changed anything, whatever the URL asks for
    and whatever the storage holds. *)
Theorem init_without_browser_language fuel w :
  navigator_language (env w) = EmptyString ->
  navigator_userLanguage (env w) = None ->
  init fuel w = (Throw TypeError, w).
Proof. exact (init_throws_run fuel w). Qed.

Lemma init_without_browser_language_witness :
  init 2 (set_location_search (fun _ => [("lang", "zh-TW")])
            (Example.page Sample.mute (JS.JObj []) ∅ [Example.text_element "nav.home"]))
  = (Throw TypeError,
     set_location_search (fun _ => [("lang", "zh-TW")])
       (Example.page Sample.mute (JS.JObj []) ∅ [Example.text_element "nav.home"])).
Proof.
  apply (init_without_browser_language 2); reflexivity.
Defined.

Lemma classList_add_In c l x : In x (classList_add c l) <-> x = c \/ In x l.
Proof.
  unfold classList_add. destruct (includes l c) eqn:E.
  - apply includes_In in E. split; [auto|intros [->|H]; auto].
  - rewrite in_app_iff. simpl. intuition congruence.
Qed.

Lemma classList_remove_In c l x : In x (classList_remove c l) <-> x <> c /\ In x l.
Proof.
  unfold classList_remove. rewrite filter_In, negb_true_iff, String.eqb_neq.
  intuition congruence.
Qed.






(** X18: [getLanguageName] returns a code as it is when it is none of the
    three codes with a name and no built-in property has it for name. *)
Theorem getLanguageName_unknown names lang :
  not_inherited names lang -> ~ In lang ["en"; "zh-TW"; "zh-CN"] ->
  getLanguageName names lang = JS.Data (JS.JStr lang).
Proof.
  intros Hown Hnot. unfold getLanguageName. rewrite (get_data_own _ _ _ Hown).
  simpl in *.
  repeat match goal with
         | |- context [String.eqb ?a ?b] =>
             destruct (String.eqb_spec a b); [subst; tauto|]
         end.
  reflexivity.
Qed.

Lemma getLanguageName_unknown_witness :
  getLanguageName JS.es2015 "fr" = JS.Data (JS.JStr "fr").
Proof.
  apply (getLanguageName_unknown JS.es2015 "fr").
  - apply es2015_not_inherited. reflexivity.
  - simpl. intuition discriminate.
Defined.

(** * Properties of the page script *)

Lemma getCurrentLanguage_run w :
  getCurrentLanguage w = (Return (currentLang (this w)), w).
Proof. reflexivity. Qed.

Lemma switchLanguage_unsupported_run fuel lang w :
  ~ In lang (supportedLanguages (this w)) ->
  switchLanguage fuel lang w
  = (Return false,
     set_console
       (fun log => log ++ [console_warn_call ("Language " +:+ lang +:+ " not supported")])
       w).
Proof.
  intros H. apply includes_not_In in H.
  unfold switchLanguage, bind, gets, console_warn, modify, ret. now rewrite H.
Qed.

Lemma console_warn_run message w :
  console_warn message w
  = (Return tt, set_console (fun log => log ++ [console_warn_call message]) w).
Proof. reflexivity. Qed.

Module MainFacts.
Import Main.
Local Open Scope site_scope.

Lemma matches_In sel page k :
  In k (matches sel page) <-> k < length page /\ sel page k = true.
Proof. unfold matches. rewrite filter_In, in_seq. intuition lia. Qed.

Lemma matches_NoDup sel page : List.NoDup (matches sel page).
Proof. unfold matches. apply List.NoDup_filter, seq_NoDup. Qed.

Lemma matches_ext sel sel' page page' :
  length page' = length page -> (forall k, k < length page -> sel' page' k = sel page k) ->
  matches sel' page' = matches sel page.
Proof.
  intros Hlen H. unfold matches. rewrite Hlen. apply filter_ext_in.
  intros k Hk. apply in_seq in Hk. apply H. lia.
Qed.

Lemma set_document_id s : set_document (fun _ => document s) s = s.
Proof. now destruct s. Qed.

Lemma existsb_eqb_In j ks : existsb (Nat.eqb j) ks = true <-> In j ks.
Proof.
  rewrite existsb_exists. split.
  - intros (x & Hx & E). apply Nat.eqb_eq in E. now subst.
  - intros H. exists j. split; [exact H|apply Nat.eqb_refl].
Qed.

(** A loop whose callback changes the element it is given, and nothing
    else, changes the elements of its list, each once. *)
Lemma forEach_alter callback (g : node -> node) ks :
  (forall s k n, document s !! k = Some n ->
     callback k s = (Return tt, set_document (alter g k) s)) ->
  List.NoDup ks ->
  forall s, (forall k, In k ks -> k < length (document s)) ->
  exists page', forEach ks callback s = (Return tt, set_document (fun _ => page') s)
    /\ length page' = length (document s)
    /\ forall j, page' !! j = if existsb (Nat.eqb j) ks then g <$> document s !! j
                              else document s !! j.
Proof.
  intros Hcb Hnd. induction Hnd as [|k ks Hk Hnd IH]; intros s Hlt.
  - exists (document s). simpl. unfold ret. rewrite set_document_id. auto.
  - destruct (lookup_lt_is_Some_2 (document s) k) as [n Hn]; [apply Hlt; now left|].
    destruct (IH (set_document (alter g k) s)) as (page' & Hrun & Hlen & Hlook).
    { intros j Hj. simpl. rewrite length_alter. apply Hlt. now right. }
    exists page'. cbn [forEach]. unfold bind. rewrite (Hcb _ _ _ Hn), Hrun.
    split; [reflexivity|]. simpl in Hlen, Hlook. rewrite length_alter in Hlen.
    split; [exact Hlen|]. intros j. rewrite Hlook. simpl.
    destruct (Nat.eqb_spec j k) as [->|Hne]; simpl.
    + assert (E : existsb (Nat.eqb k) ks = false).
      { apply not_true_is_false. rewrite existsb_eqb_In. exact Hk. }
      rewrite E. apply list_lookup_alter_eq.
    + rewrite list_lookup_alter_ne by congruence.
      destruct (existsb (Nat.eqb j) ks); reflexivity.
Qed.



Lemma set_i18n_id s : set_i18n (fun _ => i18n s) s = s.
Proof. now destruct s. Qed.

(** The name of a language converts to a string, whatever the code. *)
Lemma getLanguageName_ToString names lang :
  exists text, JS.ToString (getLanguageName names lang) = Some text.
Proof.
  unfold getLanguageName, JS.get_data.
  destruct (JS.own_property language_names lang) as [v|] eqn:Eown.
  - assert (Hv : exists s, v = JS.Data (JS.JStr s)).
    { unfold language_names in Eown. simpl in Eown.
      repeat match type of Eown with
             | context [String.eqb ?a ?b] => destruct (String.eqb a b)
             end; simpl in Eown; try discriminate; injection Eown as <-; eauto. }
    destruct Hv as (s & ->). destruct (JS.truthy _); simpl; eauto.
  - unfold JS.inherited. simpl.
    destruct (JS.holder_from names JS.ObjectPrototype lang) as [h|]; [|simpl; eauto].
    unfold JS.builtin_value.
    destruct (String.eqb lang "__proto__" && JS.proto_eqb h JS.ObjectPrototype);
      [simpl; eauto|].
    destruct (String.eqb lang "length" && _); simpl; eauto.
Qed.

Lemma update_run k f s n :
  document s !! k = Some n -> update k f s = (Return tt, set_document (alter f k) s).
Proof. intros H. unfold update, bind, gets, modify. now rewrite H. Qed.

Lemma highlight_callback currentLang s k n :
  document s !! k = Some n ->
  (let* optionLang := getAttribute k data_lang in
   if strict_equal optionLang currentLang then
     update k (set_classList (classList_add "text-primary-orange"));;
     update k (set_classList (classList_add "font-semibold"))
   else
     update k (set_classList (classList_remove "text-primary-orange"));;
     update k (set_classList (classList_remove "font-semibold"))) s
  = (Return tt, set_document (alter (highlight currentLang) k) s).
Proof.
  intros H. unfold bind at 1, getAttribute, bind at 1, gets. rewrite H. unfold ret.
  assert (H1 : forall f, document (set_document (alter f k) s) !! k = Some (f n)).
  { intros f. simpl. now rewrite list_lookup_alter_eq, H. }
  destruct (strict_equal (data_lang n) currentLang) eqn:E; unfold bind.
  all: rewrite (update_run _ _ _ _ H), (update_run _ _ _ _ (H1 _)).
  all: f_equal; destruct s; unfold set_document; simpl; f_equal.
  all: rewrite list_alter_alter_eq; apply (alter_at _ _ _ _ n); auto.
  all: unfold highlight; simpl in *; now rewrite E.
Qed.

Lemma head_matches_lookup sel page k :
  head (matches sel page) = Some k -> exists n, page !! k = Some n /\ sel page k = true.
Proof.
  intros H. assert (Hin : In k (matches sel page)).
  { destruct (matches sel page); [discriminate|]. injection H as ->. now left. }
  apply matches_In in Hin as [Hlt Hsel].
  destruct (lookup_lt_is_Some_2 page k Hlt) as [n Hn]. eauto.
Qed.

Lemma label_run {A} value v text (rest : S A) s :
  JS.ToString v = Some text ->
  (let* found := getElementById value in
   match found with
   | Some display => set_textContent display v
   | None => ret tt
   end;;
   rest) s
  = rest (set_document (label value text) s).
Proof.
  intros Hv. unfold getElementById, querySelector, querySelectorAll.
  unfold bind at 1. unfold bind at 1. unfold gets at 1, ret at 1.
  assert (Hl : set_document (label value text) s
               = match head (matches (fun page k => connected page k
                                                    && id_selector value page k)
                               (document s)) with
                 | Some k => set_document (replace_children k text) s
                 | None => s
                 end).
  { unfold set_document, label. destruct (head _); [reflexivity|now destruct s]. }
  rewrite Hl. destruct (head _) as [k|] eqn:Hk; [|reflexivity].
  destruct (head_matches_lookup _ _ _ Hk) as (n & Hn & _).
  unfold bind at 1, set_textContent, bind at 1, gets, modify. now rewrite Hn, Hv.
Qed.

Lemma length_label value text page : length (label value text page) = length page.
Proof.
  unfold label. destruct (head _); [|reflexivity]. unfold replace_children.
  apply length_imap.
Qed.

(** [updateLanguageDisplay] returns, and changes the elements only: the
    two labels, and then the classes of the options. *)
Lemma updateLanguageDisplay_run s :
  let current := currentLang (this (i18n s)) in
  exists text page',
    JS.ToString (getLanguageName (builtin (env (i18n s))) current) = Some text
    /\ updateLanguageDisplay s = (Return tt, set_document (fun _ => page') s)
    /\ let page1 := label "current-lang-mobile" text
                      (label "current-lang-desktop" text (document s)) in
       length page' = length (document s)
       /\ forall j,
            page' !! j
            = if existsb (Nat.eqb j)
                   (matches (fun page k => connected page k
                                           && class_selector "lang-option" page k) page1)
              then highlight current <$> page1 !! j
              else page1 !! j.
Proof.
  intros current.
  destruct (getLanguageName_ToString (builtin (env (i18n s))) current) as (text & Htext).
  set (page1 := label "current-lang-mobile" text
                  (label "current-lang-desktop" text (document s))).
  set (s1 := set_document (fun _ => page1) s).
  destruct (forEach_alter
              (fun option =>
                 let* optionLang := getAttribute option data_lang in
                 if strict_equal optionLang current then
                   update option (set_classList (classList_add "text-primary-orange"));;
                   update option (set_classList (classList_add "font-semibold"))
                 else
                   update option (set_classList (classList_remove "text-primary-orange"));;
                   update option (set_classList (classList_remove "font-semibold")))
              (highlight current)
              (matches (fun page k => connected page k
                                      && class_selector "lang-option" page k) page1)
              (highlight_callback current)
              (matches_NoDup _ _) s1)
    as (page' & Hrun & Hlen & Hlook).
  { intros k Hk. apply matches_In in Hk. tauto. }
  exists text, page'. split; [exact Htext|]. split.
  - unfold updateLanguageDisplay, bind at 1, lift. rewrite getCurrentLanguage_run.
    rewrite set_i18n_id. unfold bind at 1, gets at 1. cbv zeta. fold current.
    rewrite (label_run _ _ _ _ _ Htext), (label_run _ _ _ _ _ Htext).
    unfold bind at 1, querySelectorAll, gets at 1.
    change (document (set_document (label "current-lang-mobile" text)
              (set_document (label "current-lang-desktop" text) s))) with page1.
    change (set_document (label "current-lang-mobile" text)
              (set_document (label "current-lang-desktop" text) s)) with s1.
    exact Hrun.
  - cbv zeta. fold page1. simpl in Hlen, Hlook. split; [|exact Hlook].
    rewrite Hlen. unfold page1. now rewrite !length_label.
Qed.


Lemma highlight_fields current n :
  isConnected (highlight current n) = isConnected n
  /\ data_lang (highlight current n) = data_lang n
  /\ node_id (highlight current n) = node_id n
  /\ assigned (highlight current n) = assigned n
  /\ ancestors (highlight current n) = ancestors n
  /\ forall c, c <> "text-primary-orange" -> c <> "font-semibold" ->
       (In c (classList (highlight current n)) <-> In c (classList n)).
Proof.
  unfold highlight. destruct (strict_equal _ _); simpl; repeat split; auto.
  all: rewrite ?classList_add_In, ?classList_remove_In; intuition congruence.
Qed.

Lemma highlight_classes current n :
  (In "text-primary-orange" (classList (highlight current n))
   <-> data_lang n = Some current)
  /\ (In "font-semibold" (classList (highlight current n))
      <-> data_lang n = Some current).
Proof.
  unfold highlight, strict_equal. destruct (data_lang n) as [l|]; simpl.
  - destruct (String.eqb_spec l current) as [->|Hne]; simpl.
    + rewrite !classList_add_In. intuition.
    + rewrite !classList_remove_In. intuition congruence.
  - rewrite !classList_remove_In. intuition congruence.
Qed.

Lemma updateLanguageDisplay_highlighted s :
  exists s', updateLanguageDisplay s = (Return tt, s')
    /\ i18n s' = i18n s /\ listeners s' = listeners s
    /\ lastScroll s' = lastScroll s /\ scrolled s' = scrolled s
    /\ defaultPrevented s' = defaultPrevented s
    /\ css s' = css s /\ offsetTop s' = offsetTop s /\ pageYOffset s' = pageYOffset s
    /\ length (document s') = length (document s)
    /\ highlighted (currentLang (this (i18n s))) (document s').
Proof.
  destruct (updateLanguageDisplay_run s) as (text & page' & _ & Hrun & Hlen & Hlook).
  cbv zeta in *. eexists. split; [exact Hrun|]. simpl.
  repeat (split; [reflexivity|]). split; [exact Hlen|].
  intros k n Hn Hc Ho. rewrite Hlook in Hn.
  set (page1 := label "current-lang-mobile" text
                  (label "current-lang-desktop" text (document s))) in *.
  destruct (existsb _ _) eqn:E.
  - destruct (page1 !! k) as [n1|]; [|discriminate]. injection Hn as <-.
    destruct (highlight_fields (currentLang (this (i18n s))) n1) as (_ & Hd & _).
    rewrite Hd. apply highlight_classes.
  - exfalso. apply not_true_iff_false in E. apply E.
    apply existsb_eqb_In, matches_In.
    split; [eapply lookup_lt_Some; eauto|].
    unfold connected, class_selector, at_node. rewrite Hn, Hc. simpl.
    now apply includes_In.
Qed.


Lemma getElementById_run value s :
  getElementById value s
  = (Return (head (matches (fun page k => connected page k && id_selector value page k)
                     (document s))), s).
Proof. reflexivity. Qed.

Lemma replace_children_assigned root text page k n :
  page !! k = Some n -> k = root \/ assigned n = Some text ->
  exists n', replace_children root text page !! k = Some n' /\ assigned n' = Some text.
Proof.
  intros Hn Hk. unfold replace_children. rewrite list_lookup_imap, Hn. simpl.
  destruct (Nat.eqb_spec k root) as [->|Hne].
  - eexists. split; [reflexivity|]. reflexivity.
  - destruct Hk as [Hk|Hk]; [congruence|].
    destruct (inside root page k); eexists; (split; [reflexivity|]); exact Hk.
Qed.

Lemma label_assigned value text page k n :
  page !! k = Some n -> assigned n = Some text ->
  exists n', label value text page !! k = Some n' /\ assigned n' = Some text.
Proof.
  intros Hn Ha. unfold label. destruct (head _); [|eauto].
  eapply replace_children_assigned; eauto.
Qed.

(** X19: [updateLanguageDisplay] returns on every page and leaves the
    instance as it is; after it, an option that is in the page carries the
    classes [text-primary-orange] and [font-semibold] when its [data-lang]
    is the current language, and neither of them otherwise. *)
Theorem updateLanguageDisplay_highlights s :
  exists s', updateLanguageDisplay s = (Return tt, s')
    /\ i18n s' = i18n s
    /\ highlighted (currentLang (this (i18n s))) (document s').
Proof.
  destruct (updateLanguageDisplay_highlighted s)
    as (s' & Hrun & Hi & _ & _ & _ & _ & _ & _ & _ & _ & H).
  exists s'. auto.
Qed.

(** X20: when the page has an element of id [current-lang-desktop],
    [updateLanguageDisplay] leaves it with the name of the current language
    as its text. *)
Theorem updateLanguageDisplay_labels s k :
  getElementById "current-lang-desktop" s = (Return (Some k), s) ->
  exists s' n text, updateLanguageDisplay s = (Return tt, s')
    /\ JS.ToString (getLanguageName (builtin (env (i18n s)))
                      (currentLang (this (i18n s)))) = Some text
    /\ document s' !! k = Some n /\ assigned n = Some text.
Proof.
  rewrite getElementById_run. intros Hk. injection Hk as Hk.
  destruct (updateLanguageDisplay_run s) as (text & page' & Htext & Hrun & _ & Hlook).
  cbv zeta in *.
  destruct (head_matches_lookup _ _ _ Hk) as (n0 & Hn0 & _).
  assert (H1 : exists n1, label "current-lang-desktop" text (document s) !! k = Some n1
                          /\ assigned n1 = Some text).
  { unfold label. rewrite Hk. eapply replace_children_assigned; eauto. }
  destruct H1 as (n1 & Hn1 & Ha1).
  destruct (label_assigned "current-lang-mobile" text _ k n1 Hn1 Ha1) as (n2 & Hn2 & Ha2).
  specialize (Hlook k). rewrite Hn2 in Hlook.
  destruct (existsb _ _); simpl in Hlook.
  - eexists _, _, text. split; [exact Hrun|]. split; [exact Htext|].
    split; [exact Hlook|].
    destruct (highlight_fields (currentLang (this (i18n s))) n2) as (_ & _ & _ & -> & _).
    exact Ha2.
  - eexists _, _, text. split; [exact Hrun|]. split; [exact Htext|].
    split; [exact Hlook|exact Ha2].
Qed.

Lemma toggle_In c l x : In x (toggle c l) <-> (x = c /\ ~ In c l) \/ (x <> c /\ In x l).
Proof.
  unfold toggle. destruct (includes l c) eqn:E.
  - apply includes_In in E. rewrite classList_remove_In. intuition.
  - apply includes_not_In in E. rewrite classList_add_In.
    destruct (string_dec x c) as [->|Hne]; intuition.
Qed.

(** X21: a click on the menu button toggles the class [hidden] of the
    mobile menu and keeps its other classes, so that two clicks leave the
    menu with the classes it had; a click on a link of the menu leaves the
    menu hidden. *)
Theorem mobile_menu_clicks s menu n :
  document s !! menu = Some n ->
  exists s1 s2 s3 n1 n2 n3,
    menu_button_click menu s = (Return tt, s1)
    /\ menu_button_click menu s1 = (Return tt, s2)
    /\ mobile_link_click menu s = (Return tt, s3)
    /\ document s1 !! menu = Some n1
    /\ document s2 !! menu = Some n2
    /\ document s3 !! menu = Some n3
    /\ (In "hidden" (classList n1) <-> ~ In "hidden" (classList n))
    /\ (forall c, In c (classList n2) <-> In c (classList n))
    /\ (forall c, In c (classList n3) <-> c = "hidden" \/ In c (classList n)).
Proof.
  intros Hn. unfold menu_button_click, mobile_link_click.
  assert (H1 : forall f, document (set_document (alter f menu) s) !! menu = Some (f n)).
  { intros f. simpl. now rewrite list_lookup_alter_eq, Hn. }
  eexists _, _, _, _, _, _.
  split; [exact (update_run _ _ _ _ Hn)|].
  split; [exact (update_run _ _ _ _ (H1 _))|].
  split; [exact (update_run _ _ _ _ Hn)|].
  split; [apply H1|].
  split; [simpl; now rewrite !list_lookup_alter_eq, Hn|].
  split; [apply H1|]. simpl.
  split; [|split].
  - rewrite toggle_In. intuition.
  - intros c. rewrite !toggle_In.
    destruct (string_dec c "hidden") as [->|Hne]; [|intuition].
    destruct (in_dec string_dec "hidden" (classList n)); intuition.
  - intros c. apply classList_add_In.
Qed.

(** A menu that is hidden: the button shows it, and a second click hides
    it again. *)
Lemma mobile_menu_clicks_witness :
  let menu := {| localName := "div"; node_id := Some "mobile-menu";
                 classList := ["md:hidden"; "hidden"]; data_lang := None;
                 data_dropdown := None; data_menu := None; href := None;
                 ancestors := []; isConnected := true; assigned := None |} in
  let s := {| i18n := Example.home; document := [menu]; listeners := [];
              lastScroll := 0; scrolled := []; defaultPrevented := false;
              css := fun _ => None; offsetTop := fun _ _ => 0%Z; pageYOffset := 0 |} in
  exists s1 s2 n1 n2,
    menu_button_click 0 s = (Return tt, s1)
    /\ menu_button_click 0 s1 = (Return tt, s2)
    /\ document s1 !! 0 = Some n1 /\ classList n1 = ["md:hidden"]
    /\ document s2 !! 0 = Some n2 /\ classList n2 = ["md:hidden"; "hidden"].
Proof.
  intros menu s.
  destruct (mobile_menu_clicks s 0 menu eq_refl)
    as (s1 & s2 & s3 & n1 & n2 & n3 & R1 & R2 & _ & L1 & L2 & _).
  exists s1, s2, n1, n2. split; [exact R1|]. split; [exact R2|].
  assert (E1 : s1 = snd (menu_button_click 0 s)) by now rewrite R1.
  assert (E2 : s2 = snd (menu_button_click 0 s1)) by now rewrite R2.
  split; [exact L1|]. split.
  - rewrite E1 in L1. vm_compute in L1. now injection L1 as <-.
  - split; [exact L2|]. rewrite E2, E1 in L2. vm_compute in L2. now injection L2 as <-.
Defined.


(** On the example page in zh-TW, the display shows the name of zh-TW. *)
Lemma updateLanguageDisplay_labels_witness :
  exists s' n,
    updateLanguageDisplay
      (Sample.site (set_this (set_currentLang "zh-TW") Example.home)) = (Return tt, s')
    /\ document s' !! 1 = Some n
    /\ assigned n = Some "繁體中文".
Proof.
  destruct (updateLanguageDisplay_labels
              (Sample.site (set_this (set_currentLang "zh-TW") Example.home)) 1 eq_refl)
    as (s' & n & text & Hrun & Htext & Hn & Ha).
  exists s', n. split; [exact Hrun|]. split; [exact Hn|].
  rewrite Ha. rewrite <- Htext. reflexivity.
Defined.

(** X22: on a page with a [nav] element, the listener of [scroll] leaves
    the element with the class [shadow-lg] exactly when the page is
    scrolled by more than 100 pixels, keeps its other classes, and records
    the position. *)
Theorem window_scroll_shadow s nav n :
  document s !! nav = Some n ->
  exists s' n', window_scroll (Some nav) s = (Return tt, s')
    /\ document s' !! nav = Some n'
    /\ (In "shadow-lg" (classList n') <-> (100 < pageYOffset s)%Q)
    /\ (forall c, c <> "shadow-lg" -> In c (classList n') <-> In c (classList n))
    /\ lastScroll s' = pageYOffset s.
Proof.
  intros Hn. unfold window_scroll, bind at 1, gets at 1.
  assert (H1 : forall f, document (set_document (alter f nav) s) !! nav = Some (f n)).
  { intros f. simpl. now rewrite list_lookup_alter_eq, Hn. }
  destruct (Qle_bool (pageYOffset s) 100) eqn:E; simpl; unfold bind;
    rewrite (update_run _ _ _ _ Hn); unfold modify.
  - apply Qle_bool_iff in E.
    eexists _, _. split; [reflexivity|]. split; [apply H1|]. simpl.
    split; [|split; [|reflexivity]].
    + rewrite classList_remove_In. split; [intuition|].
      intros Hlt. exfalso. exact (Qlt_not_le _ _ Hlt E).
    + intros c Hc. rewrite classList_remove_In. intuition.
  - assert (Hlt : (100 < pageYOffset s)%Q).
    { apply Qnot_le_lt. intros Hle. apply Qle_bool_iff in Hle. congruence. }
    eexists _, _. split; [reflexivity|]. split; [apply H1|]. simpl.
    split; [|split; [|reflexivity]].
    + rewrite classList_add_In. intuition.
    + intros c Hc. rewrite classList_add_In. intuition.
Qed.

(** The example page is scrolled by 250 pixels. *)
Lemma window_scroll_shadow_witness :
  exists s' n', window_scroll (Some 0) (Sample.site Example.home) = (Return tt, s')
    /\ document s' !! 0 = Some n'
    /\ classList n' = ["sticky"; "shadow-lg"].
Proof.
  destruct (window_scroll_shadow (Sample.site Example.home) 0 _ eq_refl)
    as (s' & n' & Hrun & Hn & _).
  exists s', n'. split; [exact Hrun|]. split; [exact Hn|].
  assert (E : s' = snd (window_scroll (Some 0) (Sample.site Example.home)))
    by now rewrite Hrun.
  rewrite E in Hn. vm_compute in Hn. now injection Hn as <-.
Defined.

(** X23: a click on an anchor link whose [href] is [#] does nothing, and
    does not prevent the default action.  On any other link the default
    action is prevented; then the [href] is read as a selector: when it is
    not a valid one the listener throws, and when it is, the window is asked
    to scroll to 80 pixels above the first element that it matches, if it
    matches one.  The page is left as it is. *)
Theorem anchor_click_target s self n link :
  document s !! self = Some n -> href n = Some link ->
  if String.eqb link "#" then anchor_click self s = (Return tt, s)
  else
    exists r s', anchor_click self s = (r, s')
      /\ defaultPrevented s' = true /\ document s' = document s
      /\ match css s link with
         | None => r = Throw DOMException /\ scrolled s' = scrolled s
         | Some sel =>
             r = Return tt
             /\ scrolled s'
                = scrolled s
                  ++ match head (matches (fun page k => connected page k && sel page k)
                                   (document s)) with
                     | Some found => [(offsetTop s (document s) found - 80)%Z]
                     | None => []
                     end
         end.
Proof.
  intros Hn Hl.
  unfold anchor_click, getAttribute, preventDefault, parsed_selector, querySelector,
    querySelectorAll.
  unfold bind, gets, ret, modify, throw. cbn beta iota. rewrite Hn. cbn beta iota. rewrite Hl. unfold strict_equal.
  change (default "null" (Some link)) with link.
  destruct (String.eqb link "#"); [reflexivity|].
  cbn [css set_defaultPrevented].
  destruct (css s link) as [sel|].
  - cbn [document set_defaultPrevented]. destruct (head _) as [found|].
    + eexists _, _. split; [reflexivity|]. simpl. auto.
    + eexists _, _. split; [reflexivity|]. simpl. rewrite app_nil_r. auto.
  - eexists _, _. split; [reflexivity|]. simpl. auto.
Qed.

(** The link of the example page scrolls to 1120, and an option, whose
    [href] is [#], does nothing as an anchor. *)
Lemma anchor_click_target_witness :
  (exists r s', anchor_click 6 (Sample.site Example.home) = (r, s')
     /\ r = Return tt /\ defaultPrevented s' = true /\ scrolled s' = [1120%Z])
  /\ anchor_click 2 (Sample.site Example.home) = (Return tt, Sample.site Example.home).
Proof.
  split.
  - destruct (anchor_click_target (Sample.site Example.home) 6 _ "#pricing" eq_refl eq_refl)
      as (r & s' & Hrun & Hp & _ & Hr & Hs).
    exists r, s'. repeat split; auto.
  - exact (anchor_click_target (Sample.site Example.home) 2 _ "#" eq_refl eq_refl).
Defined.


(** ** The accordion *)

Lemma querySelector_run sel s :
  querySelector sel s
  = (Return (head (matches (fun page k => connected page k && sel page k) (document s))), s).
Proof. reflexivity. Qed.

Lemma element_querySelector_run root sel s :
  element_querySelector root sel s
  = (Return (head (matches (fun page k => inside root page k && sel page k) (document s))),
     s).
Proof. reflexivity. Qed.

(** A loop that changes the classes of the elements of a selector. *)
Lemma forEach_classes (sel : selector) (h : list string -> list string) s :
  exists page',
    forEach (matches sel (document s)) (fun k => update k (set_classList h)) s
    = (Return tt, set_document (fun _ => page') s)
    /\ length page' = length (document s)
    /\ forall k n', page' !! k = Some n' ->
         exists n, document s !! k = Some n
           /\ ((sel (document s) k = true /\ n' = set_classList h n)
               \/ (sel (document s) k = false /\ n' = n)).
Proof.
  destruct (forEach_alter (fun k => update k (set_classList h)) (set_classList h)
              (matches sel (document s))
              (fun s k n H => update_run k _ s n H) (matches_NoDup _ _) s)
    as (page' & Hrun & Hlen & Hlook).
  { intros k Hk. apply matches_In in Hk. tauto. }
  exists page'. split; [exact Hrun|]. split; [exact Hlen|].
  intros k n' Hn'.
  assert (Hlt : k < length (document s)).
  { rewrite <- Hlen. eapply lookup_lt_Some. exact Hn'. }
  rewrite Hlook in Hn'.
  destruct (existsb (Nat.eqb k) _) eqn:E.
  - apply existsb_eqb_In, matches_In in E as [_ E].
    destruct (document s !! k) as [n|]; [|discriminate]. injection Hn' as <-.
    exists n. auto.
  - exists n'. split; [exact Hn'|]. right. split; [|reflexivity].
    apply not_true_is_false. intros Hs. apply not_true_iff_false in E. apply E.
    apply existsb_eqb_In, matches_In. auto.
Qed.

Lemma alter_lookup_cases (f : node -> node) m (page : list node) k n' :
  alter f m page !! k = Some n' ->
  exists n, page !! k = Some n /\ ((k = m /\ n' = f n) \/ (k <> m /\ n' = n)).
Proof.
  intros H. destruct (Nat.eq_dec m k) as [->|Hne].
  - rewrite list_lookup_alter_eq in H. destruct (page !! k) as [n|]; [|discriminate].
    injection H as <-. eauto.
  - rewrite list_lookup_alter_ne in H by exact Hne. exists n'. split; [exact H|].
    right. split; [congruence|reflexivity].
Qed.

(** The run of the listener when the menu of the trigger is found: the two
    loops leave no menu of the accordion open. *)
Lemma dropdown_trigger_click_run s self trigger menu m0 :
  document s !! self = Some trigger ->
  plain (default "null" (data_dropdown trigger)) = true ->
  querySelector (data_menu_selector (default "null" (data_dropdown trigger))) s
  = (Return (Some menu), s) ->
  document s !! menu = Some m0 ->
  exists page2,
    length page2 = length (document s)
    /\ (forall k n2, page2 !! k = Some n2 ->
          isConnected n2 = true -> In "mobile-dropdown-menu" (classList n2) ->
          ~ In "active" (classList n2))
    /\ dropdown_trigger_click self s
       = (if includes (classList m0) "active" then ret tt
          else
            update menu (set_classList (classList_add "active"));;
            match head (matches (fun page k => inside self page k
                                               && class_selector "chevron" page k)
                          (document s)) with
            | Some chevron => update chevron (set_classList (classList_add "rotate-180"))
            | None => throw TypeError
            end)
           (set_document (fun _ => page2) (set_defaultPrevented true s)).
Proof.
  intros Hself Hplain Hmenu Hm0.
  rewrite querySelector_run in Hmenu. injection Hmenu as Hmenu.
  set (s0 := set_defaultPrevented true s).
  destruct (forEach_classes
              (fun page k => connected page k && class_selector "mobile-dropdown-menu" page k)
              (classList_remove "active") s0) as (page1 & Hrun1 & Hlen1 & Hlook1).
  set (s1 := set_document (fun _ => page1) s0) in *.
  destruct (forEach_classes
              (fun page k =>
                 connected page k
                 && descendant_selector (class_selector "mobile-dropdown-trigger")
                      (class_selector "chevron") page k)
              (classList_remove "rotate-180") s1) as (page2 & Hrun2 & Hlen2 & Hlook2).
  exists page2. split; [simpl in *; congruence|]. split.
  - intros k n2 Hn2 Hc Hi.
    destruct (Hlook2 k n2 Hn2) as (n1 & Hn1 & H2).
    destruct (Hlook1 k n1 Hn1) as (n & Hn & H1). simpl in Hn.
    assert (Hsel : connected (document s0) k
                   && class_selector "mobile-dropdown-menu" (document s0) k
                   = isConnected n && includes (classList n) "mobile-dropdown-menu").
    { simpl. unfold connected, class_selector, at_node. now rewrite Hn. }
    rewrite Hsel in H1. clear Hsel.
    destruct H1 as [[S1 ->]|[S1 ->]], H2 as [[_ ->]|[_ ->]]; simpl in *.
    all: rewrite ?classList_remove_In in *.
    all: try (intuition congruence).
    all: exfalso; apply not_true_iff_false in S1; apply S1.
    all: rewrite Hc; simpl; apply includes_In; tauto.
  - unfold dropdown_trigger_click, bind at 1, preventDefault, modify at 1. fold s0.
    unfold bind at 1, getAttribute, bind at 1, gets at 1.
    change (document s0) with (document s). rewrite Hself. unfold ret at 1.
    unfold bind at 1, menu_selector. rewrite Hplain. unfold ret at 1.
    unfold bind at 1. rewrite querySelector_run.
    change (document s0) with (document s). rewrite Hmenu.
    unfold bind at 1. rewrite element_querySelector_run.
    change (document s0) with (document s).
    unfold bind at 1, classList_contains, bind at 1, gets at 1.
    change (document s0) with (document s). rewrite Hm0. unfold ret at 1.
    unfold bind at 1, querySelectorAll, gets at 1.
    unfold bind at 1. rewrite Hrun1. fold s1.
    unfold bind at 1, gets at 1.
    unfold bind at 1. rewrite Hrun2.
    destruct (includes (classList m0) "active"); reflexivity.
Qed.


(** X24: a click on a trigger of the accordion whose menu and chevron are
    found leaves at most one menu of the accordion open: after it, a menu
    of the accordion that is in the page is open exactly when it is the
    menu of the trigger and that menu was closed before the click. *)
Theorem dropdown_trigger_click_exclusive s self trigger menu m0 chevron :
  document s !! self = Some trigger ->
  plain (default "null" (data_dropdown trigger)) = true ->
  querySelector (data_menu_selector (default "null" (data_dropdown trigger))) s
  = (Return (Some menu), s) ->
  document s !! menu = Some m0 ->
  element_querySelector self (class_selector "chevron") s = (Return (Some chevron), s) ->
  exists s', dropdown_trigger_click self s = (Return tt, s')
    /\ i18n s' = i18n s
    /\ forall k n', document s' !! k = Some n' ->
         isConnected n' = true -> In "mobile-dropdown-menu" (classList n') ->
         (In "active" (classList n') <-> k = menu /\ ~ In "active" (classList m0)).
Proof.
  intros Hself Hplain Hmenu Hm0 Hchevron.
  destruct (dropdown_trigger_click_run s self trigger menu m0 Hself Hplain Hmenu Hm0)
    as (page2 & Hlen & Hclosed & Hrun).
  rewrite element_querySelector_run in Hchevron. injection Hchevron as Hchevron.
  rewrite Hchevron in Hrun. rewrite Hrun. clear Hrun.
  destruct (includes (classList m0) "active") eqn:Ha.
  - apply includes_In in Ha. eexists. split; [reflexivity|]. split; [reflexivity|].
    simpl. intros k n' Hn' Hc Hi. specialize (Hclosed k n' Hn' Hc Hi). tauto.
  - apply includes_not_In in Ha.
    destruct (lookup_lt_is_Some_2 page2 menu) as [m2 Hm2].
    { rewrite Hlen. eapply lookup_lt_Some. exact Hm0. }
    destruct (head_matches_lookup _ _ _ Hchevron) as (c0 & Hc0 & _).
    destruct (lookup_lt_is_Some_2
                (alter (set_classList (classList_add "active")) menu page2) chevron)
      as [c2 Hc2].
    { rewrite length_alter, Hlen. eapply lookup_lt_Some. exact Hc0. }
    unfold bind. erewrite update_run by (simpl; exact Hm2).
    erewrite update_run by (simpl; exact Hc2).
    eexists. split; [reflexivity|]. split; [reflexivity|].
    simpl. intros k n' Hn' Hc Hi.
    apply alter_lookup_cases in Hn' as (n3 & Hn3 & H3).
    apply alter_lookup_cases in Hn3 as (n2 & Hn2 & H2).
    specialize (Hclosed k n2 Hn2).
    destruct H3 as [[_ ->]|[_ ->]], H2 as [[E ->]|[E ->]]; simpl in *.
    all: rewrite ?classList_add_In in *.
    all: split; [intros Hin|intros [Hk _]; try congruence; auto].
    all: try (split; [exact E|exact Ha]).
    all: exfalso; apply Hclosed; auto.
    all: try (destruct Hi as [Hi|Hi]; [discriminate|exact Hi]).
    all: try (destruct Hin as [Hin|Hin]; [discriminate|exact Hin]).
    all: try (destruct Hi as [Hi|[Hi|Hi]]; try discriminate; exact Hi).
Qed.


(** On the example page the menu [company] is open; a click on the trigger
    of [products] opens [products] and closes [company]. *)
Lemma dropdown_trigger_click_exclusive_witness :
  exists s', dropdown_trigger_click 7 (Sample.site Example.home) = (Return tt, s')
    /\ (classList <$> document s' !! 9) = Some ["mobile-dropdown-menu"; "active"]
    /\ (classList <$> document s' !! 12) = Some ["mobile-dropdown-menu"].
Proof.
  destruct (dropdown_trigger_click_exclusive (Sample.site Example.home) 7
              (Sample.trigger "products" [5; 0]) 9 (Sample.dropdown "products" [] [5; 0]) 8
              eq_refl eq_refl eq_refl eq_refl eq_refl) as (s' & Hrun & _).
  exists s'. split; [exact Hrun|].
  assert (E : s' = snd (dropdown_trigger_click 7 (Sample.site Example.home)))
    by now rewrite Hrun.
  rewrite E. split; reflexivity.
Defined.

(** X25: a click on a trigger whose menu is not found throws a [TypeError]
    and changes nothing of the page; a click on a trigger without chevron
    whose menu is found and closed throws a [TypeError] as well, but only
    after it has opened the menu. *)
Theorem dropdown_trigger_click_throws s self trigger :
  document s !! self = Some trigger ->
  plain (default "null" (data_dropdown trigger)) = true ->
  (querySelector (data_menu_selector (default "null" (data_dropdown trigger))) s
   = (Return None, s) ->
   exists s', dropdown_trigger_click self s = (Throw TypeError, s')
     /\ document s' = document s)
  /\ (forall menu m0,
        querySelector (data_menu_selector (default "null" (data_dropdown trigger))) s
        = (Return (Some menu), s) ->
        document s !! menu = Some m0 -> ~ In "active" (classList m0) ->
        element_querySelector self (class_selector "chevron") s = (Return None, s) ->
        exists s' m', dropdown_trigger_click self s = (Throw TypeError, s')
          /\ document s' !! menu = Some m'
          /\ In "active" (classList m')).
Proof.
  intros Hself Hplain. split.
  - rewrite querySelector_run. intros Hmenu. injection Hmenu as Hmenu.
    unfold dropdown_trigger_click, bind at 1, preventDefault, modify at 1.
    unfold bind at 1, getAttribute, bind at 1, gets at 1.
    change (document (set_defaultPrevented true s)) with (document s).
    rewrite Hself. unfold ret at 1.
    unfold bind at 1, menu_selector. rewrite Hplain. unfold ret at 1.
    unfold bind at 1. rewrite querySelector_run.
    change (document (set_defaultPrevented true s)) with (document s). rewrite Hmenu.
    unfold bind at 1. rewrite element_querySelector_run.
    eexists. split; [reflexivity|reflexivity].
  - intros menu m0 Hmenu Hm0 Ha Hchevron.
    destruct (dropdown_trigger_click_run s self trigger menu m0 Hself Hplain Hmenu Hm0)
      as (page2 & Hlen & _ & Hrun).
    rewrite element_querySelector_run in Hchevron. injection Hchevron as Hchevron.
    rewrite Hchevron in Hrun. rewrite Hrun. clear Hrun.
    apply includes_not_In in Ha. rewrite Ha.
    destruct (lookup_lt_is_Some_2 page2 menu) as [m2 Hm2].
    { rewrite Hlen. eapply lookup_lt_Some. exact Hm0. }
    unfold bind. erewrite update_run by (simpl; exact Hm2).
    eexists _, _. split; [reflexivity|]. simpl.
    rewrite list_lookup_alter_eq, Hm2. split; [reflexivity|]. simpl.
    apply classList_add_In. now left.
Qed.

(** On the example page, the trigger of [support] has no menu, and the
    trigger of [legal] has a menu and no chevron. *)
Lemma dropdown_trigger_click_throws_witness :
  (exists s', dropdown_trigger_click 16 (Sample.site Example.home) = (Throw TypeError, s')
     /\ document s' = Sample.page)
  /\ (exists s' m', dropdown_trigger_click 14 (Sample.site Example.home)
                    = (Throw TypeError, s')
        /\ document s' !! 15 = Some m'
        /\ In "active" (classList m')).
Proof.
  split.
  - apply (proj1 (dropdown_trigger_click_throws (Sample.site Example.home) 16
                    (Sample.trigger "support" [5; 0]) eq_refl eq_refl)).
    reflexivity.
  - apply (proj2 (dropdown_trigger_click_throws (Sample.site Example.home) 14
                    (Sample.trigger "legal" [5; 0]) eq_refl eq_refl)
             15 (Sample.dropdown "legal" [] [5; 0])).
    + reflexivity.
    + reflexivity.
    + simpl. intuition discriminate.
    + reflexivity.
Defined.


(** ** The language options *)

Lemma at_node_alter (p : node -> bool) (f : node -> node) m (page : list node) k :
  (forall n, p (f n) = p n) -> at_node p (alter f m page) k = at_node p page k.
Proof.
  intros H. unfold at_node. destruct (Nat.eq_dec m k) as [->|Hne].
  - rewrite list_lookup_alter_eq. destruct (page !! k); simpl; auto.
  - now rewrite list_lookup_alter_ne.
Qed.

Lemma highlighted_alter current (h : list string -> list string) m page :
  (forall l c, c <> "hidden" -> (In c (h l) <-> In c l)) ->
  highlighted current page ->
  highlighted current (alter (set_classList h) m page).
Proof.
  intros Hh H k n' Hn' Hc Hi.
  apply alter_lookup_cases in Hn' as (n & Hn & [[_ ->]|[_ ->]]); [|now apply (H k)].
  simpl in *. rewrite !Hh in * by discriminate. now apply (H k).
Qed.

Lemma classList_contains_run k c s n :
  document s !! k = Some n ->
  classList_contains k c s = (Return (includes (classList n) c), s).
Proof. intros H. unfold classList_contains, bind, gets. now rewrite H. Qed.

(** The end of the click listener of an option: the mobile menu, if there
    is one, is left hidden. *)
Lemma close_menu_run s :
  exists s',
    (let* mobileMenu := getElementById "mobile-menu" in
     match mobileMenu with
     | Some menu =>
         let* hidden := classList_contains menu "hidden" in
         if negb hidden then update menu (set_classList (classList_add "hidden"))
         else ret tt
     | None => ret tt
     end) s = (Return tt, s')
    /\ i18n s' = i18n s /\ defaultPrevented s' = defaultPrevented s
    /\ listeners s' = listeners s
    /\ (forall current, highlighted current (document s) ->
          highlighted current (document s'))
    /\ forall menu, getElementById "mobile-menu" s' = (Return (Some menu), s') ->
         exists m, document s' !! menu = Some m /\ In "hidden" (classList m).
Proof.
  unfold bind at 1. rewrite getElementById_run.
  destruct (head _) as [menu|] eqn:Hmenu.
  - destruct (head_matches_lookup _ _ _ Hmenu) as (m0 & Hm0 & _).
    unfold bind. rewrite (classList_contains_run _ _ _ _ Hm0).
    destruct (includes (classList m0) "hidden") eqn:Hh; simpl.
    + exists s. do 4 (split; [reflexivity|]). split; [auto|].
      intros menu'. rewrite getElementById_run, Hmenu. intros [= <-].
      exists m0. split; [exact Hm0|]. now apply includes_In.
    + rewrite (update_run _ _ _ _ Hm0). eexists. split; [reflexivity|]. simpl.
      do 3 (split; [reflexivity|]). split.
      * intros current. apply highlighted_alter.
        intros l c Hc. rewrite classList_add_In. intuition congruence.
      * intros menu'. rewrite getElementById_run. simpl.
        erewrite (matches_ext _ _ (document s)), Hmenu.
        -- intros [= <-]. rewrite list_lookup_alter_eq, Hm0. eexists. split; [reflexivity|].
           simpl. apply classList_add_In. now left.
        -- apply length_alter.
        -- intros k _. unfold connected, id_selector.
           now rewrite !at_node_alter by reflexivity.
  - exists s. unfold ret. do 4 (split; [reflexivity|]). split; [auto|].
    intros menu'. rewrite getElementById_run, Hmenu. discriminate.
Qed.


Lemma lift_await_run {A} (m : M A) s :
  lift (await m) s
  = (fst (m (set_observed (fun seen => seen ++ [translations (this (i18n s))]) (i18n s))),
     set_i18n (fun _ => snd (m (set_observed
                                 (fun seen => seen ++ [translations (this (i18n s))])
                                 (i18n s)))) s).
Proof. unfold lift, await. now destruct (m _). Qed.



(** X27: a click on an option without [data-lang], or whose [data-lang] is
    not a supported language, returns with a warning logged and the
    instance, the translated elements, the storage, the URL and the events
    as they were; the options are highlighted for the language that was and
    is current, and the mobile menu, if the page has one, is hidden. *)
Theorem lang_option_click_unsupported fuel s self n :
  document s !! self = Some n ->
  (forall lang, data_lang n = Some lang ->
     ~ In lang (supportedLanguages (this (i18n s)))) ->
  exists s', lang_option_click fuel self s = (Return tt, s')
    /\ this (i18n s') = this (i18n s)
    /\ elements (i18n s') = elements (i18n s)
    /\ localStorage (i18n s') = localStorage (i18n s)
    /\ location_search (i18n s') = location_search (i18n s)
    /\ events (i18n s') = events (i18n s)
    /\ console (i18n s')
       = console (i18n s)
         ++ [console_warn_call ("Language " +:+ default "null" (data_lang n)
                                +:+ " not supported")]
    /\ highlighted (currentLang (this (i18n s))) (document s')
    /\ forall menu, getElementById "mobile-menu" s' = (Return (Some menu), s') ->
         exists m, document s' !! menu = Some m /\ In "hidden" (classList m).
Proof.
  intros Hself Hnot.
  set (w0 := set_observed (fun seen => seen ++ [translations (this (i18n s))]) (i18n s)).
  set (w' := set_console
               (fun log => log ++ [console_warn_call
                                     ("Language " +:+ default "null" (data_lang n)
                                      +:+ " not supported")]) w0).
  set (s1 := set_i18n (fun _ => w') (set_defaultPrevented true s)).
  destruct (updateLanguageDisplay_highlighted s1)
    as (s3 & Hrun3 & Hi3 & _ & _ & _ & Hd3 & _ & _ & _ & _ & Hh3).
  destruct (close_menu_run s3) as (s4 & Hrun4 & Hi4 & Hd4 & _ & Hh4 & Hm4).
  exists s4. split.
  - unfold lang_option_click, bind at 1, preventDefault, modify at 1.
    unfold bind at 1, getAttribute, bind at 1, gets at 1.
    change (document (set_defaultPrevented true s)) with (document s).
    rewrite Hself. unfold ret at 1.
    unfold bind at 1, i18n_switchLanguage.
    assert (Hstep : forall rest : S unit,
              (let* _ := match data_lang n with
                         | Some lang =>
                             let* switched := lift (await (switchLanguage fuel lang)) in
                             (if switched : bool then dispatch_languageChanged
                              else ret tt);;
                             ret switched
                         | None =>
                             lift (await (console_warn "Language null not supported"));;
                             ret false
                         end in rest) (set_defaultPrevented true s)
              = rest s1).
    { intros rest. unfold bind at 1. subst s1 w'.
      destruct (data_lang n) as [lang|] eqn:Hlang.
      - specialize (Hnot lang eq_refl).
        unfold bind at 1 2. rewrite lift_await_run.
        change (i18n (set_defaultPrevented true s)) with (i18n s). fold w0.
        rewrite (switchLanguage_unsupported_run fuel lang w0 Hnot). reflexivity.
      - unfold bind at 1. rewrite lift_await_run, console_warn_run. reflexivity. }
    unfold bind at 1 in Hstep. rewrite Hstep.
    unfold bind at 1. rewrite Hrun3. exact Hrun4.
  - rewrite Hi4, Hi3. simpl. repeat (split; [reflexivity|]).
    split; [apply Hh4; exact Hh3|exact Hm4].
Qed.

(** An option of French on the example page. *)
Lemma lang_option_click_unsupported_witness :
  let s := set_document (fun page => page ++ [Sample.lang_option "fr" [] [0]])
             (Sample.site Example.home) in
  exists s', lang_option_click 2 17 s = (Return tt, s')
    /\ this (i18n s') = this Example.home
    /\ console (i18n s') = [console_warn_call "Language fr not supported"]
    /\ highlighted "en" (document s').
Proof.
  intros s.
  destruct (lang_option_click_unsupported 2 s 17 (Sample.lang_option "fr" [] [0]) eq_refl)
    as (s' & Hrun & Ht & _ & _ & _ & _ & Hc & Hh & _).
  - intros lang [= <-]. simpl. intuition discriminate.
  - exists s'. auto.
Defined.


(** ** The start of the page *)





(** X28: when the browser reports no language at all, the listener of
    [DOMContentLoaded] throws the [TypeError] of [init]: it registers no
    listener, and the page and the instance are as they were, the body still
    marked as loading. *)
Theorem DOMContentLoaded_without_language fuel s :
  navigator_language (env (i18n s)) = EmptyString ->
  navigator_userLanguage (env (i18n s)) = None ->
  exists s', DOMContentLoaded fuel s = (Throw TypeError, s')
    /\ listeners s' = listeners s /\ document s' = document s
    /\ this (i18n s') = this (i18n s)
    /\ elements (i18n s') = elements (i18n s)
    /\ body_classList (i18n s') = body_classList (i18n s).
Proof.
  intros Hnav Huser. unfold DOMContentLoaded, bind at 1. rewrite lift_await_run.
  rewrite init_throws_run by assumption. cbn [fst snd].
  eexists. split; [reflexivity|]. repeat split.
Qed.

Lemma DOMContentLoaded_without_language_witness :
  exists s',
    DOMContentLoaded 2
      (Sample.site (Example.page Sample.mute (JS.JObj []) ∅ [Example.text_element "nav.home"]))
    = (Throw TypeError, s')
    /\ listeners s' = []
    /\ body_classList (i18n s') = ["i18n-loading"].
Proof.
  destruct (DOMContentLoaded_without_language 2
              (Sample.site (Example.page Sample.mute (JS.JObj []) ∅
                              [Example.text_element "nav.home"])) eq_refl eq_refl)
    as (s' & Hrun & Hl & _ & _ & _ & Hb).
  exists s'. auto.
Defined.



End MainFacts.
